(** * SocketManager: the connection manager of the messaging client

    A shallow embedding of the class [SocketManager] and proofs about its
    connection life cycle, its inbound-request buffer, the choice of the
    transport variant and the body handling of [fetch].

    The class is asynchronous JavaScript.  Every method is cut at its
    [await]s into synchronous segments; a segment is a function on the
    manager's fields, and the environment (the network, timers, the callers)
    chooses which segment runs next.  Object identity of processes and abort
    controllers is modelled by their index in an allocation table.  On
    the authenticated channel a connection attempt succeeds in one step
    and the call of [authenticate] that awaits it resumes in a later one;
    an attempt fails in the step in which the call that awaits it resumes,
    and an aborted attempt waits in a state of its own until that call has
    seen the rejection.
    Logging changes nothing the manager reads and is left out, but for the
    one warning that stands in for a swallowed failure. *)

From stdpp Require Import base strings list relations.
From Stdlib Require Import ZArith Lia.
From Stdlib.Strings Require Import Byte.

(** ** Data model *)

Inductive SocketStatus := CLOSED | CONNECTING | OPEN.

#[global] Instance SocketStatus_eq_dec : EqDecision SocketStatus.
Proof. solve_decision. Defined.

Record WebAPICredentials := { username : string; password : string }.

(** [error instanceof HTTPError] versus any other thrown value. *)
Inductive Error :=
  | HTTPError (code : Z)
  | OtherError (message : string).

#[global] Instance Error_eq_dec : EqDecision Error.
Proof. solve_decision. Defined.

Inductive TransportOption :=
  | Original
  | Libsignal
  | ShadowingHigh
  | ShadowingLow.

#[global] Instance TransportOption_eq_dec : EqDecision TransportOption.
Proof. solve_decision. Defined.

(** The two channel names, [AUTHENTICATED_CHANNEL_NAME] and
    [UNAUTHENTICATED_CHANNEL_NAME]. *)
Inductive Channel := AuthenticatedChannel | UnauthenticatedChannel.

(** Events of the [EventListener] base class that the manager emits. *)
Inductive Event :=
  | statusChange
  | online
  | offline
  | authError (error : Error).

(** Handlers and inbound requests are opaque objects, told apart by
    identity only. *)
Definition IRequestHandler := nat.
Definition IncomingWebSocketRequest := nat.

(** The life of one connection attempt.  [Aborting] is a pending attempt
    whose [abort()] has rejected the result, before the awaiting
    [authenticate] has resumed; [ShuttingDown] is a connected resource told
    to shut down whose close event is still to come. *)
Inductive ProcState :=
  | Connecting
  | Aborting
  | Rejected (error : Error)
  | Connected
  | ShuttingDown
  | Closed.

#[global] Instance ProcState_eq_dec : EqDecision ProcState.
Proof. solve_decision. Defined.

Record AbortableProcess := {
  pname : Channel;
  ptransport : option TransportOption;
  pshadowing : bool;
  pstate : ProcState
}.

Definition set_pstate (st : ProcState) (pr : AbortableProcess)
    : AbortableProcess :=
  {| pname := pname pr; ptransport := ptransport pr;
     pshadowing := pshadowing pr; pstate := st |}.

(** Modelled from the spec: BackOff (util/BackOff is not among the sources).
    A step index into a fixed delay sequence; the random jitter is left
    out. *)
Record BackOff := { timeouts : list Z; count : nat }.

(** One [sleep(timeout, signal)] of the reconnect helper, indexed by the
    [AbortController] that guards it. *)
Inductive Sleep :=
  | Sleeping (timeout : Z)
  | SleepAborted
  | SleepSettled.

(** The [NodeJS.Timeout] of the rotation timer: the process its callback
    captured, and whether the callback has run. *)
Record Timeout := { timerProcess : nat; timerFired : bool }.

(** A call suspended at [await this.getProxyAgent()]. *)
Inductive ProxyWaiter :=
  | AwaitAuthenticate (credentials : WebAPICredentials) (fromReconnect : bool)
  | AwaitUnauthenticated.

Record SocketManagerOptions := {
  url : string;
  artCreatorUrl : string;
  certificateAuthority : string;
  version : string;
  proxyUrl : option string;
  options_hasStoriesDisabled : bool
}.

(** The private fields of the class, followed by the world it acts on:
    the table of connection processes ever created (one transport-level
    connection each), the reconnect sleeps, the calls waiting for the proxy
    agent, the events emitted, the requests handed to handlers, and the
    processes of the authenticated channel to whose resource
    [authenticate] has attached its ['close'] listener, which it does when
    it resumes after [await process.getResult()]. *)
Record SocketManager := {
  backOff : BackOff;
  authenticated : option nat;
  unauthenticated : option nat;
  unauthenticatedExpirationTimer : option Timeout;
  credentials : option WebAPICredentials;
  lazyProxyAgent : bool;
  status : SocketStatus;
  requestHandlers : list IRequestHandler;
  incomingRequestQueue : list IncomingWebSocketRequest;
  isNavigatorOffline : bool;
  privIsOnline : option bool;
  isRemotelyExpired : bool;
  hasStoriesDisabled : bool;
  reconnectController : option nat;
  procs : list AbortableProcess;
  sleeps : list Sleep;
  proxyWaiters : list ProxyWaiter;
  emitted : list Event;
  delivered : list (IRequestHandler * IncomingWebSocketRequest);
  closeListeners : list nat
}.

Definition set_backOff (v : BackOff) (s : SocketManager) : SocketManager :=
  {| backOff := v; authenticated := authenticated s;
     unauthenticated := unauthenticated s;
     unauthenticatedExpirationTimer := unauthenticatedExpirationTimer s;
     credentials := credentials s; lazyProxyAgent := lazyProxyAgent s;
     status := status s; requestHandlers := requestHandlers s;
     incomingRequestQueue := incomingRequestQueue s;
     isNavigatorOffline := isNavigatorOffline s;
     privIsOnline := privIsOnline s;
     isRemotelyExpired := isRemotelyExpired s;
     hasStoriesDisabled := hasStoriesDisabled s;
     reconnectController := reconnectController s; procs := procs s;
     sleeps := sleeps s; proxyWaiters := proxyWaiters s;
     emitted := emitted s; delivered := delivered s;
     closeListeners := closeListeners s |}.

Definition set_authenticated (v : option nat) (s : SocketManager)
    : SocketManager :=
  {| backOff := backOff s; authenticated := v;
     unauthenticated := unauthenticated s;
     unauthenticatedExpirationTimer := unauthenticatedExpirationTimer s;
     credentials := credentials s; lazyProxyAgent := lazyProxyAgent s;
     status := status s; requestHandlers := requestHandlers s;
     incomingRequestQueue := incomingRequestQueue s;
     isNavigatorOffline := isNavigatorOffline s;
     privIsOnline := privIsOnline s;
     isRemotelyExpired := isRemotelyExpired s;
     hasStoriesDisabled := hasStoriesDisabled s;
     reconnectController := reconnectController s; procs := procs s;
     sleeps := sleeps s; proxyWaiters := proxyWaiters s;
     emitted := emitted s; delivered := delivered s;
     closeListeners := closeListeners s |}.

Definition set_unauthenticated (v : option nat) (s : SocketManager)
    : SocketManager :=
  {| backOff := backOff s; authenticated := authenticated s;
     unauthenticated := v;
     unauthenticatedExpirationTimer := unauthenticatedExpirationTimer s;
     credentials := credentials s; lazyProxyAgent := lazyProxyAgent s;
     status := status s; requestHandlers := requestHandlers s;
     incomingRequestQueue := incomingRequestQueue s;
     isNavigatorOffline := isNavigatorOffline s;
     privIsOnline := privIsOnline s;
     isRemotelyExpired := isRemotelyExpired s;
     hasStoriesDisabled := hasStoriesDisabled s;
     reconnectController := reconnectController s; procs := procs s;
     sleeps := sleeps s; proxyWaiters := proxyWaiters s;
     emitted := emitted s; delivered := delivered s;
     closeListeners := closeListeners s |}.

Definition set_unauthenticatedExpirationTimer (v : option Timeout) (s : SocketManager)
    : SocketManager :=
  {| backOff := backOff s; authenticated := authenticated s;
     unauthenticated := unauthenticated s;
     unauthenticatedExpirationTimer := v; credentials := credentials s;
     lazyProxyAgent := lazyProxyAgent s; status := status s;
     requestHandlers := requestHandlers s;
     incomingRequestQueue := incomingRequestQueue s;
     isNavigatorOffline := isNavigatorOffline s;
     privIsOnline := privIsOnline s;
     isRemotelyExpired := isRemotelyExpired s;
     hasStoriesDisabled := hasStoriesDisabled s;
     reconnectController := reconnectController s; procs := procs s;
     sleeps := sleeps s; proxyWaiters := proxyWaiters s;
     emitted := emitted s; delivered := delivered s;
     closeListeners := closeListeners s |}.

Definition set_credentials (v : option WebAPICredentials) (s : SocketManager)
    : SocketManager :=
  {| backOff := backOff s; authenticated := authenticated s;
     unauthenticated := unauthenticated s;
     unauthenticatedExpirationTimer := unauthenticatedExpirationTimer s;
     credentials := v; lazyProxyAgent := lazyProxyAgent s;
     status := status s; requestHandlers := requestHandlers s;
     incomingRequestQueue := incomingRequestQueue s;
     isNavigatorOffline := isNavigatorOffline s;
     privIsOnline := privIsOnline s;
     isRemotelyExpired := isRemotelyExpired s;
     hasStoriesDisabled := hasStoriesDisabled s;
     reconnectController := reconnectController s; procs := procs s;
     sleeps := sleeps s; proxyWaiters := proxyWaiters s;
     emitted := emitted s; delivered := delivered s;
     closeListeners := closeListeners s |}.

Definition set_lazyProxyAgent (v : bool) (s : SocketManager) : SocketManager :=
  {| backOff := backOff s; authenticated := authenticated s;
     unauthenticated := unauthenticated s;
     unauthenticatedExpirationTimer := unauthenticatedExpirationTimer s;
     credentials := credentials s; lazyProxyAgent := v; status := status s;
     requestHandlers := requestHandlers s;
     incomingRequestQueue := incomingRequestQueue s;
     isNavigatorOffline := isNavigatorOffline s;
     privIsOnline := privIsOnline s;
     isRemotelyExpired := isRemotelyExpired s;
     hasStoriesDisabled := hasStoriesDisabled s;
     reconnectController := reconnectController s; procs := procs s;
     sleeps := sleeps s; proxyWaiters := proxyWaiters s;
     emitted := emitted s; delivered := delivered s;
     closeListeners := closeListeners s |}.

Definition set_status (v : SocketStatus) (s : SocketManager) : SocketManager :=
  {| backOff := backOff s; authenticated := authenticated s;
     unauthenticated := unauthenticated s;
     unauthenticatedExpirationTimer := unauthenticatedExpirationTimer s;
     credentials := credentials s; lazyProxyAgent := lazyProxyAgent s;
     status := v; requestHandlers := requestHandlers s;
     incomingRequestQueue := incomingRequestQueue s;
     isNavigatorOffline := isNavigatorOffline s;
     privIsOnline := privIsOnline s;
     isRemotelyExpired := isRemotelyExpired s;
     hasStoriesDisabled := hasStoriesDisabled s;
     reconnectController := reconnectController s; procs := procs s;
     sleeps := sleeps s; proxyWaiters := proxyWaiters s;
     emitted := emitted s; delivered := delivered s;
     closeListeners := closeListeners s |}.

Definition set_requestHandlers (v : list IRequestHandler) (s : SocketManager)
    : SocketManager :=
  {| backOff := backOff s; authenticated := authenticated s;
     unauthenticated := unauthenticated s;
     unauthenticatedExpirationTimer := unauthenticatedExpirationTimer s;
     credentials := credentials s; lazyProxyAgent := lazyProxyAgent s;
     status := status s; requestHandlers := v;
     incomingRequestQueue := incomingRequestQueue s;
     isNavigatorOffline := isNavigatorOffline s;
     privIsOnline := privIsOnline s;
     isRemotelyExpired := isRemotelyExpired s;
     hasStoriesDisabled := hasStoriesDisabled s;
     reconnectController := reconnectController s; procs := procs s;
     sleeps := sleeps s; proxyWaiters := proxyWaiters s;
     emitted := emitted s; delivered := delivered s;
     closeListeners := closeListeners s |}.

Definition set_incomingRequestQueue (v : list IncomingWebSocketRequest) (s : SocketManager)
    : SocketManager :=
  {| backOff := backOff s; authenticated := authenticated s;
     unauthenticated := unauthenticated s;
     unauthenticatedExpirationTimer := unauthenticatedExpirationTimer s;
     credentials := credentials s; lazyProxyAgent := lazyProxyAgent s;
     status := status s; requestHandlers := requestHandlers s;
     incomingRequestQueue := v; isNavigatorOffline := isNavigatorOffline s;
     privIsOnline := privIsOnline s;
     isRemotelyExpired := isRemotelyExpired s;
     hasStoriesDisabled := hasStoriesDisabled s;
     reconnectController := reconnectController s; procs := procs s;
     sleeps := sleeps s; proxyWaiters := proxyWaiters s;
     emitted := emitted s; delivered := delivered s;
     closeListeners := closeListeners s |}.

Definition set_isNavigatorOffline (v : bool) (s : SocketManager)
    : SocketManager :=
  {| backOff := backOff s; authenticated := authenticated s;
     unauthenticated := unauthenticated s;
     unauthenticatedExpirationTimer := unauthenticatedExpirationTimer s;
     credentials := credentials s; lazyProxyAgent := lazyProxyAgent s;
     status := status s; requestHandlers := requestHandlers s;
     incomingRequestQueue := incomingRequestQueue s; isNavigatorOffline := v;
     privIsOnline := privIsOnline s;
     isRemotelyExpired := isRemotelyExpired s;
     hasStoriesDisabled := hasStoriesDisabled s;
     reconnectController := reconnectController s; procs := procs s;
     sleeps := sleeps s; proxyWaiters := proxyWaiters s;
     emitted := emitted s; delivered := delivered s;
     closeListeners := closeListeners s |}.

Definition set_privIsOnline (v : option bool) (s : SocketManager)
    : SocketManager :=
  {| backOff := backOff s; authenticated := authenticated s;
     unauthenticated := unauthenticated s;
     unauthenticatedExpirationTimer := unauthenticatedExpirationTimer s;
     credentials := credentials s; lazyProxyAgent := lazyProxyAgent s;
     status := status s; requestHandlers := requestHandlers s;
     incomingRequestQueue := incomingRequestQueue s;
     isNavigatorOffline := isNavigatorOffline s; privIsOnline := v;
     isRemotelyExpired := isRemotelyExpired s;
     hasStoriesDisabled := hasStoriesDisabled s;
     reconnectController := reconnectController s; procs := procs s;
     sleeps := sleeps s; proxyWaiters := proxyWaiters s;
     emitted := emitted s; delivered := delivered s;
     closeListeners := closeListeners s |}.

Definition set_isRemotelyExpired (v : bool) (s : SocketManager)
    : SocketManager :=
  {| backOff := backOff s; authenticated := authenticated s;
     unauthenticated := unauthenticated s;
     unauthenticatedExpirationTimer := unauthenticatedExpirationTimer s;
     credentials := credentials s; lazyProxyAgent := lazyProxyAgent s;
     status := status s; requestHandlers := requestHandlers s;
     incomingRequestQueue := incomingRequestQueue s;
     isNavigatorOffline := isNavigatorOffline s;
     privIsOnline := privIsOnline s; isRemotelyExpired := v;
     hasStoriesDisabled := hasStoriesDisabled s;
     reconnectController := reconnectController s; procs := procs s;
     sleeps := sleeps s; proxyWaiters := proxyWaiters s;
     emitted := emitted s; delivered := delivered s;
     closeListeners := closeListeners s |}.

Definition set_hasStoriesDisabled (v : bool) (s : SocketManager)
    : SocketManager :=
  {| backOff := backOff s; authenticated := authenticated s;
     unauthenticated := unauthenticated s;
     unauthenticatedExpirationTimer := unauthenticatedExpirationTimer s;
     credentials := credentials s; lazyProxyAgent := lazyProxyAgent s;
     status := status s; requestHandlers := requestHandlers s;
     incomingRequestQueue := incomingRequestQueue s;
     isNavigatorOffline := isNavigatorOffline s;
     privIsOnline := privIsOnline s;
     isRemotelyExpired := isRemotelyExpired s; hasStoriesDisabled := v;
     reconnectController := reconnectController s; procs := procs s;
     sleeps := sleeps s; proxyWaiters := proxyWaiters s;
     emitted := emitted s; delivered := delivered s;
     closeListeners := closeListeners s |}.

Definition set_reconnectController (v : option nat) (s : SocketManager)
    : SocketManager :=
  {| backOff := backOff s; authenticated := authenticated s;
     unauthenticated := unauthenticated s;
     unauthenticatedExpirationTimer := unauthenticatedExpirationTimer s;
     credentials := credentials s; lazyProxyAgent := lazyProxyAgent s;
     status := status s; requestHandlers := requestHandlers s;
     incomingRequestQueue := incomingRequestQueue s;
     isNavigatorOffline := isNavigatorOffline s;
     privIsOnline := privIsOnline s;
     isRemotelyExpired := isRemotelyExpired s;
     hasStoriesDisabled := hasStoriesDisabled s; reconnectController := v;
     procs := procs s; sleeps := sleeps s; proxyWaiters := proxyWaiters s;
     emitted := emitted s; delivered := delivered s;
     closeListeners := closeListeners s |}.

Definition set_procs (v : list AbortableProcess) (s : SocketManager)
    : SocketManager :=
  {| backOff := backOff s; authenticated := authenticated s;
     unauthenticated := unauthenticated s;
     unauthenticatedExpirationTimer := unauthenticatedExpirationTimer s;
     credentials := credentials s; lazyProxyAgent := lazyProxyAgent s;
     status := status s; requestHandlers := requestHandlers s;
     incomingRequestQueue := incomingRequestQueue s;
     isNavigatorOffline := isNavigatorOffline s;
     privIsOnline := privIsOnline s;
     isRemotelyExpired := isRemotelyExpired s;
     hasStoriesDisabled := hasStoriesDisabled s;
     reconnectController := reconnectController s; procs := v;
     sleeps := sleeps s; proxyWaiters := proxyWaiters s;
     emitted := emitted s; delivered := delivered s;
     closeListeners := closeListeners s |}.

Definition set_sleeps (v : list Sleep) (s : SocketManager) : SocketManager :=
  {| backOff := backOff s; authenticated := authenticated s;
     unauthenticated := unauthenticated s;
     unauthenticatedExpirationTimer := unauthenticatedExpirationTimer s;
     credentials := credentials s; lazyProxyAgent := lazyProxyAgent s;
     status := status s; requestHandlers := requestHandlers s;
     incomingRequestQueue := incomingRequestQueue s;
     isNavigatorOffline := isNavigatorOffline s;
     privIsOnline := privIsOnline s;
     isRemotelyExpired := isRemotelyExpired s;
     hasStoriesDisabled := hasStoriesDisabled s;
     reconnectController := reconnectController s; procs := procs s;
     sleeps := v; proxyWaiters := proxyWaiters s; emitted := emitted s;
     delivered := delivered s;
     closeListeners := closeListeners s |}.

Definition set_proxyWaiters (v : list ProxyWaiter) (s : SocketManager)
    : SocketManager :=
  {| backOff := backOff s; authenticated := authenticated s;
     unauthenticated := unauthenticated s;
     unauthenticatedExpirationTimer := unauthenticatedExpirationTimer s;
     credentials := credentials s; lazyProxyAgent := lazyProxyAgent s;
     status := status s; requestHandlers := requestHandlers s;
     incomingRequestQueue := incomingRequestQueue s;
     isNavigatorOffline := isNavigatorOffline s;
     privIsOnline := privIsOnline s;
     isRemotelyExpired := isRemotelyExpired s;
     hasStoriesDisabled := hasStoriesDisabled s;
     reconnectController := reconnectController s; procs := procs s;
     sleeps := sleeps s; proxyWaiters := v; emitted := emitted s;
     delivered := delivered s;
     closeListeners := closeListeners s |}.

Definition set_emitted (v : list Event) (s : SocketManager) : SocketManager :=
  {| backOff := backOff s; authenticated := authenticated s;
     unauthenticated := unauthenticated s;
     unauthenticatedExpirationTimer := unauthenticatedExpirationTimer s;
     credentials := credentials s; lazyProxyAgent := lazyProxyAgent s;
     status := status s; requestHandlers := requestHandlers s;
     incomingRequestQueue := incomingRequestQueue s;
     isNavigatorOffline := isNavigatorOffline s;
     privIsOnline := privIsOnline s;
     isRemotelyExpired := isRemotelyExpired s;
     hasStoriesDisabled := hasStoriesDisabled s;
     reconnectController := reconnectController s; procs := procs s;
     sleeps := sleeps s; proxyWaiters := proxyWaiters s; emitted := v;
     delivered := delivered s;
     closeListeners := closeListeners s |}.

Definition set_delivered (v : list (IRequestHandler * IncomingWebSocketRequest)) (s : SocketManager)
    : SocketManager :=
  {| backOff := backOff s; authenticated := authenticated s;
     unauthenticated := unauthenticated s;
     unauthenticatedExpirationTimer := unauthenticatedExpirationTimer s;
     credentials := credentials s; lazyProxyAgent := lazyProxyAgent s;
     status := status s; requestHandlers := requestHandlers s;
     incomingRequestQueue := incomingRequestQueue s;
     isNavigatorOffline := isNavigatorOffline s;
     privIsOnline := privIsOnline s;
     isRemotelyExpired := isRemotelyExpired s;
     hasStoriesDisabled := hasStoriesDisabled s;
     reconnectController := reconnectController s; procs := procs s;
     sleeps := sleeps s; proxyWaiters := proxyWaiters s;
     emitted := emitted s; delivered := v;
     closeListeners := closeListeners s |}.

Definition set_closeListeners (v : list nat) (s : SocketManager)
    : SocketManager :=
  {| backOff := backOff s; authenticated := authenticated s;
     unauthenticated := unauthenticated s;
     unauthenticatedExpirationTimer := unauthenticatedExpirationTimer s;
     credentials := credentials s; lazyProxyAgent := lazyProxyAgent s;
     status := status s; requestHandlers := requestHandlers s;
     incomingRequestQueue := incomingRequestQueue s;
     isNavigatorOffline := isNavigatorOffline s;
     privIsOnline := privIsOnline s;
     isRemotelyExpired := isRemotelyExpired s;
     hasStoriesDisabled := hasStoriesDisabled s;
     reconnectController := reconnectController s; procs := procs s;
     sleeps := sleeps s; proxyWaiters := proxyWaiters s;
     emitted := emitted s; delivered := delivered s;
     closeListeners := v |}.

(** The [body] of a [RequestInit], by the tests [fetch] applies to it;
    [BodyOther] carries what [typeof] yields for any other value ([null],
    a stream, URLSearchParams, ...). *)
Inductive Body :=
  | BodyUint8Array (bytes : list byte)
  | BodyArrayBuffer (bytes : list byte)
  | BodyString (text : string)
  | BodyOther (type : string).

Record RequestInit := {
  init_method : option string;
  init_headers : list (string * string);
  init_body : option Body;
  init_timeout : option Z
}.

Record SendRequestOptions := {
  verb : string;
  path : string;
  body : option (list byte);
  headers : list (string * string);
  timeout : option Z
}.

Definition Response := nat.
(** ** Operations *)

Definition emit (e : Event) (s : SocketManager) : SocketManager :=
  set_emitted (emitted s ++ [e]) s.

(** JavaScript truthiness of [privIsOnline : boolean | undefined]. *)
Definition truthy (o : option bool) : bool :=
  match o with Some true => true | _ => false end.

Definition setStatus (st : SocketStatus) (s : SocketManager) : SocketManager :=
  if bool_decide (status s = st) then s
  else
    let s1 := emit statusChange (set_status st s) in
    if bool_decide (status s1 = OPEN) && negb (truthy (privIsOnline s1))
    then emit online (set_privIsOnline (Some true) s1)
    else s1.

(** Modelled from the spec: AbortableProcess.abort (util/AbortableProcess is
    not among the sources): it cancels the in-flight attempt or, if already
    connected, instructs the resource to shut down; it is idempotent. *)
Definition abortProcess (pr : AbortableProcess) : AbortableProcess :=
  match pstate pr with
  | Connecting => set_pstate Aborting pr
  | Connected => set_pstate ShuttingDown pr
  | _ => pr
  end.

Definition abort (p : nat) (s : SocketManager) : SocketManager :=
  set_procs (alter abortProcess p (procs s)) s.

(** Modelled from the spec: AbortableProcess.getResult: pending ([None]),
    a live resource (named after its process) or the connection error. *)
Definition abortedError : Error := OtherError "Process was aborted".

Definition getResult (p : nat) (s : SocketManager) : option (Error + nat) :=
  match procs s !! p with
  | None => None
  | Some pr =>
      match pstate pr with
      | Connecting => None
      | Aborting => Some (inl abortedError)
      | Rejected e => Some (inl e)
      | Connected | ShuttingDown | Closed => Some (inr p)
      end
  end.

(** Modelled from the spec: BackOff.getAndIncrement and BackOff.reset. *)
Definition BackOff_get (b : BackOff) : Z :=
  nth (count b) (timeouts b) (List.last (timeouts b) 0%Z).

Definition BackOff_getAndIncrement (b : BackOff) : Z * BackOff :=
  (BackOff_get b,
   if (S (count b) <? length (timeouts b))%nat
   then {| timeouts := timeouts b; count := S (count b) |}
   else b).

Definition BackOff_reset (newTimeouts : option (list Z)) (b : BackOff) : BackOff :=
  {| timeouts := default (timeouts b) newTimeouts; count := 0 |}.

Definition dropAuthenticated (process : nat) (s : SocketManager) : SocketManager :=
  if bool_decide (authenticated s = Some process) then
    setStatus CLOSED (set_authenticated None (set_incomingRequestQueue [] s))
  else s.

Definition dropUnauthenticated (process : nat) (s : SocketManager) : SocketManager :=
  if bool_decide (unauthenticated s = Some process) then
    let s1 := set_unauthenticated None s in
    match unauthenticatedExpirationTimer s1 with
    | None => s1
    | Some _ => set_unauthenticatedExpirationTimer None s1
    end
  else s.

(** [this.reconnectController?.abort()]: the guarded sleep, if still
    running, is rejected. *)
Definition abortSleep (sl : Sleep) : Sleep :=
  match sl with Sleeping _ => SleepAborted | _ => sl end.

Definition abortReconnectController (s : SocketManager) : SocketManager :=
  match reconnectController s with
  | Some c => set_sleeps (alter abortSleep c (sleeps s)) s
  | None => s
  end.

(** [handlers.handleRequest(req)] is a callback of the consumer, run inside
    [try]/[catch]: what it throws is logged and dropped.  The model records
    the hand-over in [delivered] and takes the callback not to call back
    into the manager. *)
Definition queueOrHandleRequest (req : IncomingWebSocketRequest)
    (s : SocketManager) : SocketManager :=
  match requestHandlers s with
  | [] => set_incomingRequestQueue (incomingRequestQueue s ++ [req]) s
  | handlers =>
      set_delivered (delivered s ++ map (fun h => (h, req)) handlers) s
  end.

(** [Set.prototype.add] and [Set.prototype.delete] on a set that iterates in
    insertion order. *)
Definition Set_add (h : IRequestHandler) (hs : list IRequestHandler) :=
  if bool_decide (h ∈ hs) then hs else hs ++ [h].

Definition Set_delete (h : IRequestHandler) (hs : list IRequestHandler) :=
  filter (fun h' => h' ≠ h) hs.

Definition registerRequestHandler (handler : IRequestHandler)
    (s : SocketManager) : SocketManager :=
  let s1 := set_requestHandlers (Set_add handler (requestHandlers s)) s in
  let queue := incomingRequestQueue s1 in
  match queue with
  | [] => s1
  | _ => foldl (fun acc req => queueOrHandleRequest req acc)
               (set_incomingRequestQueue [] s1) queue
  end.

Definition unregisterRequestHandler (handler : IRequestHandler)
    (s : SocketManager) : SocketManager :=
  set_requestHandlers (Set_delete handler (requestHandlers s)) s.

(** ** Concrete instances used to run the model *)

Definition example_options : SocketManagerOptions :=
  {| url := "https://chat.signal.org";
     artCreatorUrl := "https://create.signal.art";
     certificateAuthority := "";
     version := "7.0.0";
     proxyUrl := None;
     options_hasStoriesDisabled := false |}.

Definition example_hostname (_ : string) : option string :=
  Some "chat.signal.org".

(** A stable build with every remote flag off. *)
Definition example_false (_ : string) : bool := false.

Definition example_timeouts : list Z := [1000; 2000; 3000; 5000]%Z.

Definition alice : WebAPICredentials :=
  {| username := "alice"; password := "pw" |}.

Definition alice' : WebAPICredentials :=
  {| username := "alice"; password := "pw2" |}.

Definition example_new : SocketManager :=
  {| backOff := {| timeouts := example_timeouts; count := 0 |};
     authenticated := None;
     unauthenticated := None;
     unauthenticatedExpirationTimer := None;
     credentials := None;
     lazyProxyAgent := false;
     status := CLOSED;
     requestHandlers := [];
     incomingRequestQueue := [];
     isNavigatorOffline := false;
     privIsOnline := None;
     isRemotelyExpired := false;
     hasStoriesDisabled := false;
     reconnectController := None;
     procs := [];
     sleeps := [];
     proxyWaiters := [];
     emitted := [];
     delivered := [];
     closeListeners := [] |}.

Definition example_process (name : Channel) (transport : option TransportOption)
    (st : ProcState) : AbortableProcess :=
  {| pname := name; ptransport := transport; pshadowing := false;
     pstate := st |}.

(** [authenticate(alice)] has created its process and awaits the result. *)
Definition example_connecting : SocketManager :=
  set_emitted [statusChange]
    (set_procs [example_process AuthenticatedChannel None Connecting]
       (set_authenticated (Some 0)
          (set_status CONNECTING
             (set_credentials (Some alice) example_new)))).

(** The authenticated socket is connected and [authenticate] has resumed. *)
Definition example_connected : SocketManager :=
  set_closeListeners [0]
    (set_emitted [statusChange; statusChange; online]
       (set_privIsOnline (Some true)
          (set_procs [example_process AuthenticatedChannel None Connected]
             (set_status OPEN example_connecting)))).

(** The unauthenticated socket is connected. *)
Definition example_unauthenticated : SocketManager :=
  set_procs
    [example_process UnauthenticatedChannel (Some Original) Connected]
    (set_unauthenticated (Some 0) example_new).


(** [String.prototype.endsWith]. *)
Definition endsWith (s suffix : string) : bool :=
  (String.length suffix <=? String.length s)%nat &&
  String.eqb
    (String.substring (String.length s - String.length suffix)
       (String.length suffix) s)
    suffix.

(** The resolved proxy agent is an opaque object. *)
Inductive ProxyAgent := proxyAgentObject.

(** [!username && !password]. *)
Definition emptyCredentials (c : WebAPICredentials) : bool :=
  String.eqb (username c) "" && String.eqb (password c) "".

Inductive AuthenticateOutcome :=
  | AuthenticateThrows (error : Error)
  | AuthenticateReturns
  | AuthenticateAwaitsExisting (process : nat)
  | AuthenticateConnects.

Inductive UnauthenticatedOutcome :=
  | UnauthenticatedThrows (error : Error)
  | UnauthenticatedReturnsResultOf (process : nat)
  | UnauthenticatedConnects.

Inductive Completion := Returned | Thrown (error : Error).

(** ** Which channel a request belongs to: [isAuthenticated] *)

From Stdlib Require Import Ascii.
From Stdlib Require QArith.

(** [String.prototype.split(':')]: the pieces between the separators, at
    least one. *)
Fixpoint splitOn (sep : Ascii.ascii) (s : string) : list string :=
  match s with
  | EmptyString => [EmptyString]
  | String c rest =>
      if Ascii.eqb c sep then EmptyString :: splitOn sep rest
      else
        match splitOn sep rest with
        | piece :: pieces => String c piece :: pieces
        | [] => [String c EmptyString]
        end
  end.

(** A string that holds the character. *)
Fixpoint hasChar (c : Ascii.ascii) (s : string) : bool :=
  match s with
  | EmptyString => false
  | String c' rest => Ascii.eqb c' c || hasChar c rest
  end.

Section IsAuthenticated.

(** From outside the sources: [authorization.split(/\s+/, 2)] as its first
    piece and, if there is one, its second; [String.prototype.toLowerCase];
    and [Bytes.toString(Bytes.fromBase64(base64))]. *)
Variable splitWhitespace : string -> string * option string.
Variable toLowerCase : string -> string.
Variable decodeBase64 : string -> string.

(** [authorization] is [headers.get('Authorization')]. *)
Definition isAuthenticated (authorization : option string)
    (s : SocketManager) : bool :=
  match credentials s with
  | None => false
  | Some stored =>
      match authorization with
      | None | Some EmptyString => false
      | Some header =>
          let '(basic, base64) := splitWhitespace header in
          match base64 with
          | None | Some EmptyString => false
          | Some encoded =>
              if negb (String.eqb (toLowerCase basic) "basic") then false
              else
                match take 2 (splitOn ":"%char (decodeBase64 encoded)) with
                | [user; pass] =>
                    String.eqb user (username stored)
                    && String.eqb pass (password stored)
                | _ => false
                end
          end
      end
  end.

End IsAuthenticated.

(** ** Group send endorsements: the choice of a strategy in [#buildToken] *)

Definition ServiceIdString := string.

(** Endorsements are opaque values of the zero-knowledge library; the
    model keeps how a value was obtained: the stored combined endorsement,
    the stored endorsement of one member, [GroupSendEndorsement.combine]
    of a list, or [byRemoving]. *)
#[warnings="-register-all"]
Inductive GroupSendEndorsement :=
  | CombinedEndorsement
  | MemberEndorsement (serviceId : ServiceIdString)
  | Combine (endorsements : list GroupSendEndorsement)
  | ByRemoving (whole removed : GroupSendEndorsement).

(** The members with a stored endorsement, in insertion order, our own ACI
    and the expiration of the combined endorsement, in seconds. *)
Record GroupSendEndorsementState := {
  memberEndorsementsAcis : list ServiceIdString;
  ourAci : ServiceIdString;
  expiration : Z
}.

(** [Set.prototype.difference] and [Set.prototype.delete] on sets that
    iterate in insertion order. *)
Definition difference (a b : list ServiceIdString) : list ServiceIdString :=
  filter (fun x => x ∉ b) a.

Definition Set_remove (x : ServiceIdString) (a : list ServiceIdString)
    : list ServiceIdString :=
  filter (fun y => y <> x) a.

Definition getMemberEndorsement (st : GroupSendEndorsementState)
    (serviceId : ServiceIdString) : Error + GroupSendEndorsement :=
  if bool_decide (serviceId ∈ memberEndorsementsAcis st)
  then inr (MemberEndorsement serviceId)
  else inl (OtherError "getMemberEndorsement: Missing endorsement").

Definition getCombinedEndorsement (st : GroupSendEndorsementState)
    (includesOurs : bool) : Error + GroupSendEndorsement :=
  if negb includesOurs then inr CombinedEndorsement
  else
    match getMemberEndorsement st (ourAci st) with
    | inl error => inl error
    | inr ours => inr (Combine [CombinedEndorsement; ours])
    end.

(** [Array.from(serviceIds, getMemberEndorsement)]: the first missing
    endorsement throws. *)
Fixpoint memberEndorsementsOf (st : GroupSendEndorsementState)
    (serviceIds : list ServiceIdString)
    : Error + list GroupSendEndorsement :=
  match serviceIds with
  | [] => inr []
  | serviceId :: rest =>
      match getMemberEndorsement st serviceId with
      | inl error => inl error
      | inr e =>
          match memberEndorsementsOf st rest with
          | inl error => inl error
          | inr es => inr (e :: es)
          end
      end
  end.

Definition combineMemberEndorsements (st : GroupSendEndorsementState)
    (serviceIds : list ServiceIdString) : Error + GroupSendEndorsement :=
  match memberEndorsementsOf st serviceIds with
  | inl error => inl error
  | inr es => inr (Combine es)
  end.

Definition subtractMemberEndorsements (st : GroupSendEndorsementState)
    (otherMembersServiceIds : list ServiceIdString) (includesOurs : bool)
    : Error + GroupSendEndorsement :=
  if bool_decide (ourAci st ∈ otherMembersServiceIds) then
    inl (OtherError
           "subtractMemberEndorsements: Cannot subtract our own aci")
  else
    match getCombinedEndorsement st includesOurs with
    | inl error => inl error
    | inr whole =>
        match combineMemberEndorsements st otherMembersServiceIds with
        | inl error => inl error
        | inr removed => inr (ByRemoving whole removed)
        end
    end.

(** [#buildToken]; [serviceIds] is a [Set]. *)
Definition buildToken_strategy (st : GroupSendEndorsementState)
    (serviceIds : list ServiceIdString) : Error + GroupSendEndorsement :=
  let memberCount := length (memberEndorsementsAcis st) in
  match serviceIds with
  | [serviceId] => getMemberEndorsement st serviceId
  | _ =>
      match difference serviceIds (memberEndorsementsAcis st) with
      | _ :: _ =>
          inl (OtherError
                 "Attempted to build token with memberAcis we don't have")
      | [] =>
          let without := difference (memberEndorsementsAcis st) serviceIds in
          let includesOurs := negb (bool_decide (ourAci st ∈ without)) in
          let otherMembers := Set_remove (ourAci st) without in
          match otherMembers with
          | [] => getCombinedEndorsement st includesOurs
          | _ =>
              if 2 * length otherMembers <? memberCount
              then subtractMemberEndorsements st otherMembers includesOurs
              else combineMemberEndorsements st serviceIds
          end
      end
  end.

(** Whom an endorsement vouches for.  From outside the sources, the
    zero-knowledge library: the combined endorsement the server issues
    vouches for every member but ourselves, which is why
    [#getCombinedEndorsement] adds our own when [includesOurs]; combining
    adds up, [byRemoving] takes away. *)
Fixpoint endorses (st : GroupSendEndorsementState) (e : GroupSendEndorsement)
    (x : ServiceIdString) : Prop :=
  match e with
  | CombinedEndorsement => x ∈ memberEndorsementsAcis st /\ x <> ourAci st
  | MemberEndorsement serviceId => x = serviceId
  | Combine es =>
      (fix any (l : list GroupSendEndorsement) : Prop :=
         match l with
         | [] => False
         | e' :: l' => endorses st e' x \/ any l'
         end) es
  | ByRemoving whole removed =>
      endorses st whole x /\ ~ endorses st removed x
  end.

(** ** Group send endorsements: the expiration check *)

Record EndorsementsExpirationValidationResult := {
  valid : bool;
  reason : option string
}.

Record GroupSendToken := {
  token_endorsement : GroupSendEndorsement;
  token_expiration : Z
}.

(** What the sources hand to [strictAssert]: a boolean, a string, or the
    object [isValidGroupSendEndorsementsExpiration] returns.  An object is
    never falsy. *)
Inductive Asserted :=
  | AssertedBoolean (b : bool)
  | AssertedString (text : option string)
  | AssertedValidation (result : EndorsementsExpirationValidationResult).

Definition strictAssert (input : Asserted) (message : string)
    : option Error :=
  match input with
  | AssertedBoolean false
  | AssertedString None
  | AssertedString (Some EmptyString) => Some (OtherError message)
  | _ => None
  end.

(** [getExpiration().getTime()], in milliseconds. *)
Definition getExpiration (st : GroupSendEndorsementState) : Z :=
  (expiration st * 1000)%Z.

(** The stored member endorsements of [GroupSendEndorsementsData] and the
    constructor of the state: the ACIs are added to a [Set] one by one. *)
Record GroupSendEndorsementsData := {
  data_expiration : Z;
  data_memberAcis : list ServiceIdString
}.

Definition Set_insert (x : ServiceIdString) (a : list ServiceIdString)
    : list ServiceIdString :=
  if bool_decide (x ∈ a) then a else a ++ [x].

Definition GroupSendEndorsementState_new (data : GroupSendEndorsementsData)
    (ours : ServiceIdString) : GroupSendEndorsementState :=
  {| memberEndorsementsAcis :=
       foldl (fun acis aci => Set_insert aci acis) [] (data_memberAcis data);
     ourAci := ours;
     expiration := data_expiration data |}.

(** The conversation as [maybeCreateGroupSendEndorsementState] reads it. *)
Record Conversation := {
  conversation_isGroupV2 : bool;
  conversation_isMember : bool;
  conversation_secretParams : option string
}.

(** What the function does besides returning:
    [waitThenMaybeUpdateGroup] and [onFailedToSendWithEndorsements]. *)
Inductive EndorsementEffect :=
  | RefreshGroup
  | FailedToSendWithEndorsements.

Record MaybeCreateGroupSendEndorsementStateResult := {
  result_state : option GroupSendEndorsementState;
  didRefreshGroupState : bool
}.

(** JavaScript numbers are taken as exact rationals.  [Math.trunc] drops
    the fraction, towards zero. *)
Definition Math_trunc (x : QArith_base.Q) : Z :=
  Z.quot (QArith_base.Qnum x) (Z.pos (QArith_base.Qden x)).

Section Expiration.

(** From outside the sources: [DurationInSeconds.fromMillis], a number of
    seconds that need not be whole, and the durations
    [DurationInSeconds.fromDays(2)] and [DurationInSeconds.fromHours(2)]. *)
Variable DurationInSeconds_fromMillis : Z -> QArith_base.Q.
Variable TWO_DAYS TWO_HOURS : QArith_base.Q.

(** [now] is [Date.now()]. *)
Definition isValidGroupSendEndorsementsExpiration (now expiration : Z)
    : EndorsementsExpirationValidationResult :=
  let expSeconds := DurationInSeconds_fromMillis expiration in
  let nowSeconds := DurationInSeconds_fromMillis now in
  if QArith_base.Qle_bool expSeconds nowSeconds then
    {| valid := false; reason := Some "already expired" |}
  else
    let distance :=
      QArith_base.inject_Z
        (Math_trunc (QArith_base.Qminus expSeconds nowSeconds)) in
    if QArith_base.Qle_bool distance TWO_HOURS then
      {| valid := false; reason := Some "expires soon" |}
    else if QArith_base.Qle_bool TWO_DAYS distance then
      {| valid := false; reason := Some "expires too far in future" |}
    else {| valid := true; reason := None |}.

(** [#toToken]: the assertion is handed the validation result itself. *)
Definition toToken (st : GroupSendEndorsementState) (now : Z)
    (endorsement : GroupSendEndorsement) : Error + GroupSendToken :=
  let expiration := getExpiration st in
  match strictAssert
          (AssertedValidation
             (isValidGroupSendEndorsementsExpiration now expiration))
          "toToken: Cannot build token with invalid expiration" with
  | Some error => inl error
  | None =>
      inr {| token_endorsement := endorsement;
             token_expiration := expiration |}
  end.

(** [buildToken]: whatever is thrown is reported and [null] returned. *)
Definition buildToken (st : GroupSendEndorsementState) (now : Z)
    (serviceIds : list ServiceIdString)
    : option GroupSendToken * list EndorsementEffect :=
  match buildToken_strategy st serviceIds with
  | inl _ => (None, [FailedToSendWithEndorsements])
  | inr endorsement =>
      match toToken st now endorsement with
      | inl _ => (None, [FailedToSendWithEndorsements])
      | inr token => (Some token, [])
      end
  end.

(** [conversation] is [window.ConversationController.get(groupId)], [data]
    what [DataReader.getGroupSendEndorsementsData] resolves to and [ours]
    our ACI from the storage. *)
Definition maybeCreateGroupSendEndorsementState (now : Z)
    (ours : ServiceIdString) (conversation : option Conversation)
    (data : option GroupSendEndorsementsData)
    (alreadyRefreshedGroupState : bool)
    : Error
      + (MaybeCreateGroupSendEndorsementStateResult
         * list EndorsementEffect) :=
  match conversation with
  | None =>
      inl (OtherError
             "maybeCreateGroupSendEndorsementState: Convertion not found")
  | Some conversation =>
      match strictAssert
              (AssertedBoolean (conversation_isGroupV2 conversation))
              "Conversation is not groupV2" with
      | Some error => inl error
      | None =>
          match data with
          | None =>
              if conversation_isMember conversation then
                if negb alreadyRefreshedGroupState then
                  inr ({| result_state := None;
                          didRefreshGroupState := true |},
                       [RefreshGroup])
                else
                  inr ({| result_state := None;
                          didRefreshGroupState := false |},
                       [FailedToSendWithEndorsements])
              else
                inr ({| result_state := None;
                        didRefreshGroupState := false |}, [])
          | Some data =>
              match strictAssert
                      (AssertedString
                         (conversation_secretParams conversation))
                      "Must have secret params" with
              | Some error => inl error
              | None =>
                  let groupSendEndorsementState :=
                    GroupSendEndorsementState_new data ours in
                  let result :=
                    isValidGroupSendEndorsementsExpiration now
                      (getExpiration groupSendEndorsementState) in
                  if negb (valid result) then
                    if alreadyRefreshedGroupState then
                      inr ({| result_state := None;
                              didRefreshGroupState := false |},
                           [FailedToSendWithEndorsements])
                    else
                      inr ({| result_state := None;
                              didRefreshGroupState := true |},
                           [RefreshGroup])
                  else
                    inr ({| result_state :=
                              Some groupSendEndorsementState;
                            didRefreshGroupState := false |}, [])
              end
          end
      end
  end.

End Expiration.

(** ** Further concrete instances *)

(** The options of [example_options] with a proxy configured. *)
Definition example_proxy_options : SocketManagerOptions :=
  {| url := "https://chat.signal.org";
     artCreatorUrl := "https://create.signal.art";
     certificateAuthority := "";
     version := "7.0.0";
     proxyUrl := Some "socks://localhost:9050";
     options_hasStoriesDisabled := false |}.

(** The seconds of a time in milliseconds, not rounded. *)
Definition example_fromMillis (ms : Z) : QArith_base.Q :=
  QArith_base.Qmake ms 1000.

(** A group of five, ourselves among them, whose endorsements expire at
    second 100000. *)
Definition example_data : GroupSendEndorsementsData :=
  {| data_expiration := 100000;
     data_memberAcis := ["a"; "b"; "c"; "d"; "me"] |}.

Definition example_endorsements : GroupSendEndorsementState :=
  GroupSendEndorsementState_new example_data "me".

Definition example_conversation : Conversation :=
  {| conversation_isGroupV2 := true;
     conversation_isMember := true;
     conversation_secretParams := Some "c2VjcmV0" |}.

Section Manager.

(** What the class takes from outside the sources: its constructor
    options, Node's [URL.parse(url).hostname], the release-channel tests of
    util/version, the remote configuration (read as a snapshot) and the two
    delay sequences of util/BackOff. *)
Variable options : SocketManagerOptions.
Variable URL_hostname : string -> option string.
Variables isStaging isAlpha isBeta : string -> bool.
Variable RemoteConfig_isEnabled : string -> bool.
Variables FIBONACCI_TIMEOUTS EXTENDED_FIBONACCI_TIMEOUTS : list Z.

Definition SocketManager_new : SocketManager :=
  {| backOff := {| timeouts := FIBONACCI_TIMEOUTS; count := 0 |};
     authenticated := None;
     unauthenticated := None;
     unauthenticatedExpirationTimer := None;
     credentials := None;
     lazyProxyAgent := false;
     status := CLOSED;
     requestHandlers := [];
     incomingRequestQueue := [];
     isNavigatorOffline := false;
     privIsOnline := None;
     isRemotelyExpired := false;
     hasStoriesDisabled := options_hasStoriesDisabled options;
     reconnectController := None;
     procs := [];
     sleeps := [];
     proxyWaiters := [];
     emitted := [];
     delivered := [];
     closeListeners := [] |}.

Definition transportOption (proxyAgent : option ProxyAgent) : TransportOption :=
  let hostname := URL_hostname (url options) in
  if match proxyAgent, hostname with
     | Some _, _ => true
     | None, None => true
     | None, Some h => negb (endsWith h "signal.org")
     end
  then Original
  else if isStaging (version options) then Libsignal
  else if isAlpha (version options) then
    if RemoteConfig_isEnabled "desktop.experimentalTransportEnabled.alpha"
    then Libsignal else ShadowingHigh
  else if isBeta (version options) then
    if RemoteConfig_isEnabled "desktop.experimentalTransportEnabled.beta"
    then ShadowingHigh else ShadowingLow
  else
    if RemoteConfig_isEnabled "desktop.experimentalTransportEnabled.prod"
    then ShadowingLow else Original.

(** [getProxyAgent] up to its return: the cached promise is created on
    first use when a proxy URL is configured. *)
Definition hasProxyUrl : bool :=
  match proxyUrl options with
  | Some u => negb (String.eqb u "")
  | None => false
  end.

Definition getProxyAgent (s : SocketManager) : SocketManager :=
  if hasProxyUrl && negb (lazyProxyAgent s) then set_lazyProxyAgent true s
  else s.

(** The value the awaited promise yields. *)
Definition resolvedProxyAgent (s : SocketManager) : option ProxyAgent :=
  if lazyProxyAgent s then Some proxyAgentObject else None.

(** [connectResource] calls [connectWebSocket], which opens one
    transport-level connection: a new entry of the process table. *)
Definition connectResource (name : Channel)
    (transport : option TransportOption) (s : SocketManager)
    : nat * SocketManager :=
  let shadowingModeEnabled :=
    match transport with
    | None => true
    | Some t => bool_decide (t = Original)
    end in
  let process :=
    {| pname := name; ptransport := transport;
       pshadowing := negb shadowingModeEnabled; pstate := Connecting |} in
  (length (procs s), set_procs (procs s ++ [process]) s).

Definition connectLibsignalUnauthenticated (s : SocketManager)
    : nat * SocketManager :=
  let process :=
    {| pname := UnauthenticatedChannel; ptransport := Some Libsignal;
       pshadowing := false; pstate := Connecting |} in
  (length (procs s), set_procs (procs s ++ [process]) s).

(** The closure [reconnect] inside [authenticate], up to its
    [await sleep(...)]. *)
Definition authenticate_reconnect (s : SocketManager) : SocketManager :=
  if isRemotelyExpired s then s
  else
    let '(timeout, b) := BackOff_getAndIncrement (backOff s) in
    let s1 := set_backOff b s in
    let controller := length (sleeps s1) in
    set_sleeps (sleeps s1 ++ [Sleeping timeout])
      (set_reconnectController (Some controller) s1).

Definition sameCredentials (stored : option WebAPICredentials)
    (c : WebAPICredentials) : bool :=
  match stored with
  | Some c' =>
      String.eqb (username c') (username c)
      && String.eqb (password c') (password c)
  | None => false
  end.

(** [authenticate] up to its first [await].  [fromReconnect] records which
    caller awaits the call: the reconnect helper retries when the call
    rejects, every other caller lets the rejection through. *)
Definition authenticate (c : WebAPICredentials) (fromReconnect : bool)
    (s : SocketManager) : AuthenticateOutcome * SocketManager :=
  if isRemotelyExpired s then (AuthenticateThrows (HTTPError 0), s)
  else if emptyCredentials c then (AuthenticateReturns, s)
  else
    match (if sameCredentials (credentials s) c then authenticated s
           else None) with
    | Some existing => (AuthenticateAwaitsExisting existing, s)
    | None =>
        let s1 := set_credentials (Some c) s in
        let s2 := setStatus CONNECTING s1 in
        let s3 := getProxyAgent s2 in
        (AuthenticateConnects,
         set_proxyWaiters
           (proxyWaiters s3 ++ [AwaitAuthenticate c fromReconnect]) s3)
    end.

(** The [try { await this.authenticated.getResult() } catch { log.warn }]
    of the unchanged-credentials path, given the awaited outcome: how the
    call completes and the warning it logs. *)
Definition authenticate_awaitExisting (result : Error + nat)
    : Completion * option string :=
  match result with
  | inl _ =>
      (Returned,
       Some "SocketManager: failed to wait for existing authenticated socket")
  | inr _ => (Returned, None)
  end.

(** [authenticate] from the resolved proxy agent to
    [await process.getResult()]. *)
Definition authenticate_connect (s : SocketManager) : SocketManager :=
  let '(process, s1) := connectResource AuthenticatedChannel None s in
  let s2 :=
    match authenticated s1 with
    | Some previous => abort previous s1
    | None => s1
    end in
  set_authenticated (Some process) s2.

(** [authenticate] after [process.getResult()] resolved: the status is
    opened, whether or not [process] is still the stored one, the back-off
    is reset and the ['close'] listener is attached to the resource. *)
Definition authenticate_connected (process : nat) (s : SocketManager)
    : SocketManager :=
  let s1 := setStatus OPEN s in
  let s2 := set_backOff (BackOff_reset None (backOff s1)) s1 in
  set_closeListeners (closeListeners s2 ++ [process]) s2.

(** [authenticate] after [process.getResult()] rejected: the [catch]. *)
Definition authenticate_failed (process : nat) (error : Error)
    (s : SocketManager) : SocketManager :=
  if negb (bool_decide (authenticated s = Some process)) then s
  else
    let s1 := dropAuthenticated process s in
    match error with
    | HTTPError code =>
        if (code =? 401)%Z || (code =? 403)%Z then emit (authError error) s1
        else if negb ((500 <=? code)%Z && (code <=? 599)%Z)
                && negb (code =? -1)%Z then s1
        else
          let s2 :=
            if (code =? -1)%Z
               && negb (bool_decide (privIsOnline s1 = Some false))
            then emit offline (set_privIsOnline (Some false) s1)
            else s1 in
          authenticate_reconnect s2
    | OtherError _ => authenticate_reconnect s1
    end.

(** The ['close'] listener of the authenticated resource. *)
Definition authenticated_onClose (process : nat) (code : Z)
    (s : SocketManager) : SocketManager :=
  if negb (bool_decide (authenticated s = Some process)) then s
  else
    let s1 := dropAuthenticated process s in
    if (code =? 3000)%Z then s1
    else if (code =? 4409)%Z then s1
    else authenticate_reconnect s1.

(** The reconnect helper after its sleep settled: [aborted] tells whether
    the sleep was cancelled. *)
Definition authenticate_reconnect_wake (controller : nat) (aborted : bool)
    (s : SocketManager) : SocketManager :=
  let s1 :=
    if bool_decide (reconnectController s = Some controller)
    then set_reconnectController None s else s in
  if aborted then s1
  else
    match authenticated s1, credentials s1 with
    | Some _, _ => s1
    | None, None => s1
    | None, Some c =>
        match authenticate c true s1 with
        | (AuthenticateThrows _, s2) => authenticate_reconnect s2
        | (_, s2) => s2
        end
    end.

Definition getAuthenticatedResource (s : SocketManager) : SocketManager :=
  match authenticated s, credentials s with
  | Some _, _ => s
  | None, None => s
  | None, Some c => snd (authenticate c false s)
  end.

(** [getUnauthenticatedResource] up to its first [await]. *)
Definition getUnauthenticatedResource (s : SocketManager)
    : UnauthenticatedOutcome * SocketManager :=
  match unauthenticated s with
  | Some existing => (UnauthenticatedReturnsResultOf existing, s)
  | None =>
      if isRemotelyExpired s then (UnauthenticatedThrows (HTTPError 0), s)
      else
        let s1 := getProxyAgent s in
        (UnauthenticatedConnects,
         set_proxyWaiters (proxyWaiters s1 ++ [AwaitUnauthenticated]) s1)
  end.

(** [getUnauthenticatedResource] from the resolved proxy agent to
    [await this.unauthenticated.getResult()]. *)
Definition getUnauthenticatedResource_connect (s : SocketManager)
    : SocketManager :=
  let option := transportOption (resolvedProxyAgent s) in
  if bool_decide (option = Libsignal) then
    let '(process, s1) := connectLibsignalUnauthenticated s in
    set_unauthenticated (Some process) s1
  else
    let '(process, s1) :=
      connectResource UnauthenticatedChannel (Some option) s in
    set_unauthenticated (Some process) s1.

(** The ['close'] listener of the unauthenticated resource. *)
Definition unauthenticated_onClose (process : nat) (s : SocketManager)
    : SocketManager :=
  if negb (bool_decide (unauthenticated s = Some process)) then s
  else dropUnauthenticated process s.

(** [resource.shutdown()]. *)
Definition shutdownProcess (pr : AbortableProcess) : AbortableProcess :=
  match pstate pr with
  | Connected => set_pstate ShuttingDown pr
  | _ => pr
  end.

Definition shutdown (p : nat) (s : SocketManager) : SocketManager :=
  set_procs (alter shutdownProcess p (procs s)) s.

(** [startUnauthenticatedExpirationTimer] after its [await], for the
    process it read from [this.unauthenticated]. *)
Definition startUnauthenticatedExpirationTimer (process : nat)
    (s : SocketManager) : SocketManager :=
  match unauthenticatedExpirationTimer s with
  | Some _ => s
  | None =>
      set_unauthenticatedExpirationTimer
        (Some {| timerProcess := process; timerFired := false |}) s
  end.

(** The callback of the rotation timer, up to its [await]. *)
Definition unauthenticatedExpirationTimer_fired (process : nat)
    (s : SocketManager) : SocketManager :=
  let s1 := shutdown process s in
  if negb (bool_decide (unauthenticated s1 = Some process)) then s1
  else snd (getUnauthenticatedResource (dropUnauthenticated process s1)).

Definition reconnect (s : SocketManager) : SocketManager :=
  let a := authenticated s in
  let u := unauthenticated s in
  let s1 :=
    match a with
    | Some p => dropAuthenticated p (abort p s)
    | None => s
    end in
  let s2 :=
    match u with
    | Some p => dropUnauthenticated p (abort p s1)
    | None => s1
    end in
  match credentials s2 with
  | Some c =>
      let s3 := set_backOff (BackOff_reset None (backOff s2)) s2 in
      snd (authenticate c false (abortReconnectController s3))
  | None => s2
  end.

Definition onHasStoriesDisabledChange (newValue : bool) (s : SocketManager)
    : SocketManager :=
  if Bool.eqb (hasStoriesDisabled s) newValue then s
  else reconnect (set_hasStoriesDisabled newValue s).

Definition onNavigatorOnline (s : SocketManager) : SocketManager :=
  let s1 := set_isNavigatorOffline false s in
  let s2 :=
    set_backOff (BackOff_reset (Some FIBONACCI_TIMEOUTS) (backOff s1)) s1 in
  match credentials s2 with
  | Some c => snd (authenticate c false (abortReconnectController s2))
  | None => s2
  end.

(** The [check()] that follows only forces keep-alive probes on the
    resources; it changes no field. *)
Definition onNavigatorOffline (s : SocketManager) : SocketManager :=
  let s1 := set_isNavigatorOffline true s in
  set_backOff
    (BackOff_reset (Some EXTENDED_FIBONACCI_TIMEOUTS) (backOff s1)) s1.

Definition onRemoteExpiration (s : SocketManager) : SocketManager :=
  abortReconnectController (set_isRemotelyExpired true s).

Definition logout (s : SocketManager) : SocketManager :=
  let s1 :=
    match authenticated s with
    | Some p => dropAuthenticated p (abort p s)
    | None => s
    end in
  set_credentials None s1.

(** ** The manager as a transition system

    A label is either a call of a public method (up to its first [await])
    or an event of the environment that resumes a suspended segment: the
    proxy agent settles, a connection attempt settles, a resource closes, a
    timer fires, the server pushes a request.  The relation admits every
    interleaving of segments the event loop allows (and, for the rotation
    timer, some more), so what holds of all its reachable states holds of
    the program.

    A successful connection of the authenticated channel takes two steps:
    the result of the process resolves ([ProcessConnected]), and later the
    call of [authenticate] that awaits it resumes ([AuthenticateResumed]);
    any call may run in between.  The resumed segment is not guarded by
    [this.authenticated === process]; only the ['close'] listener it
    attaches is, and a close event that comes before the listener is
    attached is lost.  On the unauthenticated channel the resumed segment
    does nothing but attach a guarded listener, and after a rejection the
    [catch] of either channel acts only under its guard, so these
    resumptions are not separated from the events that cause them. *)

Inductive Label :=
  | CallAuthenticate (c : WebAPICredentials)
  | CallGetAuthenticatedResource
  | CallGetUnauthenticatedResource
  | CallRegisterRequestHandler (h : IRequestHandler)
  | CallUnregisterRequestHandler (h : IRequestHandler)
  | CallReconnect
  | CallOnHasStoriesDisabledChange (newValue : bool)
  | CallOnNavigatorOnline
  | CallOnNavigatorOffline
  | CallOnRemoteExpiration
  | CallLogout
  | ProxyAgentSettled (resolved : bool)
  | ProcessConnected (p : nat)
  | AuthenticateResumed (p : nat)
  | ProcessFailed (p : nat) (error : Error)
  | AbortSettled (p : nat)
  | ResourceClosed (p : nat) (code : Z)
  | SleepDone (controller : nat)
  | RotationTimerArmed (p : nat)
  | RotationTimerFired
  | IncomingRequest (p : nat) (req : IncomingWebSocketRequest).

Definition set_process_state (p : nat) (st : ProcState) (s : SocketManager)
    : SocketManager :=
  set_procs (alter (set_pstate st) p (procs s)) s.

Definition isLibsignal (pr : AbortableProcess) : bool :=
  bool_decide (ptransport pr = Some Libsignal).

(** What runs when the result of process [p] rejects with [error]: the
    [catch] of the call that awaits it.  A libsignal process of the
    unauthenticated channel is returned to the caller unobserved. *)
Definition onRejected (pr : AbortableProcess) (p : nat) (error : Error)
    (s : SocketManager) : SocketManager :=
  match pname pr with
  | AuthenticatedChannel => authenticate_failed p error s
  | UnauthenticatedChannel =>
      if isLibsignal pr then s else dropUnauthenticated p s
  end.

Definition exec (l : Label) (s : SocketManager) : option SocketManager :=
  match l with
  | CallAuthenticate c => Some (snd (authenticate c false s))
  | CallGetAuthenticatedResource => Some (getAuthenticatedResource s)
  | CallGetUnauthenticatedResource => Some (snd (getUnauthenticatedResource s))
  | CallRegisterRequestHandler h => Some (registerRequestHandler h s)
  | CallUnregisterRequestHandler h => Some (unregisterRequestHandler h s)
  | CallReconnect => Some (reconnect s)
  | CallOnHasStoriesDisabledChange v => Some (onHasStoriesDisabledChange v s)
  | CallOnNavigatorOnline => Some (onNavigatorOnline s)
  | CallOnNavigatorOffline => Some (onNavigatorOffline s)
  | CallOnRemoteExpiration => Some (onRemoteExpiration s)
  | CallLogout => Some (logout s)
  | ProxyAgentSettled resolved =>
      match proxyWaiters s with
      | [] => None
      | w :: ws =>
          let s1 := set_proxyWaiters ws s in
          if resolved then
            Some match w with
                 | AwaitAuthenticate _ _ => authenticate_connect s1
                 | AwaitUnauthenticated => getUnauthenticatedResource_connect s1
                 end
          else if lazyProxyAgent s then
            Some match w with
                 | AwaitAuthenticate _ true => authenticate_reconnect s1
                 | _ => s1
                 end
          else None
      end
  | ProcessConnected p =>
      match procs s !! p with
      | Some pr =>
          match pstate pr with
          | Connecting => Some (set_process_state p Connected s)
          | _ => None
          end
      | None => None
      end
  | AuthenticateResumed p =>
      match procs s !! p with
      | Some pr =>
          match pname pr, pstate pr with
          | AuthenticatedChannel, (Connected | ShuttingDown | Closed) =>
              if bool_decide (p ∈ closeListeners s) then None
              else Some (authenticate_connected p s)
          | _, _ => None
          end
      | None => None
      end
  | ProcessFailed p error =>
      match procs s !! p with
      | Some pr =>
          match pstate pr with
          | Connecting =>
              Some (onRejected pr p error
                      (set_process_state p (Rejected error) s))
          | _ => None
          end
      | None => None
      end
  | AbortSettled p =>
      match procs s !! p with
      | Some pr =>
          match pstate pr with
          | Aborting =>
              Some (onRejected pr p abortedError
                      (set_process_state p (Rejected abortedError) s))
          | _ => None
          end
      | None => None
      end
  | ResourceClosed p code =>
      match procs s !! p with
      | Some pr =>
          match pstate pr with
          | Connected | ShuttingDown =>
              let s1 := set_process_state p Closed s in
              Some match pname pr with
                   | AuthenticatedChannel =>
                       if bool_decide (p ∈ closeListeners s)
                       then authenticated_onClose p code s1
                       else s1
                   | UnauthenticatedChannel =>
                       if isLibsignal pr then s1
                       else unauthenticated_onClose p s1
                   end
          | _ => None
          end
      | None => None
      end
  | SleepDone controller =>
      match sleeps s !! controller with
      | Some (Sleeping _) =>
          Some (authenticate_reconnect_wake controller false
                  (set_sleeps (<[controller := SleepSettled]> (sleeps s)) s))
      | Some SleepAborted =>
          Some (authenticate_reconnect_wake controller true
                  (set_sleeps (<[controller := SleepSettled]> (sleeps s)) s))
      | _ => None
      end
  | RotationTimerArmed p =>
      match procs s !! p, getResult p s with
      | Some pr, Some (inr _) =>
          match pname pr with
          | UnauthenticatedChannel =>
              Some (startUnauthenticatedExpirationTimer p s)
          | AuthenticatedChannel => None
          end
      | _, _ => None
      end
  | RotationTimerFired =>
      match unauthenticatedExpirationTimer s with
      | Some t =>
          if timerFired t then None
          else
            Some (unauthenticatedExpirationTimer_fired (timerProcess t)
                    (set_unauthenticatedExpirationTimer
                       (Some {| timerProcess := timerProcess t;
                                timerFired := true |}) s))
      | None => None
      end
  | IncomingRequest p req =>
      match procs s !! p with
      | Some pr =>
          match pname pr, pstate pr with
          | AuthenticatedChannel, (Connected | ShuttingDown) =>
              Some (queueOrHandleRequest req s)
          | _, _ => None
          end
      | None => None
      end
  end.

Definition step (s s' : SocketManager) : Prop := exists l, exec l s = Some s'.

Definition reachable (s : SocketManager) : Prop := rtc step SocketManager_new s.

Fixpoint run (ls : list Label) (s : SocketManager) : option SocketManager :=
  match ls with
  | [] => Some s
  | l :: rest =>
      match exec l s with
      | Some s' => run rest s'
      | None => None
      end
  end.





(** An attempt of the authenticated channel that is still connecting. *)
Definition pendingAuthenticated (ps : list AbortableProcess) (p : nat) : Prop :=
  exists pr,
    ps !! p = Some pr /\ pname pr = AuthenticatedChannel
    /\ pstate pr = Connecting.

(** What holds in every reachable state (see [reachable_Inv]). *)
Record Inv (s : SocketManager) : Prop := {
  inv_pending :
    forall p, pendingAuthenticated (procs s) p -> authenticated s = Some p;
  inv_bound : forall p, authenticated s = Some p -> p < length (procs s);
  inv_credentials :
    forall c, credentials s = Some c -> emptyCredentials c = false
}.

(** The fields that decide whether and where the manager connects. *)
Definition core (s : SocketManager) :=
  (status s, authenticated s, credentials s, procs s, isRemotelyExpired s,
   closeListeners s).

(** A segment that neither opens the status nor touches the expiration
    flag. *)
Definition quiet (s s' : SocketManager) : Prop :=
  isRemotelyExpired s' = isRemotelyExpired s
  /\ (status s' = OPEN -> status s = OPEN).

(** The reconnect helper ran up to its sleep: one more sleep is pending,
    for the delay the back-off gave, guarded by a new controller. *)
Definition reconnectScheduled (s s' : SocketManager) : Prop :=
  sleeps s' = sleeps s ++ [Sleeping (BackOff_get (backOff s))]
  /\ reconnectController s' = Some (length (sleeps s))
  /\ backOff s' = (BackOff_getAndIncrement (backOff s)).2.

Definition noReconnectScheduled (s s' : SocketManager) : Prop :=
  sleeps s' = sleeps s
  /\ reconnectController s' = reconnectController s
  /\ backOff s' = backOff s.

(** Replaying a list of inbound requests, one [queueOrHandleRequest] each. *)
Definition receive (reqs : list IncomingWebSocketRequest) (s : SocketManager)
    : SocketManager :=
  foldl (fun acc req => queueOrHandleRequest req acc) s reqs.


(** ** [fetch]

    [fetch] is asynchronous.  Up to its first [await] it chooses the
    channel by the Authorization header and asks for the resource of that
    channel; after the awaits it parses the path, classifies the body and
    sends the request. *)

(** The bodies [fetch] converts to bytes rather than rejects. *)
Definition bodySupported (body : option Body) : Prop :=
  match body with
  | None | Some (BodyUint8Array _) | Some (BodyString _) => True
  | Some (BodyArrayBuffer _) | Some (BodyOther _) => False
  end.

Definition set_init_body (v : option Body) (init : RequestInit)
    : RequestInit :=
  {| init_method := init_method init; init_headers := init_headers init;
     init_body := v; init_timeout := init_timeout init |}.

Section Fetch.

(** From outside the sources: [Bytes.fromString], Node's
    [URL.parse(url).path], the response of the resource, the [Headers]
    class ([get] of a name, and [entries()], which yields the names
    normalised), and what [isAuthenticated] takes from outside. *)
Variable Bytes_fromString : string -> list byte.
Variable URL_path : string -> option string.
Variable sendRequest : nat -> SendRequestOptions -> Error + Response.
Variable Headers_get : list (string * string) -> string -> option string.
Variable Headers_entries : list (string * string) -> list (string * string).
Variable splitWhitespace : string -> string * option string.
Variable toLowerCase : string -> string.
Variable decodeBase64 : string -> string.

Definition fetch_bodyBytes (body : option Body) : Error + option (list byte) :=
  match body with
  | None => inr None
  | Some (BodyUint8Array bytes) => inr (Some bytes)
  | Some (BodyArrayBuffer _) =>
      inl (OtherError "Unsupported body type: ArrayBuffer")
  | Some (BodyString text) => inr (Some (Bytes_fromString text))
  | Some (BodyOther type) =>
      inl (OtherError ("Unsupported body type: " +:+ type))
  end.

(** [fetch] up to its first [await]: the channel it chooses and the
    manager after [getAuthenticatedResource] or
    [getUnauthenticatedResource] has run up to its own first [await].
    The body is not looked at. *)
Definition fetch_acquire (init : RequestInit) (s : SocketManager)
    : Channel * SocketManager :=
  let headers := init_headers init in
  if isAuthenticated splitWhitespace toLowerCase decodeBase64
       (Headers_get headers "Authorization") s
  then (AuthenticatedChannel, getAuthenticatedResource s)
  else (UnauthenticatedChannel, (getUnauthenticatedResource s).2).

(** [fetch] after its awaits.  [acquired] is the outcome of awaiting
    [getAuthenticatedResource] or, on the unauthenticated channel,
    [getUnauthenticatedResource] and then
    [startUnauthenticatedExpirationTimer]: an error rejects the call;
    [wire] lists the requests sent so far, each with the resource it was
    sent on. *)
Definition fetch (acquired : Error + nat) (url : string) (init : RequestInit)
    (wire : list (nat * SendRequestOptions))
    : (Error + Response) * list (nat * SendRequestOptions) :=
  match acquired with
  | inl error => (inl error, wire)
  | inr resource =>
      match URL_path url with
      | None | Some "" => (inl (OtherError "Fetch can't have empty path"), wire)
      | Some path =>
          match fetch_bodyBytes (init_body init) with
          | inl error => (inl error, wire)
          | inr bodyBytes =>
              let request :=
                {| verb := default "GET" (init_method init);
                   path := path;
                   body := bodyBytes;
                   headers := Headers_entries (init_headers init);
                   timeout := init_timeout init |} in
              (sendRequest resource request, wire ++ [(resource, request)])
          end
      end
  end.

End Fetch.

(** ** More of what every reachable state satisfies *)

(** The [online] and [offline] events of a trace, in order. *)
Definition onlineEvents (evs : list Event) : list bool :=
  omap (fun e =>
          match e with
          | online => Some true
          | offline => Some false
          | _ => None
          end) evs.

Fixpoint alternating (bs : list bool) : Prop :=
  match bs with
  | b1 :: rest =>
      match rest with
      | b2 :: _ => b1 <> b2 /\ alternating rest
      | [] => True
      end
  | [] => True
  end.

(** [isOnline] tells what the last [online] or [offline] event told. *)
Record OnlineInv (s : SocketManager) : Prop := {
  online_last : privIsOnline s = last (onlineEvents (emitted s));
  online_alternating : alternating (onlineEvents (emitted s));
  online_open : status s = OPEN -> privIsOnline s = Some true
}.

(** Requests wait in the buffer only while no handler is registered. *)
Record BufferInv (s : SocketManager) : Prop := {
  buffer_empty : requestHandlers s <> [] -> incomingRequestQueue s = [];
  buffer_nodup : NoDup (requestHandlers s)
}.

(** What a process is, apart from its state. *)
Definition processKind (pr : AbortableProcess) :=
  (pname pr, ptransport pr, pshadowing pr).

(** A process on the legacy transport, without a shadowing connection. *)
Definition legacyProcess (pr : AbortableProcess) : Prop :=
  pshadowing pr = false
  /\ (ptransport pr = None \/ ptransport pr = Some Original).

(** With a proxy configured the proxy agent exists whenever a call waits
    for it, and every process is on the legacy transport. *)
Record ProxyInv (s : SocketManager) : Prop := {
  proxy_waiters : proxyWaiters s <> [] -> lazyProxyAgent s = true;
  proxy_legacy : Forall legacyProcess (procs s)
}.

(** An attempt or connection of the authenticated channel that has neither
    failed, nor closed, nor been told to stop. *)
Definition liveAuthenticated (ps : list AbortableProcess) (p : nat) : Prop :=
  exists pr,
    ps !! p = Some pr /\ pname pr = AuthenticatedChannel
    /\ (pstate pr = Connecting \/ pstate pr = Connected).

(** The fields the invariants above read. *)
Definition wide (s : SocketManager) :=
  (isRemotelyExpired s, lazyProxyAgent s, proxyWaiters s,
   processKind <$> procs s, requestHandlers s, delivered s,
   incomingRequestQueue s, emitted s, privIsOnline s, status s).

(** What a segment may do to those fields when it neither resumes a call
    waiting for the proxy agent nor serves the request handlers: it may
    raise the two flags, enqueue calls for the proxy agent (only on a
    manager that is not remotely expired, and after creating the agent
    when a proxy is configured), change the state of processes, empty the
    buffer, and emit events that keep [OnlineInv]. *)
Record tame (s s' : SocketManager) : Prop := {
  tame_expired : isRemotelyExpired s = true -> isRemotelyExpired s' = true;
  tame_lazy : lazyProxyAgent s = true -> lazyProxyAgent s' = true;
  tame_waiters :
    exists ws,
      proxyWaiters s' = proxyWaiters s ++ ws
      /\ (ws <> [] ->
          isRemotelyExpired s = false
          /\ (hasProxyUrl = true -> lazyProxyAgent s' = true));
  tame_kinds : processKind <$> procs s' = processKind <$> procs s;
  tame_handlers : requestHandlers s' = requestHandlers s;
  tame_delivered : delivered s' = delivered s;
  tame_queue :
    incomingRequestQueue s' = incomingRequestQueue s
    \/ incomingRequestQueue s' = [];
  tame_online : OnlineInv s -> OnlineInv s'
}.

(** What the segments that serve the request handlers leave alone. *)
Definition outer (s : SocketManager) :=
  (isRemotelyExpired s, lazyProxyAgent s, proxyWaiters s, procs s,
   emitted s, privIsOnline s, status s, authenticated s).

(** What the segments that resume a call waiting for the proxy agent
    leave alone. *)
Definition inner (s : SocketManager) :=
  (isRemotelyExpired s, lazyProxyAgent s, requestHandlers s, delivered s,
   incomingRequestQueue s, emitted s, privIsOnline s, status s).

(** Every live process of the authenticated channel is the stored one. *)
Definition LiveInv (s : SocketManager) : Prop :=
  forall p, liveAuthenticated (procs s) p -> authenticated s = Some p.

(** ** Frame lemmas: which fields an operation leaves alone *)

Lemma Inv_core s s' : core s' = core s -> Inv s -> Inv s'.
Proof.
  unfold core. intros [= Hst Ha Hc Hp _ _] [H2 H3 H4].
  split; rewrite ?Hst, ?Ha, ?Hc, ?Hp; auto.
Qed.

Lemma emit_core e s : core (emit e s) = core s.
Proof. reflexivity. Qed.

Lemma setStatus_status st s : status (setStatus st s) = st.
Proof.
  unfold setStatus. case_bool_decide; [done |].
  destruct (_ && _); reflexivity.
Qed.

Lemma setStatus_frame st s :
  authenticated (setStatus st s) = authenticated s
  /\ credentials (setStatus st s) = credentials s
  /\ procs (setStatus st s) = procs s
  /\ isRemotelyExpired (setStatus st s) = isRemotelyExpired s
  /\ incomingRequestQueue (setStatus st s) = incomingRequestQueue s
  /\ sleeps (setStatus st s) = sleeps s
  /\ requestHandlers (setStatus st s) = requestHandlers s
  /\ delivered (setStatus st s) = delivered s
  /\ backOff (setStatus st s) = backOff s
  /\ reconnectController (setStatus st s) = reconnectController s
  /\ unauthenticated (setStatus st s) = unauthenticated s
  /\ proxyWaiters (setStatus st s) = proxyWaiters s
  /\ closeListeners (setStatus st s) = closeListeners s.
Proof.
  unfold setStatus. case_bool_decide; [done |].
  destruct (_ && _); done.
Qed.

Lemma authenticate_reconnect_core s : core (authenticate_reconnect s) = core s.
Proof.
  unfold authenticate_reconnect. destruct (isRemotelyExpired s); [done |].
  destruct (BackOff_getAndIncrement (backOff s)); reflexivity.
Qed.

Lemma abortReconnectController_core s :
  core (abortReconnectController s) = core s.
Proof. unfold abortReconnectController. by destruct (reconnectController s). Qed.

Lemma getProxyAgent_core s : core (getProxyAgent s) = core s.
Proof. unfold getProxyAgent. by destruct (_ && _). Qed.

Lemma dropUnauthenticated_core p s : core (dropUnauthenticated p s) = core s.
Proof.
  unfold dropUnauthenticated. case_bool_decide; [| done].
  by destruct (unauthenticatedExpirationTimer _).
Qed.

Lemma queueOrHandleRequest_core req s : core (queueOrHandleRequest req s) = core s.
Proof. unfold queueOrHandleRequest. by destruct (requestHandlers s). Qed.

Lemma foldl_queueOrHandleRequest_core reqs s :
  core (foldl (fun acc req => queueOrHandleRequest req acc) s reqs) = core s.
Proof.
  revert s. induction reqs as [| r reqs IH]; intros s; simpl; [done |].
  by rewrite IH, queueOrHandleRequest_core.
Qed.

Lemma registerRequestHandler_core h s : core (registerRequestHandler h s) = core s.
Proof.
  unfold registerRequestHandler. simpl.
  destruct (incomingRequestQueue s); [done |].
  by rewrite foldl_queueOrHandleRequest_core.
Qed.

(** ** The invariant is preserved by every segment *)

Lemma pending_alter f q ps p :
  (forall pr, pname (f pr) = pname pr) ->
  (forall pr, pstate (f pr) = Connecting -> pstate pr = Connecting) ->
  pendingAuthenticated (alter f q ps) p -> pendingAuthenticated ps p.
Proof.
  intros Hn Hs (pr & Hl & Hname & Hst).
  rewrite list_lookup_alter in Hl. destruct (decide (q = p)) as [-> |].
  - destruct (ps !! p) as [pr0 |] eqn:E; simplify_eq/=.
    exists pr0. rewrite Hn in Hname. auto.
  - exists pr. auto.
Qed.

Lemma pending_alter_eq f q ps :
  (forall pr, pstate (f pr) <> Connecting) ->
  ~ pendingAuthenticated (alter f q ps) q.
Proof.
  intros Hs (pr & Hl & _ & Hst).
  rewrite list_lookup_alter_eq in Hl.
  destruct (ps !! q) as [pr0 |]; simplify_eq/=. by apply (Hs pr0).
Qed.

Lemma pending_app ps pr p :
  pendingAuthenticated (ps ++ [pr]) p ->
  pendingAuthenticated ps p
  \/ (p = length ps /\ pname pr = AuthenticatedChannel
      /\ pstate pr = Connecting).
Proof.
  intros (pr' & Hl & Hname & Hst).
  destruct (decide (p < length ps)) as [Hlt | Hge].
  - rewrite lookup_app_l in Hl by done. left. by exists pr'.
  - rewrite lookup_app_r in Hl by lia.
    destruct (p - length ps) as [| k] eqn:E; simplify_eq/=.
    right. split; [lia | done].
Qed.

Lemma abortProcess_name pr : pname (abortProcess pr) = pname pr.
Proof. unfold abortProcess. by destruct (pstate pr). Qed.

Lemma abortProcess_state pr : pstate (abortProcess pr) <> Connecting.
Proof. unfold abortProcess. destruct (pstate pr) eqn:E; simpl; congruence. Qed.

Lemma shutdownProcess_name pr : pname (shutdownProcess pr) = pname pr.
Proof. unfold shutdownProcess. by destruct (pstate pr). Qed.

Lemma shutdownProcess_state pr :
  pstate (shutdownProcess pr) = Connecting -> pstate pr = Connecting.
Proof. unfold shutdownProcess. destruct (pstate pr) eqn:E; simpl; congruence. Qed.

(** Changing the state of one process, never into [Connecting]. *)
Lemma Inv_alter f q s :
  (forall pr, pname (f pr) = pname pr) ->
  (forall pr, pstate (f pr) = Connecting -> pstate pr = Connecting) ->
  Inv s -> Inv (set_procs (alter f q (procs s)) s).
Proof.
  intros Hn Hs [H2 H3 H4]. split; simpl; auto.
  - intros p Hp. apply H2. by eapply pending_alter.
  - intros p Hp. rewrite length_alter. auto.
Qed.

Lemma Inv_abort q s : Inv s -> Inv (abort q s).
Proof.
  apply Inv_alter; [apply abortProcess_name |].
  intros pr H. by destruct (abortProcess_state pr).
Qed.

Lemma Inv_shutdown q s : Inv s -> Inv (shutdown q s).
Proof.
  apply Inv_alter; [apply shutdownProcess_name | apply shutdownProcess_state].
Qed.

Lemma Inv_set_process_state q st s :
  st <> Connecting -> Inv s -> Inv (set_process_state q st s).
Proof. intros Hst. apply Inv_alter; simpl; [done | congruence]. Qed.

Lemma not_pending_abort q s : ~ pendingAuthenticated (procs (abort q s)) q.
Proof. apply pending_alter_eq, abortProcess_state. Qed.

Lemma not_pending_set_process_state q st s :
  st <> Connecting -> ~ pendingAuthenticated (procs (set_process_state q st s)) q.
Proof. intros Hst. apply pending_alter_eq. simpl. congruence. Qed.

Lemma Inv_setStatus_weak st s :
  (forall p, pendingAuthenticated (procs s) p -> authenticated s = Some p) ->
  (forall p, authenticated s = Some p -> p < length (procs s)) ->
  (forall c, credentials s = Some c -> emptyCredentials c = false) ->
  Inv (setStatus st s).
Proof.
  intros H2 H3 H4.
  destruct (setStatus_frame st s) as (Ha & Hc & Hp & _).
  split; rewrite ?Ha, ?Hc, ?Hp; auto.
Qed.

Lemma Inv_setStatus st s : Inv s -> Inv (setStatus st s).
Proof. intros [H2 H3 H4]. by apply Inv_setStatus_weak. Qed.

(** Dropping a process that is no longer connecting. *)
Lemma Inv_dropAuthenticated p s :
  ~ pendingAuthenticated (procs s) p -> Inv s -> Inv (dropAuthenticated p s).
Proof.
  intros Hp HI. unfold dropAuthenticated. case_bool_decide as Hcur; [| done].
  destruct HI as [H2 H3 H4].
  apply Inv_setStatus_weak; simpl; auto; [| done].
  intros q Hq. apply H2 in Hq as Hq'. rewrite Hcur in Hq'. by simplify_eq.
Qed.

Lemma Inv_authenticate c b s : Inv s -> Inv (authenticate c b s).2.
Proof.
  intros HI. unfold authenticate.
  destruct (isRemotelyExpired s); [done |].
  destruct (emptyCredentials c) eqn:Hc; [done |].
  destruct (if sameCredentials _ _ then _ else _); [done |]. simpl.
  eapply Inv_core; [apply getProxyAgent_core |].
  apply Inv_setStatus.
  destruct HI as [H2 H3 H4]. split; simpl; auto.
  intros c' [= <-]. done.
Qed.

Lemma Inv_authenticate_reconnect s : Inv s -> Inv (authenticate_reconnect s).
Proof. apply Inv_core, authenticate_reconnect_core. Qed.

Lemma Inv_authenticate_connect s : Inv s -> Inv (authenticate_connect s).
Proof.
  intros [H2 H3 H4]. unfold authenticate_connect, connectResource. simpl.
  split; simpl.
  - intros p Hp.
    assert (Hnew : forall ps, pendingAuthenticated ps p ->
              ps = procs s ++ [{| pname := AuthenticatedChannel;
                                   ptransport := None;
                                   pshadowing := negb true;
                                   pstate := Connecting |}] ->
              (forall q, authenticated s = Some q -> p <> q) ->
              p = length (procs s)).
    { intros ps Hps -> Hne. apply pending_app in Hps as [Hold | [-> _]]; [| done].
      apply H2 in Hold. by destruct (Hne p). }
    f_equal. destruct (authenticated s) as [q |] eqn:Ha; simpl in Hp.
    + destruct (decide (p = q)) as [-> | Hne].
      * by destruct (not_pending_abort q
            (set_procs (procs s ++ [{| pname := AuthenticatedChannel;
                                        ptransport := None;
                                        pshadowing := negb true;
                                        pstate := Connecting |}]) s)).
      * symmetry. eapply Hnew; [| reflexivity | by intros ? [= <-]].
        eapply pending_alter; [apply abortProcess_name | | exact Hp].
        intros pr H. by destruct (abortProcess_state pr).
    + symmetry. eapply Hnew; [exact Hp | reflexivity | done].
  - intros p [= <-].
    destruct (authenticated s); simpl; rewrite ?length_alter, length_app;
      simpl; lia.
  - destruct (authenticated s); simpl; auto.
Qed.

Lemma Inv_authenticate_connected p s :
  Inv s -> Inv (authenticate_connected p s).
Proof.
  intros HI. unfold authenticate_connected.
  apply (Inv_setStatus OPEN) in HI as [H2 H3 H4]. by split.
Qed.

Lemma Inv_authenticate_failed p e s :
  ~ pendingAuthenticated (procs s) p -> Inv s -> Inv (authenticate_failed p e s).
Proof.
  intros Hp HI. unfold authenticate_failed.
  destruct (negb _); [done |].
  pose proof (Inv_dropAuthenticated p s Hp HI) as HD.
  destruct e as [code | msg]; [| by apply Inv_authenticate_reconnect].
  destruct (_ || _); [by eapply Inv_core; [apply emit_core |] |].
  destruct (_ && _); [done |].
  apply Inv_authenticate_reconnect.
  destruct (_ && _); [| done]. by eapply Inv_core; [| exact HD].
Qed.

Lemma Inv_authenticated_onClose p code s :
  ~ pendingAuthenticated (procs s) p -> Inv s ->
  Inv (authenticated_onClose p code s).
Proof.
  intros Hp HI. unfold authenticated_onClose.
  destruct (negb _); [done |].
  pose proof (Inv_dropAuthenticated p s Hp HI) as HD.
  destruct (_ =? _)%Z; [done |]. destruct (_ =? _)%Z; [done |].
  by apply Inv_authenticate_reconnect.
Qed.

Lemma Inv_authenticate_reconnect_wake c b s :
  Inv s -> Inv (authenticate_reconnect_wake c b s).
Proof.
  intros HI. unfold authenticate_reconnect_wake.
  set (s1 := if bool_decide _ then _ else s).
  assert (Inv s1) as HI1.
  { subst s1. case_bool_decide; [| done]. by eapply Inv_core; [| exact HI]. }
  destruct b; [done |].
  destruct (authenticated s1); [done |].
  destruct (credentials s1) as [cr |]; [| done].
  pose proof (Inv_authenticate cr true s1 HI1) as HA.
  destruct (authenticate cr true s1) as [[] s2]; simpl in HA; try done.
  by apply Inv_authenticate_reconnect.
Qed.

Lemma Inv_getAuthenticatedResource s :
  Inv s -> Inv (getAuthenticatedResource s).
Proof.
  intros HI. unfold getAuthenticatedResource.
  destruct (authenticated s); [done |].
  destruct (credentials s); [| done]. by apply Inv_authenticate.
Qed.

Lemma getUnauthenticatedResource_core s :
  core (getUnauthenticatedResource s).2 = core s.
Proof.
  unfold getUnauthenticatedResource.
  destruct (unauthenticated s); [done |].
  destruct (isRemotelyExpired s); [done |]. simpl.
  apply getProxyAgent_core.
Qed.

(** A new process of the unauthenticated channel. *)
Lemma Inv_new_unauthenticated pr s :
  pname pr = UnauthenticatedChannel ->
  Inv s -> Inv (set_unauthenticated (Some (length (procs s)))
                  (set_procs (procs s ++ [pr]) s)).
Proof.
  intros Hn [H2 H3 H4]. split; simpl; auto.
  - intros p Hp. apply pending_app in Hp as [Hp | (_ & Hp & _)]; [auto |].
    congruence.
  - intros p Hp. rewrite length_app. apply H3 in Hp. simpl. lia.
Qed.

Lemma Inv_getUnauthenticatedResource_connect s :
  Inv s -> Inv (getUnauthenticatedResource_connect s).
Proof.
  intros HI. unfold getUnauthenticatedResource_connect.
  case_bool_decide; simpl; by apply Inv_new_unauthenticated.
Qed.

Lemma Inv_unauthenticatedExpirationTimer_fired p s :
  Inv s -> Inv (unauthenticatedExpirationTimer_fired p s).
Proof.
  intros HI. unfold unauthenticatedExpirationTimer_fired.
  apply (Inv_shutdown p) in HI.
  destruct (negb _); [done |].
  eapply Inv_core; [apply getUnauthenticatedResource_core |].
  by eapply Inv_core; [apply dropUnauthenticated_core |].
Qed.

Lemma Inv_abort_drop p s : Inv s -> Inv (dropAuthenticated p (abort p s)).
Proof.
  intros HI. apply Inv_dropAuthenticated; [apply not_pending_abort |].
  by apply Inv_abort.
Qed.

Lemma Inv_reconnect s : Inv s -> Inv (reconnect s).
Proof.
  intros HI. unfold reconnect.
  set (s1 := match authenticated s with Some p => _ | None => s end).
  assert (Inv s1) as HI1.
  { subst s1. destruct (authenticated s); [| done]. by apply Inv_abort_drop. }
  set (s2 := match unauthenticated s with Some p => _ | None => s1 end).
  assert (Inv s2) as HI2.
  { subst s2. destruct (unauthenticated s); [| done].
    eapply Inv_core; [apply dropUnauthenticated_core |]. by apply Inv_abort. }
  destruct (credentials s2); [| done].
  apply Inv_authenticate.
  eapply Inv_core; [apply abortReconnectController_core |].
  by eapply Inv_core; [| exact HI2].
Qed.

Lemma Inv_logout s : Inv s -> Inv (logout s).
Proof.
  intros HI. unfold logout.
  set (s1 := match authenticated s with Some p => _ | None => s end).
  assert (Inv s1) as [H2 H3 H4].
  { subst s1. destruct (authenticated s); [| done]. by apply Inv_abort_drop. }
  split; simpl; auto. done.
Qed.

Lemma Inv_onNavigatorOnline s : Inv s -> Inv (onNavigatorOnline s).
Proof.
  intros HI. unfold onNavigatorOnline. simpl.
  destruct (credentials s); [| by eapply Inv_core; [| exact HI]].
  apply Inv_authenticate.
  eapply Inv_core; [apply abortReconnectController_core |].
  by eapply Inv_core; [| exact HI].
Qed.

Lemma Inv_onRejected pr p e s :
  ~ pendingAuthenticated (procs s) p -> Inv s -> Inv (onRejected pr p e s).
Proof.
  intros Hp HI. unfold onRejected.
  destruct (pname pr); [by apply Inv_authenticate_failed |].
  destruct (isLibsignal pr); [done |].
  by eapply Inv_core; [apply dropUnauthenticated_core |].
Qed.

Lemma Inv_exec l s s' : Inv s -> exec l s = Some s' -> Inv s'.
Proof.
  intros HI Hx. destruct l; cbn [exec] in Hx.
  - simplify_eq. by apply Inv_authenticate.
  - simplify_eq. by apply Inv_getAuthenticatedResource.
  - simplify_eq. by eapply Inv_core; [apply getUnauthenticatedResource_core |].
  - simplify_eq. by eapply Inv_core; [apply registerRequestHandler_core |].
  - simplify_eq. by eapply Inv_core; [| exact HI].
  - simplify_eq. by apply Inv_reconnect.
  - simplify_eq. unfold onHasStoriesDisabledChange.
    destruct (Bool.eqb _ _); [done |]. apply Inv_reconnect.
    by eapply Inv_core; [| exact HI].
  - simplify_eq. by apply Inv_onNavigatorOnline.
  - simplify_eq. by eapply Inv_core; [| exact HI].
  - simplify_eq. unfold onRemoteExpiration.
    eapply Inv_core; [apply abortReconnectController_core |].
    destruct HI as [H2 H3 H4]. by split.
  - simplify_eq. by apply Inv_logout.
  - destruct (proxyWaiters s) as [| w ws] eqn:Hw; [done |].
    assert (Inv (set_proxyWaiters ws s)) as HI1
      by (by eapply Inv_core; [| exact HI]).
    destruct resolved.
    + simplify_eq. destruct w.
      * by apply Inv_authenticate_connect.
      * by apply Inv_getUnauthenticatedResource_connect.
    + destruct (lazyProxyAgent s); [| done]. simplify_eq.
      destruct w as [c [] |]; try done. by apply Inv_authenticate_reconnect.
  - destruct (procs s !! p) as [pr |] eqn:Hp; [| done].
    destruct (pstate pr) eqn:Hst; try done. simplify_eq.
    by apply Inv_set_process_state.
  - destruct (procs s !! p) as [pr |] eqn:Hp; [| done].
    destruct (pname pr); [| done].
    destruct (pstate pr); try done; case_bool_decide; simplify_eq;
      by apply Inv_authenticate_connected.
  - destruct (procs s !! p) as [pr |] eqn:Hp; [| done].
    destruct (pstate pr) eqn:Hst; try done. simplify_eq.
    apply Inv_onRejected; [by apply not_pending_set_process_state |].
    by apply Inv_set_process_state.
  - destruct (procs s !! p) as [pr |] eqn:Hp; [| done].
    destruct (pstate pr) eqn:Hst; try done. simplify_eq.
    apply Inv_onRejected; [by apply not_pending_set_process_state |].
    by apply Inv_set_process_state.
  - destruct (procs s !! p) as [pr |] eqn:Hp; [| done].
    assert (Inv (set_process_state p Closed s)) as HI1
      by (by apply Inv_set_process_state).
    assert (~ pendingAuthenticated (procs (set_process_state p Closed s)) p)
      as Hnp by (by apply not_pending_set_process_state).
    destruct (pstate pr) eqn:Hst; try done; simplify_eq;
      (destruct (pname pr);
       [ case_bool_decide; [| done];
         by apply Inv_authenticated_onClose
       | destruct (isLibsignal pr); [done |];
         unfold unauthenticated_onClose; destruct (negb _); [done |];
         by eapply Inv_core; [apply dropUnauthenticated_core |] ]).
  - destruct (sleeps s !! controller) as [[] |]; try done; simplify_eq;
      apply Inv_authenticate_reconnect_wake;
      by eapply Inv_core; [| exact HI].
  - destruct (procs s !! p) as [pr |]; [| done].
    destruct (getResult p s) as [[] |]; try done.
    destruct (pname pr); [done |]. simplify_eq.
    unfold startUnauthenticatedExpirationTimer.
    destruct (unauthenticatedExpirationTimer s); [done |].
    by eapply Inv_core; [| exact HI].
  - destruct (unauthenticatedExpirationTimer s) as [t |]; [| done].
    destruct (timerFired t); [done |]. simplify_eq.
    apply Inv_unauthenticatedExpirationTimer_fired.
    by eapply Inv_core; [| exact HI].
  - destruct (procs s !! p) as [pr |]; [| done].
    destruct (pname pr); [| done].
    destruct (pstate pr); try done; simplify_eq;
      by eapply Inv_core; [apply queueOrHandleRequest_core |].
Qed.

Lemma Inv_new : Inv SocketManager_new.
Proof.
  split; simpl; try done.
  intros p (pr & Hl & _). by rewrite lookup_nil in Hl.
Qed.

Lemma reachable_Inv s : reachable s -> Inv s.
Proof.
  unfold reachable. intros H.
  apply (rtc_ind_r (R := step) (fun z => Inv z) SocketManager_new);
    [apply Inv_new | | exact H].
  intros y z _ [l Hx] IH. by eapply Inv_exec.
Qed.

Lemma run_reachable ls s s' :
  reachable s -> run ls s = Some s' -> reachable s'.
Proof.
  revert s. induction ls as [| l ls IH]; intros s Hr; simpl.
  - by intros [= <-].
  - destruct (exec l s) as [s1 |] eqn:Hx; [| done].
    apply IH. eapply rtc_r; [exact Hr |]. by exists l.
Qed.

(** ** Only a successful connection opens the status; the expiration flag
    is only ever raised *)

Lemma quiet_refl s : quiet s s.
Proof. by split. Qed.

Lemma quiet_trans s1 s2 s3 : quiet s1 s2 -> quiet s2 s3 -> quiet s1 s3.
Proof. intros [E1 O1] [E2 O2]. split; [congruence | auto]. Qed.

Lemma quiet_core s s' : core s' = core s -> quiet s s'.
Proof. unfold core. intros [= Hst _ _ _ He _]. split; congruence. Qed.

Lemma quiet_setStatus st s : st <> OPEN -> quiet s (setStatus st s).
Proof.
  intros Hst. destruct (setStatus_frame st s) as (_ & _ & _ & He & _).
  split; [done |]. rewrite setStatus_status. congruence.
Qed.

Lemma quiet_dropAuthenticated p s : quiet s (dropAuthenticated p s).
Proof.
  unfold dropAuthenticated. case_bool_decide; [| apply quiet_refl].
  eapply quiet_trans; [| by apply quiet_setStatus]. by split.
Qed.

Lemma quiet_authenticate c b s : quiet s (authenticate c b s).2.
Proof.
  unfold authenticate.
  destruct (isRemotelyExpired s) eqn:He; [apply quiet_refl |].
  destruct (emptyCredentials c); [apply quiet_refl |].
  destruct (if sameCredentials _ _ then _ else _); [apply quiet_refl |].
  simpl. eapply quiet_trans; [| apply quiet_core, getProxyAgent_core].
  eapply quiet_trans; [| by apply quiet_setStatus]. by split.
Qed.

Lemma quiet_authenticate_reconnect s : quiet s (authenticate_reconnect s).
Proof. apply quiet_core, authenticate_reconnect_core. Qed.

Lemma quiet_authenticate_failed p e s : quiet s (authenticate_failed p e s).
Proof.
  unfold authenticate_failed. destruct (negb _); [apply quiet_refl |].
  pose proof (quiet_dropAuthenticated p s) as HD.
  destruct e as [code | msg];
    [| by eapply quiet_trans; [| apply quiet_authenticate_reconnect]].
  destruct (_ || _); [by eapply quiet_trans; [exact HD |] |].
  destruct (_ && _); [done |].
  eapply quiet_trans; [| apply quiet_authenticate_reconnect].
  destruct (_ && _); [| done]. by eapply quiet_trans; [exact HD |].
Qed.

Lemma quiet_authenticated_onClose p code s :
  quiet s (authenticated_onClose p code s).
Proof.
  unfold authenticated_onClose. destruct (negb _); [apply quiet_refl |].
  pose proof (quiet_dropAuthenticated p s) as HD.
  destruct (_ =? _)%Z; [done |]. destruct (_ =? _)%Z; [done |].
  by eapply quiet_trans; [| apply quiet_authenticate_reconnect].
Qed.

Lemma quiet_authenticate_reconnect_wake c b s :
  quiet s (authenticate_reconnect_wake c b s).
Proof.
  unfold authenticate_reconnect_wake.
  set (s1 := if bool_decide _ then _ else s).
  assert (quiet s s1) as H1 by (subst s1; by case_bool_decide).
  destruct b; [done |].
  destruct (authenticated s1); [done |].
  destruct (credentials s1) as [cr |]; [| done].
  pose proof (quiet_authenticate cr true s1) as HA.
  destruct (authenticate cr true s1) as [[] s2]; simpl in HA;
    try (by eapply quiet_trans).
  eapply quiet_trans; [| apply quiet_authenticate_reconnect].
  by eapply quiet_trans.
Qed.

Lemma quiet_getUnauthenticatedResource s :
  quiet s (getUnauthenticatedResource s).2.
Proof. apply quiet_core, getUnauthenticatedResource_core. Qed.

Lemma quiet_abort_drop p s : quiet s (dropAuthenticated p (abort p s)).
Proof. eapply quiet_trans; [| apply quiet_dropAuthenticated]. by split. Qed.

Lemma quiet_reconnect s : quiet s (reconnect s).
Proof.
  unfold reconnect.
  set (s1 := match authenticated s with Some p => _ | None => s end).
  assert (quiet s s1) as H1.
  { subst s1. destruct (authenticated s); [| apply quiet_refl].
    apply quiet_abort_drop. }
  set (s2 := match unauthenticated s with Some p => _ | None => s1 end).
  assert (quiet s s2) as H2.
  { subst s2. destruct (unauthenticated s); [| done].
    eapply quiet_trans; [exact H1 |].
    eapply quiet_trans; [| apply quiet_core, dropUnauthenticated_core].
    by split. }
  destruct (credentials s2); [| done].
  eapply quiet_trans; [exact H2 |].
  eapply quiet_trans; [| apply quiet_authenticate].
  eapply quiet_trans; [| apply quiet_core, abortReconnectController_core].
  by split.
Qed.

Lemma quiet_onRejected pr p e s : quiet s (onRejected pr p e s).
Proof.
  unfold onRejected. destruct (pname pr); [apply quiet_authenticate_failed |].
  destruct (isLibsignal pr); [apply quiet_refl |].
  apply quiet_core, dropUnauthenticated_core.
Qed.

(** Every step but the resumption of [authenticate] after a successful
    connection and [onRemoteExpiration] is quiet. *)
Lemma exec_quiet l s s' :
  exec l s = Some s' ->
  quiet s s'
  \/ l = CallOnRemoteExpiration
  \/ exists p pr, l = AuthenticateResumed p /\ procs s !! p = Some pr
       /\ pname pr = AuthenticatedChannel
       /\ (pstate pr = Connected \/ pstate pr = ShuttingDown
           \/ pstate pr = Closed)
       /\ (p ∉ closeListeners s)
       /\ s' = authenticate_connected p s.
Proof.
  intros Hx. destruct l; cbn [exec] in Hx.
  - left. simplify_eq. apply quiet_authenticate.
  - left. simplify_eq. unfold getAuthenticatedResource.
    destruct (authenticated s); [apply quiet_refl |].
    destruct (credentials s); [apply quiet_authenticate | apply quiet_refl].
  - left. simplify_eq. apply quiet_getUnauthenticatedResource.
  - left. simplify_eq. apply quiet_core, registerRequestHandler_core.
  - left. simplify_eq. by split.
  - left. simplify_eq. apply quiet_reconnect.
  - left. simplify_eq. unfold onHasStoriesDisabledChange.
    destruct (Bool.eqb _ _); [apply quiet_refl |].
    eapply quiet_trans; [| apply quiet_reconnect]. by split.
  - left. simplify_eq. unfold onNavigatorOnline. simpl.
    destruct (credentials s); [| by split].
    eapply quiet_trans; [| apply quiet_authenticate].
    eapply quiet_trans; [| apply quiet_core, abortReconnectController_core].
    by split.
  - left. simplify_eq. by split.
  - right. by left.
  - left. simplify_eq. unfold logout.
    destruct (authenticated s); [| by split].
    eapply quiet_trans; [apply quiet_abort_drop |]. by split.
  - left. destruct (proxyWaiters s) as [| w ws]; [done |].
    destruct resolved.
    + simplify_eq. destruct w.
      * unfold authenticate_connect, connectResource. simpl.
        destruct (authenticated s); by split.
      * unfold getUnauthenticatedResource_connect.
        case_bool_decide; by split.
    + destruct (lazyProxyAgent s); [| done]. simplify_eq.
      destruct w as [c [] |]; try by split.
      eapply quiet_trans; [| apply quiet_authenticate_reconnect]. by split.
  - left. destruct (procs s !! p) as [pr |] eqn:Hp; [| done].
    destruct (pstate pr) eqn:Hst; try done. simplify_eq. by split.
  - destruct (procs s !! p) as [pr |] eqn:Hp; [| done].
    destruct (pname pr) eqn:Hn; [| done].
    destruct (pstate pr) eqn:Hst; try done; case_bool_decide; simplify_eq;
      right; right; exists p, pr; split_and!; auto.
  - left. destruct (procs s !! p) as [pr |] eqn:Hp; [| done].
    destruct (pstate pr) eqn:Hst; try done. simplify_eq.
    eapply quiet_trans; [| apply quiet_onRejected]. by split.
  - left. destruct (procs s !! p) as [pr |] eqn:Hp; [| done].
    destruct (pstate pr) eqn:Hst; try done. simplify_eq.
    eapply quiet_trans; [| apply quiet_onRejected]. by split.
  - left. destruct (procs s !! p) as [pr |] eqn:Hp; [| done].
    assert (quiet s (set_process_state p Closed s)) as H1 by (by split).
    destruct (pstate pr) eqn:Hst; try done; simplify_eq;
      (destruct (pname pr);
       [ case_bool_decide; [| done];
         eapply quiet_trans; [exact H1 | apply quiet_authenticated_onClose]
       | destruct (isLibsignal pr); [done |];
         unfold unauthenticated_onClose; destruct (negb _); [done |];
         eapply quiet_trans; [exact H1 |];
         apply quiet_core, dropUnauthenticated_core ]).
  - left. destruct (sleeps s !! controller) as [[] |]; try done; simplify_eq;
      (eapply quiet_trans; [| apply quiet_authenticate_reconnect_wake]);
      by split.
  - left. destruct (procs s !! p) as [pr |]; [| done].
    destruct (getResult p s) as [[] |]; try done.
    destruct (pname pr); [done |]. simplify_eq.
    unfold startUnauthenticatedExpirationTimer.
    destruct (unauthenticatedExpirationTimer s); by split.
  - left. destruct (unauthenticatedExpirationTimer s) as [t |]; [| done].
    destruct (timerFired t); [done |]. simplify_eq.
    unfold unauthenticatedExpirationTimer_fired.
    destruct (negb _); [by split |].
    eapply quiet_trans; [| apply quiet_getUnauthenticatedResource].
    eapply quiet_trans; [| apply quiet_core, dropUnauthenticated_core].
    by split.
  - left. destruct (procs s !! p) as [pr |]; [| done].
    destruct (pname pr); [| done].
    destruct (pstate pr); try done; simplify_eq;
      apply quiet_core, queueOrHandleRequest_core.
Qed.

(** ** An open status: some attempt of the authenticated channel has
    succeeded *)


























Lemma exec_expired l s s' :
  exec l s = Some s' -> isRemotelyExpired s = true ->
  isRemotelyExpired s' = true.
Proof.
  intros Hx He.
  destruct (exec_quiet l s s' Hx)
    as [[E _] | [-> | (p & pr & -> & _ & _ & _ & _ & ->)]].
  - congruence.
  - cbn [exec] in Hx. simplify_eq.
    unfold onRemoteExpiration, abortReconnectController. simpl.
    by destruct (reconnectController s).
  - unfold authenticate_connected. simpl.
    destruct (setStatus_frame OPEN s) as (_ & _ & _ & E & _).
    by rewrite E.
Qed.

Lemma steps_expired s s' :
  rtc step s s' -> isRemotelyExpired s = true -> isRemotelyExpired s' = true.
Proof.
  intros H. induction H as [| x y z [l Hx] _ IH]; [done |].
  intros He. apply IH. by eapply exec_expired.
Qed.

(** ** Failure and close of the authenticated connection *)

Lemma dropAuthenticated_current p s :
  authenticated s = Some p ->
  let d := dropAuthenticated p s in
  authenticated d = None /\ status d = CLOSED
  /\ incomingRequestQueue d = []
  /\ emitted d
     = emitted s ++ (if bool_decide (status s = CLOSED) then []
                     else [statusChange])
  /\ privIsOnline d = privIsOnline s
  /\ noReconnectScheduled s d
  /\ isRemotelyExpired d = isRemotelyExpired s
  /\ delivered d = delivered s
  /\ procs d = procs s.
Proof.
  intros Hcur. unfold dropAuthenticated. rewrite bool_decide_eq_true_2 by done.
  unfold setStatus, noReconnectScheduled. simpl.
  case_bool_decide; simpl; [by rewrite app_nil_r | done].
Qed.

Lemma authenticate_reconnect_spec s :
  (isRemotelyExpired s = true -> authenticate_reconnect s = s)
  /\ (isRemotelyExpired s = false -> reconnectScheduled s (authenticate_reconnect s))
  /\ emitted (authenticate_reconnect s) = emitted s
  /\ privIsOnline (authenticate_reconnect s) = privIsOnline s
  /\ authenticated (authenticate_reconnect s) = authenticated s
  /\ incomingRequestQueue (authenticate_reconnect s) = incomingRequestQueue s
  /\ delivered (authenticate_reconnect s) = delivered s
  /\ requestHandlers (authenticate_reconnect s) = requestHandlers s.
Proof.
  unfold authenticate_reconnect, reconnectScheduled.
  destruct (isRemotelyExpired s); [by split_and! |].
  unfold BackOff_getAndIncrement. simpl. by split_and!.
Qed.

Lemma reconnectScheduled_trans s d s' :
  noReconnectScheduled s d -> reconnectScheduled d s' -> reconnectScheduled s s'.
Proof.
  unfold noReconnectScheduled, reconnectScheduled.
  intros (E1 & E2 & E3) (F1 & F2 & F3).
  rewrite F1, F2, F3, E1, E3. done.
Qed.

(** C1 (amended).  When the connection attempt of [authenticate] fails
    with an HTTP error while its process is still the current one, the
    process is dropped (with a [statusChange] unless the status was already
    CLOSED) and then: on 401 or 403 an [authError] is emitted and no
    reconnect is scheduled; on a code in 500..599 or on -1 a reconnect is
    scheduled unless the manager is remotely expired, and only on -1 the
    manager is marked offline, emitting [offline] unless it was already
    marked so; on any other code nothing more is emitted and no reconnect
    is scheduled. *)
Theorem authenticate_failed_policy p code s :
  authenticated s = Some p ->
  let dropped := dropAuthenticated p s in
  let s' := authenticate_failed p (HTTPError code) s in
  authenticated s' = None
  /\ emitted dropped
     = emitted s ++ (if bool_decide (status s = CLOSED) then []
                     else [statusChange])
  /\ (code = 401%Z \/ code = 403%Z ->
      emitted s' = emitted dropped ++ [authError (HTTPError code)]
      /\ noReconnectScheduled s s'
      /\ privIsOnline s' = privIsOnline s)
  /\ ((500 <= code <= 599)%Z ->
      emitted s' = emitted dropped
      /\ privIsOnline s' = privIsOnline s
      /\ (isRemotelyExpired s = false -> reconnectScheduled s s')
      /\ (isRemotelyExpired s = true -> noReconnectScheduled s s'))
  /\ (code = (-1)%Z ->
      privIsOnline s' = Some false
      /\ emitted s'
         = emitted dropped
           ++ (if bool_decide (privIsOnline s = Some false) then []
               else [offline])
      /\ (isRemotelyExpired s = false -> reconnectScheduled s s')
      /\ (isRemotelyExpired s = true -> noReconnectScheduled s s'))
  /\ (code <> 401%Z -> code <> 403%Z -> code <> (-1)%Z ->
      ~ (500 <= code <= 599)%Z ->
      emitted s' = emitted dropped
      /\ noReconnectScheduled s s'
      /\ privIsOnline s' = privIsOnline s).
Proof.
  intros Hcur dropped s'.
  destruct (dropAuthenticated_current p s Hcur)
    as (Ha & _ & _ & Hem & Hon & Hno & Hex & _ & _).
  fold dropped in Ha, Hem, Hon, Hno, Hex.
  assert (Hs' : s' = authenticate_failed p (HTTPError code) s) by done.
  unfold authenticate_failed in Hs'.
  rewrite bool_decide_eq_true_2 in Hs' by done. simpl in Hs'.
  fold dropped in Hs'.
  split; [| split; [done |]].
  { rewrite Hs'. destruct (_ || _); [done |]. destruct (_ && _); [done |].
    destruct (authenticate_reconnect_spec
                (if (code =? -1)%Z
                    && negb (bool_decide (privIsOnline dropped = Some false))
                 then emit offline (set_privIsOnline (Some false) dropped)
                 else dropped)) as (_ & _ & _ & _ & -> & _).
    by destruct (_ && _). }
  split; [| split; [| split]].
  - intros Hc.
    assert ((code =? 401)%Z || (code =? 403)%Z = true) as Hb.
    { destruct Hc as [-> | ->]; done. }
    rewrite Hb in Hs'. subst s'. by rewrite Hs'.
  - intros Hc.
    assert ((code =? 401)%Z || (code =? 403)%Z = false) as Hb1.
    { apply orb_false_iff. split; apply Z.eqb_neq; lia. }
    assert ((500 <=? code)%Z && (code <=? 599)%Z = true) as Hb2.
    { apply andb_true_iff. split; apply Z.leb_le; lia. }
    assert ((code =? -1)%Z = false) as Hb3 by (apply Z.eqb_neq; lia).
    rewrite Hb1, Hb2, Hb3 in Hs'. simpl in Hs'.
    destruct (authenticate_reconnect_spec dropped)
      as (He1 & He2 & Hem' & Hon' & _).
    rewrite Hs'. split_and!; try congruence.
    + intros He. eapply reconnectScheduled_trans; [exact Hno |].
      apply He2. congruence.
    + intros He. rewrite He1 by congruence. done.
  - intros ->. simpl in Hs'.
    destruct (authenticate_reconnect_spec
                (if negb (bool_decide (privIsOnline dropped = Some false))
                 then emit offline (set_privIsOnline (Some false) dropped)
                 else dropped)) as (He1 & He2 & Hem' & Hon' & _).
    rewrite Hs', Hem', Hon'. rewrite Hon in *.
    case_bool_decide as Hoff; simpl in *.
    + split_and!; [congruence | by rewrite app_nil_r | |].
      * intros He. eapply reconnectScheduled_trans; [exact Hno |].
        apply He2. congruence.
      * intros He. rewrite He1 by congruence. done.
    + split_and!; [done | done | |].
      * intros He. eapply reconnectScheduled_trans; [exact Hno |].
        apply He2. congruence.
      * intros He. rewrite He1 by congruence. apply Hno.
  - intros H1 H2 H3 H4.
    assert ((code =? 401)%Z || (code =? 403)%Z = false) as Hb1.
    { apply orb_false_iff. split; apply Z.eqb_neq; lia. }
    assert ((500 <=? code)%Z && (code <=? 599)%Z = false) as Hb2.
    { apply andb_false_iff.
      destruct (Z.leb_spec 500 code); [right | by left].
      apply Z.leb_gt. lia. }
    assert ((code =? -1)%Z = false) as Hb3 by (apply Z.eqb_neq; lia).
    rewrite Hb1, Hb2, Hb3 in Hs'. simpl in Hs'. subst s'. by rewrite Hs'.
Qed.

(** C2.  A close event delivered to the close listener of the
    authenticated socket while its process is still the current one and the
    manager is not remotely expired drops the process; on code 3000 or 4409
    no reconnect is scheduled, on any other code exactly one reconnect is
    scheduled: one more sleep is pending, for the delay the back-off gave.
    A further close event of the dropped process changes nothing. *)
Theorem authenticated_onClose_policy p code s :
  authenticated s = Some p ->
  isRemotelyExpired s = false ->
  let s' := authenticated_onClose p code s in
  authenticated s' = None
  /\ (code = 3000%Z \/ code = 4409%Z -> noReconnectScheduled s s')
  /\ (code <> 3000%Z -> code <> 4409%Z ->
      reconnectScheduled s s'
      /\ length (sleeps s') = S (length (sleeps s)))
  /\ (forall code', authenticated_onClose p code' s' = s').
Proof.
  intros Hcur Hex s'.
  destruct (dropAuthenticated_current p s Hcur)
    as (Ha & _ & _ & _ & _ & Hno & Hex' & _ & _).
  assert (Hs' : s' = authenticated_onClose p code s) by done.
  unfold authenticated_onClose in Hs'.
  rewrite bool_decide_eq_true_2 in Hs' by done. simpl in Hs'.
  destruct (authenticate_reconnect_spec (dropAuthenticated p s))
    as (_ & He2 & _ & _ & Ha' & _).
  assert (authenticated s' = None) as Hnone.
  { rewrite Hs'. destruct (code =? 3000)%Z; [done |].
    destruct (code =? 4409)%Z; [done |]. congruence. }
  split_and!.
  - done.
  - intros [-> | ->]; simpl in Hs'; by rewrite Hs'.
  - intros H1 H2.
    apply Z.eqb_neq in H1, H2. rewrite H1, H2 in Hs'.
    assert (reconnectScheduled s s') as HR.
    { rewrite Hs'. eapply reconnectScheduled_trans; [exact Hno |].
      apply He2. congruence. }
    split; [done |]. destruct HR as (-> & _).
    rewrite length_app. simpl. lia.
  - intros code'. unfold authenticated_onClose at 1.
    rewrite Hnone. by rewrite bool_decide_eq_false_2.
Qed.

(** ** The inbound-request buffer *)

Lemma receive_buffers reqs s :
  requestHandlers s = [] ->
  incomingRequestQueue (receive reqs s) = incomingRequestQueue s ++ reqs
  /\ delivered (receive reqs s) = delivered s
  /\ requestHandlers (receive reqs s) = [].
Proof.
  unfold receive. revert s.
  induction reqs as [| r reqs IH]; intros s Hh; simpl.
  - by rewrite app_nil_r.
  - unfold queueOrHandleRequest at 2 4 6. rewrite Hh.
    destruct (IH (set_incomingRequestQueue (incomingRequestQueue s ++ [r]) s))
      as (-> & -> & ->); [done |].
    simpl. by rewrite <- app_assoc.
Qed.

Lemma receive_dispatches reqs h hs s :
  requestHandlers s = h :: hs ->
  delivered (receive reqs s)
  = delivered s
    ++ concat (map (fun req => map (fun h' => (h', req)) (h :: hs)) reqs)
  /\ incomingRequestQueue (receive reqs s) = incomingRequestQueue s
  /\ requestHandlers (receive reqs s) = h :: hs.
Proof.
  unfold receive. revert s.
  induction reqs as [| r reqs IH]; intros s Hh.
  - simpl. by rewrite app_nil_r.
  - cbn [foldl map concat]. unfold queueOrHandleRequest at 2 4 6. rewrite Hh.
    destruct (IH (set_delivered
                    (delivered s ++ map (fun h' => (h', r)) (h :: hs)) s))
      as (-> & -> & ->); [done |].
    cbn [delivered set_delivered incomingRequestQueue].
    by rewrite <- app_assoc.
Qed.

Lemma concat_map_singleton {A B} (f : A -> B) (l : list A) :
  concat (map (fun a => [f a]) l) = map f l.
Proof. induction l as [| a l IH]; simpl; by rewrite ?IH. Qed.

(** C4 (amended).  Requests that arrive while no handler is registered
    are appended to the buffer in arrival order and nothing is delivered;
    registering a handler then delivers exactly the requests the buffer
    holds at that moment, in that order, and empties the buffer; requests
    arriving afterwards are delivered after them and are not buffered.
    When the current authenticated process is dropped in between, the
    buffer is emptied and the handler is handed none of the requests. *)
Theorem registerRequestHandler_replays_queue reqs later h s :
  requestHandlers s = [] ->
  let buffered := receive reqs s in
  let registered := registerRequestHandler h buffered in
  let after := receive later registered in
  incomingRequestQueue buffered = incomingRequestQueue s ++ reqs
  /\ delivered buffered = delivered s
  /\ delivered registered
     = delivered s
       ++ map (fun req => (h, req)) (incomingRequestQueue s ++ reqs)
  /\ incomingRequestQueue registered = []
  /\ delivered after
     = delivered registered ++ map (fun req => (h, req)) later
  /\ incomingRequestQueue after = []
  /\ (forall p,
        authenticated buffered = Some p ->
        let dropped := dropAuthenticated p buffered in
        incomingRequestQueue dropped = []
        /\ delivered (registerRequestHandler h dropped) = delivered s
        /\ incomingRequestQueue (registerRequestHandler h dropped) = []).
Proof.
  intros Hh buffered registered after.
  destruct (receive_buffers reqs s Hh) as (Hb1 & Hb2 & Hb3).
  fold buffered in Hb1, Hb2, Hb3.
  assert (Hreg : delivered registered
                 = delivered s
                   ++ map (fun req => (h, req)) (incomingRequestQueue buffered)
                 /\ incomingRequestQueue registered = []
                 /\ requestHandlers registered = [h]).
  { subst registered. unfold registerRequestHandler.
    rewrite Hb3. cbn [incomingRequestQueue set_requestHandlers].
    destruct (incomingRequestQueue buffered) as [| r queue] eqn:Eq.
    - simpl. by rewrite app_nil_r, Hb2.
    - destruct (receive_dispatches (r :: queue) h []
                  (set_incomingRequestQueue []
                     (set_requestHandlers (Set_add h []) buffered)))
        as (E1 & E2 & E3); [done |].
      unfold receive in E1, E2, E3. rewrite E1, E2, E3.
      cbn [delivered set_incomingRequestQueue set_requestHandlers
           incomingRequestQueue].
      rewrite Hb2. split; [| done]. f_equal.
      apply (concat_map_singleton (fun req => (h, req))). }
  destruct Hreg as (Hr1 & Hr2 & Hr3).
  destruct (receive_dispatches later h [] registered Hr3) as (Ha1 & Ha2 & _).
  fold after in Ha1, Ha2.
  split_and!; try done.
  - by rewrite Hr1, Hb1.
  - rewrite Ha1. f_equal.
    apply (concat_map_singleton (fun req => (h, req))).
  - by rewrite Ha2.
  - intros p Hp dropped.
    destruct (dropAuthenticated_current p buffered Hp)
      as (_ & _ & Hq & _ & _ & _ & _ & Hd & _).
    fold dropped in Hq, Hd.
    unfold registerRequestHandler.
    cbn [incomingRequestQueue set_requestHandlers]. rewrite Hq.
    cbn [delivered set_requestHandlers incomingRequestQueue].
    by rewrite Hd, Hb2.
Qed.

Lemma registerRequestHandler_empty_queue h s :
  incomingRequestQueue s = [] ->
  delivered (registerRequestHandler h s) = delivered s
  /\ incomingRequestQueue (registerRequestHandler h s) = [].
Proof.
  intros Hq. unfold registerRequestHandler.
  cbn [incomingRequestQueue set_requestHandlers]. by rewrite Hq.
Qed.

(** C9.  Dropping the current authenticated process, be it by the close
    listener or by the failure path of [authenticate], empties the buffer
    of inbound requests: a handler registered afterwards is handed none of
    the requests that were buffered. *)
Theorem dropAuthenticated_discards_queue p s :
  authenticated s = Some p ->
  forall s',
    (s' = dropAuthenticated p s
     \/ (exists code, s' = authenticated_onClose p code s)
     \/ (exists error, s' = authenticate_failed p error s)) ->
    incomingRequestQueue s' = []
    /\ forall h,
         delivered (registerRequestHandler h s') = delivered s
         /\ incomingRequestQueue (registerRequestHandler h s') = [].
Proof.
  intros Hcur s' Hs'.
  destruct (dropAuthenticated_current p s Hcur)
    as (_ & _ & Hq & _ & _ & _ & _ & Hd & _).
  assert (incomingRequestQueue s' = [] /\ delivered s' = delivered s)
    as [Hq' Hd'].
  { destruct Hs' as [-> | [[code ->] | [error ->]]]; [done | |].
    - unfold authenticated_onClose.
      rewrite bool_decide_eq_true_2 by done. simpl.
      destruct (authenticate_reconnect_spec (dropAuthenticated p s))
        as (_ & _ & _ & _ & _ & E1 & E2 & _).
      destruct (_ =? _)%Z; [done |]. destruct (_ =? _)%Z; [done |].
      by rewrite E1, E2.
    - unfold authenticate_failed.
      rewrite bool_decide_eq_true_2 by done. simpl.
      destruct (authenticate_reconnect_spec (dropAuthenticated p s))
        as (_ & _ & _ & _ & _ & E1 & E2 & _).
      destruct error as [code | msg]; [| by rewrite E1, E2].
      destruct (_ || _); [done |]. destruct (_ && _); [done |].
      destruct (authenticate_reconnect_spec
                  (if (code =? -1)%Z
                      && negb (bool_decide
                                 (privIsOnline (dropAuthenticated p s)
                                  = Some false))
                   then emit offline
                          (set_privIsOnline (Some false)
                             (dropAuthenticated p s))
                   else dropAuthenticated p s))
        as (_ & _ & _ & _ & _ & F1 & F2 & _).
      rewrite F1, F2. by destruct (_ && _). }
  split; [done |]. intros h.
  destruct (registerRequestHandler_empty_queue h s' Hq') as [E1 E2].
  by rewrite E1, E2.
Qed.

(** ** Re-entry with unchanged credentials *)

Lemma sameCredentials_empty stored c :
  sameCredentials (Some stored) c = true ->
  emptyCredentials c = emptyCredentials stored.
Proof.
  unfold sameCredentials, emptyCredentials.
  intros [Hu Hp]%andb_true_iff.
  apply String.eqb_eq in Hu, Hp. by rewrite Hu, Hp.
Qed.

(** C3 (amended).  While the manager is not remotely expired, calling
    [authenticate] with credentials equal to the stored ones while an
    authenticated process exists awaits the result of that process and
    returns: the manager is left as it was, so no connection is opened, and
    a failure of the awaited result is logged and not propagated. *)
Theorem authenticate_unchanged_credentials_awaits c fromReconnect p s :
  reachable s ->
  isRemotelyExpired s = false ->
  sameCredentials (credentials s) c = true ->
  authenticated s = Some p ->
  authenticate c fromReconnect s = (AuthenticateAwaitsExisting p, s)
  /\ (forall result, (authenticate_awaitExisting result).1 = Returned)
  /\ (forall error, is_Some (authenticate_awaitExisting (inl error)).2).
Proof.
  intros Hr He Hsame Hcur. split_and!.
  - unfold authenticate. rewrite He.
    destruct (credentials s) as [stored |] eqn:Hc; [| done].
    rewrite (sameCredentials_empty stored c Hsame).
    rewrite (inv_credentials s (reachable_Inv s Hr) stored Hc).
    by rewrite Hsame, Hcur.
  - by intros [].
  - intros error. by eexists.
Qed.

(** ** The status *)


(** ** Remote expiration *)

(** C6 (amended).  Once [onRemoteExpiration] has been called, in every
    later state [authenticate] throws and the reconnect helper returns at
    once, [getUnauthenticatedResource] throws when no unauthenticated
    process exists and otherwise returns the result of the existing
    process; each of them leaves the manager as it was, so none opens a
    connection. *)
Theorem remotely_expired_no_connection s0 s :
  rtc step (onRemoteExpiration s0) s ->
  (forall c fromReconnect,
     authenticate c fromReconnect s = (AuthenticateThrows (HTTPError 0), s))
  /\ authenticate_reconnect s = s
  /\ (unauthenticated s = None ->
      getUnauthenticatedResource s
      = (UnauthenticatedThrows (HTTPError 0), s))
  /\ (forall p, unauthenticated s = Some p ->
      getUnauthenticatedResource s = (UnauthenticatedReturnsResultOf p, s)).
Proof.
  intros Hsteps.
  assert (isRemotelyExpired s = true) as He.
  { eapply steps_expired; [exact Hsteps |].
    unfold onRemoteExpiration, abortReconnectController. simpl.
    by destruct (reconnectController s0). }
  split_and!.
  - intros c b. unfold authenticate. by rewrite He.
  - unfold authenticate_reconnect. by rewrite He.
  - intros Hu. unfold getUnauthenticatedResource. by rewrite Hu, He.
  - intros p Hu. unfold getUnauthenticatedResource. by rewrite Hu.
Qed.

(** C10.  [getUnauthenticatedResource] returns the result of an existing
    unauthenticated process whether or not the manager is remotely
    expired; the expiration check is reached, and throws, only when no such
    process exists. *)
Theorem getUnauthenticatedResource_reuses_process s :
  (forall p, unauthenticated s = Some p ->
     getUnauthenticatedResource s = (UnauthenticatedReturnsResultOf p, s))
  /\ (unauthenticated s = None -> isRemotelyExpired s = true ->
      getUnauthenticatedResource s
      = (UnauthenticatedThrows (HTTPError 0), s)).
Proof.
  unfold getUnauthenticatedResource. split.
  - by intros p ->.
  - by intros -> ->.
Qed.

(** ** The transport variant *)

(** C7.  The transport variant of the unauthenticated channel: the legacy
    variant when a proxy agent is in use or the hostname is missing or
    lacks the suffix signal.org; otherwise the experimental transport on
    staging; on alpha the experimental transport, or high-intensity
    shadowing when the alpha flag is off; on beta high-intensity shadowing,
    or low-intensity shadowing when the beta flag is off; on production
    low-intensity shadowing or the legacy variant, by the production
    flag. *)
Theorem transportOption_selection proxyAgent :
  let v := version options in
  let hostname := URL_hostname (url options) in
  (is_Some proxyAgent \/ hostname = None
   \/ (exists h, hostname = Some h /\ endsWith h "signal.org" = false) ->
   transportOption proxyAgent = Original)
  /\ (proxyAgent = None ->
      (exists h, hostname = Some h /\ endsWith h "signal.org" = true) ->
      (isStaging v = true -> transportOption proxyAgent = Libsignal)
      /\ (isStaging v = false -> isAlpha v = true ->
          transportOption proxyAgent
          = if RemoteConfig_isEnabled
                 "desktop.experimentalTransportEnabled.alpha"
            then Libsignal else ShadowingHigh)
      /\ (isStaging v = false -> isAlpha v = false -> isBeta v = true ->
          transportOption proxyAgent
          = if RemoteConfig_isEnabled
                 "desktop.experimentalTransportEnabled.beta"
            then ShadowingHigh else ShadowingLow)
      /\ (isStaging v = false -> isAlpha v = false -> isBeta v = false ->
          transportOption proxyAgent
          = if RemoteConfig_isEnabled
                 "desktop.experimentalTransportEnabled.prod"
            then ShadowingLow else Original)).
Proof.
  intros v hostname. unfold transportOption. fold hostname v. split.
  - intros [[a ->] | [Hn | (h & Hh & Hs)]].
    + done.
    + rewrite Hn. by destruct proxyAgent.
    + rewrite Hh, Hs. by destruct proxyAgent.
  - intros -> (h & -> & ->). simpl. split_and!.
    + by intros ->.
    + by intros -> ->.
    + by intros -> -> ->.
    + by intros -> -> ->.
Qed.

(** ** The body of a fetch *)

(** C8 (amended).  [fetch] raises nothing synchronously.  Its first
    segment only asks for the resource of the channel the Authorization
    header selects, whatever the body.  When that resource is not
    obtained, or when the URL has no path, the call is rejected with that
    error whatever the body.  Otherwise a body that is absent, a
    Uint8Array or text is forwarded on the resource, text as its bytes
    and the headers as [Headers] lists them, and any other body, an
    ArrayBuffer and [null] among them, rejects the call with the error
    "Unsupported body type".  A call with such a body is rejected in
    every case, and no rejected call sends a request. *)
Theorem fetch_body_types fromString urlPath send entries url init wire :
  (forall get split lower decode body s,
     fetch_acquire get split lower decode (set_init_body body init) s
     = fetch_acquire get split lower decode init s)
  /\ (forall error,
        fetch fromString urlPath send entries (inl error) url init wire
        = (inl error, wire))
  /\ (forall resource,
        urlPath url = None \/ urlPath url = Some "" ->
        fetch fromString urlPath send entries (inr resource) url init wire
        = (inl (OtherError "Fetch can't have empty path"), wire))
  /\ (forall resource p,
        urlPath url = Some p -> p <> "" ->
        (bodySupported (init_body init) ->
         let request :=
           {| verb := default "GET" (init_method init);
              path := p;
              body := match init_body init with
                      | Some (BodyUint8Array bytes) => Some bytes
                      | Some (BodyString text) => Some (fromString text)
                      | _ => None
                      end;
              headers := entries (init_headers init);
              timeout := init_timeout init |} in
         fetch fromString urlPath send entries (inr resource) url init wire
         = (send resource request, wire ++ [(resource, request)]))
        /\ (~ bodySupported (init_body init) ->
            exists type,
              fetch fromString urlPath send entries (inr resource) url init
                wire
              = (inl (OtherError ("Unsupported body type: " +:+ type)),
                 wire)))
  /\ (~ bodySupported (init_body init) ->
      forall acquired, exists error,
        fetch fromString urlPath send entries acquired url init wire
        = (inl error, wire)).
Proof.
  split_and!.
  - reflexivity.
  - reflexivity.
  - intros resource [Hp | Hp]; unfold fetch; by rewrite Hp.
  - intros resource p Hp Hne. unfold fetch. rewrite Hp.
    destruct p as [| a p']; [done |]. split.
    + intros Hb. destruct (init_body init) as [[] |]; simpl in *; done.
    + intros Hb. destruct (init_body init) as [[] |]; simpl in *; try done;
        by eexists.
  - intros Hb acquired. unfold fetch.
    destruct acquired as [e | resource]; [by eexists |].
    destruct (urlPath url) as [[| a p'] |]; try by eexists.
    destruct (init_body init) as [[] |]; simpl in *; try done; by eexists.
Qed.

(** ** Tearing down and restarting *)

Lemma setStatus_not_open st s :
  st <> OPEN ->
  setStatus st s
  = set_emitted
      (emitted s ++ (if bool_decide (status s = st) then []
                     else [statusChange]))
      (set_status st s).
Proof.
  intros Hst. unfold setStatus. case_bool_decide as Heq.
  - destruct s. simpl in *. subst. by rewrite app_nil_r.
  - simpl. rewrite bool_decide_eq_false_2 by done. done.
Qed.

Lemma dropAuthenticated_eq p s :
  authenticated s = Some p ->
  dropAuthenticated p s
  = set_emitted
      (emitted s ++ (if bool_decide (status s = CLOSED) then []
                     else [statusChange]))
      (set_status CLOSED
         (set_authenticated None (set_incomingRequestQueue [] s))).
Proof.
  intros Hcur. unfold dropAuthenticated.
  rewrite bool_decide_eq_true_2 by done.
  by rewrite setStatus_not_open.
Qed.

Lemma dropUnauthenticated_eq p s :
  unauthenticated s = Some p ->
  dropUnauthenticated p s
  = set_unauthenticatedExpirationTimer None (set_unauthenticated None s).
Proof.
  intros Hcur. unfold dropUnauthenticated.
  rewrite bool_decide_eq_true_2 by done. simpl.
  destruct (unauthenticatedExpirationTimer s) eqn:E; [done |].
  destruct s. simpl in *. by subst.
Qed.

Lemma getProxyAgent_eq s :
  getProxyAgent s = set_lazyProxyAgent (lazyProxyAgent s || hasProxyUrl) s.
Proof.
  unfold getProxyAgent. destruct s. simpl.
  destruct hasProxyUrl, lazyProxyAgent0; done.
Qed.

Lemma abortReconnectController_eq s :
  abortReconnectController s
  = set_sleeps
      (match reconnectController s with
       | Some k => alter abortSleep k (sleeps s)
       | None => sleeps s
       end) s.
Proof.
  unfold abortReconnectController. destruct s. simpl.
  by destruct reconnectController0.
Qed.

Lemma authenticate_connects c b s :
  isRemotelyExpired s = false ->
  emptyCredentials c = false ->
  sameCredentials (credentials s) c = false \/ authenticated s = None ->
  authenticate c b s
  = (AuthenticateConnects,
     set_proxyWaiters (proxyWaiters s ++ [AwaitAuthenticate c b])
       (getProxyAgent (setStatus CONNECTING (set_credentials (Some c) s)))).
Proof.
  intros He Hc Hnew. unfold authenticate. rewrite He, Hc.
  replace (if sameCredentials (credentials s) c then authenticated s
           else None) with (@None nat)
    by (destruct Hnew as [-> | ->]; [done | by destruct (sameCredentials _ _)]).
  rewrite getProxyAgent_eq, setStatus_not_open by done. done.
Qed.

(** X1.  [logout] aborts and drops the authenticated process and forgets
    the credentials; it leaves the unauthenticated channel alone and opens
    no connection.  Afterwards neither [getAuthenticatedResource] nor a
    reconnect timer that was still pending starts a connection. *)
Theorem logout_forgets s :
  let s' := logout s in
  authenticated s' = None
  /\ credentials s' = None
  /\ unauthenticated s' = unauthenticated s
  /\ unauthenticatedExpirationTimer s' = unauthenticatedExpirationTimer s
  /\ proxyWaiters s' = proxyWaiters s
  /\ (forall p, authenticated s = Some p ->
      procs s' = alter abortProcess p (procs s)
      /\ status s' = CLOSED /\ incomingRequestQueue s' = [])
  /\ getAuthenticatedResource s' = s'
  /\ (forall controller aborted,
        let woken := authenticate_reconnect_wake controller aborted s' in
        authenticated woken = None
        /\ proxyWaiters woken = proxyWaiters s
        /\ procs woken = procs s').
Proof.
  intros s'. subst s'. unfold logout.
  destruct (authenticated s) as [p |] eqn:Ha.
  - rewrite (dropAuthenticated_eq p (abort p s)) by done. simpl.
    split_and!; try done.
    + intros q [= <-]. done.
    + intros controller aborted. unfold authenticate_reconnect_wake. simpl.
      case_bool_decide; destruct aborted; done.
  - simpl. split_and!; try done.
    + unfold getAuthenticatedResource. simpl. by rewrite Ha.
    + intros controller aborted. unfold authenticate_reconnect_wake. simpl.
      case_bool_decide; destruct aborted; simpl; by rewrite ?Ha.
Qed.

(** X2.  [reconnect] aborts the stored authenticated process and then the
    stored unauthenticated one, changing nothing else in the process
    table, and drops both.  With stored credentials on a manager that is
    not remotely expired it resets the back-off, cancels the pending
    reconnect sleep and starts one fresh authenticated connection attempt;
    on a remotely expired manager, or without credentials, it starts
    none. *)
Theorem reconnect_restarts s :
  let s' := reconnect s in
  authenticated s' = None
  /\ unauthenticated s' = None
  /\ procs s'
     = (let ps :=
          match authenticated s with
          | Some a => alter abortProcess a (procs s)
          | None => procs s
          end in
        match unauthenticated s with
        | Some u => alter abortProcess u ps
        | None => ps
        end)
  /\ length (procs s') = length (procs s)
  /\ (forall c, credentials s = Some c -> emptyCredentials c = false ->
      isRemotelyExpired s = false ->
      status s' = CONNECTING
      /\ credentials s' = Some c
      /\ backOff s' = {| timeouts := timeouts (backOff s); count := 0 |}
      /\ proxyWaiters s' = proxyWaiters s ++ [AwaitAuthenticate c false]
      /\ (forall k t, reconnectController s = Some k ->
          sleeps s !! k = Some (Sleeping t) ->
          sleeps s' !! k = Some SleepAborted))
  /\ (credentials s = None \/ isRemotelyExpired s = true ->
      proxyWaiters s' = proxyWaiters s
      /\ (is_Some (authenticated s) -> status s' = CLOSED)).
Proof.
  intros s'. subst s'. unfold reconnect.
  set (s1 := match authenticated s with Some p => _ | None => s end).
  assert (H1 : authenticated s1 = None
               /\ unauthenticated s1 = unauthenticated s
               /\ length (procs s1) = length (procs s)
               /\ credentials s1 = credentials s
               /\ isRemotelyExpired s1 = isRemotelyExpired s
               /\ proxyWaiters s1 = proxyWaiters s
               /\ backOff s1 = backOff s
               /\ sleeps s1 = sleeps s
               /\ reconnectController s1 = reconnectController s
               /\ (is_Some (authenticated s) -> status s1 = CLOSED)
               /\ procs s1
                  = match authenticated s with
                    | Some a => alter abortProcess a (procs s)
                    | None => procs s
                    end).
  { subst s1. destruct (authenticated s) as [p |] eqn:Ha.
    - rewrite (dropAuthenticated_eq p (abort p s)) by done. simpl.
      rewrite length_alter. done.
    - split_and!; try done; by intros [? ?]. }
  destruct H1 as (A1 & A2 & A4 & A5 & A6 & A7 & A8 & A9 & A10 & A11 & A12).
  set (s2 := match unauthenticated s with Some p => _ | None => s1 end).
  assert (H2 : authenticated s2 = None
               /\ unauthenticated s2 = None
               /\ length (procs s2) = length (procs s)
               /\ credentials s2 = credentials s
               /\ isRemotelyExpired s2 = isRemotelyExpired s
               /\ proxyWaiters s2 = proxyWaiters s
               /\ backOff s2 = backOff s
               /\ sleeps s2 = sleeps s
               /\ reconnectController s2 = reconnectController s
               /\ status s2 = status s1
               /\ procs s2
                  = match unauthenticated s with
                    | Some u =>
                        alter abortProcess u
                          match authenticated s with
                          | Some a => alter abortProcess a (procs s)
                          | None => procs s
                          end
                    | None =>
                        match authenticated s with
                        | Some a => alter abortProcess a (procs s)
                        | None => procs s
                        end
                    end).
  { subst s2. destruct (unauthenticated s) as [p |] eqn:Hu.
    - rewrite (dropUnauthenticated_eq p (abort p s1)) by (simpl; congruence).
      simpl. rewrite length_alter. split_and!; try done. by rewrite A12.
    - split_and!; try done; congruence. }
  destruct H2 as (B1 & B2 & B3 & B4 & B5 & B6 & B7 & B8 & B9 & B10 & B11).
  clearbody s1 s2.
  destruct (credentials s2) as [c |] eqn:Hc.
  - set (s3 := abortReconnectController
                 (set_backOff (BackOff_reset None (backOff s2)) s2)).
    assert (Hs3 : s3 = abortReconnectController
                         (set_backOff (BackOff_reset None (backOff s2)) s2))
      by done.
    rewrite abortReconnectController_eq in Hs3. simpl in Hs3.
    destruct (isRemotelyExpired s) eqn:Hex.
    + assert (authenticate c false s3 = (AuthenticateThrows (HTTPError 0), s3))
        as ->.
      { unfold authenticate. rewrite Hs3. simpl. by rewrite B5. }
      rewrite Hs3. simpl.
      split_and!; try done; try (intros; congruence).
      intros _. split; [done |]. intros Hs. rewrite B10. auto.
    + destruct (emptyCredentials c) eqn:Hem.
      * assert (authenticate c false s3 = (AuthenticateReturns, s3)) as ->.
        { unfold authenticate. rewrite Hs3. simpl. by rewrite B5, Hem. }
        rewrite Hs3. simpl.
        split_and!; try done; try (intros; congruence).
        intros [? | ?]; congruence.
      * rewrite authenticate_connects;
          [| rewrite Hs3; simpl; congruence | done
           | right; rewrite Hs3; simpl; congruence ].
        rewrite getProxyAgent_eq, setStatus_not_open by done.
        rewrite Hs3. simpl.
        split_and!; try done; try (intros [? | ?]; congruence).
        intros c' Hc' _ _. rewrite <- B4 in Hc'. simplify_eq.
        rewrite B6, B7. split_and!; try done.
        intros k t Hk Hsl. rewrite B9, Hk, B8.
        by rewrite list_lookup_alter_eq, Hsl.
  - split_and!; try done; try (intros; congruence).
    intros _. split; [done |]. intros Hs. rewrite B10. auto.
Qed.

(** X3.  [onNavigatorOnline] marks the navigator online, resets the
    back-off to the short sequence and cancels the pending reconnect sleep
    when credentials are stored.  It touches no process.  While an
    authenticated process is stored, and on a remotely expired manager, it
    starts no connection and leaves the status; without a stored process,
    on a manager that is not remotely expired, it starts exactly one
    attempt with the stored credentials. *)
Theorem onNavigatorOnline_reconnects_early s :
  let s' := onNavigatorOnline s in
  isNavigatorOffline s' = false
  /\ backOff s' = {| timeouts := FIBONACCI_TIMEOUTS; count := 0 |}
  /\ procs s' = procs s
  /\ authenticated s' = authenticated s
  /\ (forall c k t, credentials s = Some c -> reconnectController s = Some k ->
      sleeps s !! k = Some (Sleeping t) ->
      sleeps s' !! k = Some SleepAborted)
  /\ (is_Some (authenticated s) ->
      proxyWaiters s' = proxyWaiters s /\ status s' = status s)
  /\ (forall c, authenticated s = None -> credentials s = Some c ->
      emptyCredentials c = false -> isRemotelyExpired s = false ->
      proxyWaiters s' = proxyWaiters s ++ [AwaitAuthenticate c false]
      /\ status s' = CONNECTING)
  /\ (isRemotelyExpired s = true ->
      proxyWaiters s' = proxyWaiters s /\ status s' = status s).
Proof.
  intros s'. subst s'. unfold onNavigatorOnline.
  destruct (credentials s) as [c |] eqn:Hc; simpl; rewrite Hc;
    [| split_and!; try done; intros; congruence ].
  set (s2 := set_backOff _ _).
  assert (Hs2 : s2
                = set_backOff
                    (BackOff_reset (Some FIBONACCI_TIMEOUTS) (backOff s))
                    (set_isNavigatorOffline false s)) by done.
  clearbody s2. rewrite abortReconnectController_eq.
  set (s3 := set_sleeps _ s2).
  assert (Hs3 : s3 = set_sleeps
                       match reconnectController s2 with
                       | Some k => alter abortSleep k (sleeps s2)
                       | None => sleeps s2
                       end s2) by done.
  clearbody s3. rewrite Hs2 in Hs3. simpl in Hs3.
  assert (Hsl : forall k t, reconnectController s = Some k ->
                  sleeps s !! k = Some (Sleeping t) ->
                  sleeps s3 !! k = Some SleepAborted).
  { intros k t Hk Ht. rewrite Hs3. simpl. rewrite Hk.
    by rewrite list_lookup_alter_eq, Ht. }
  destruct (isRemotelyExpired s) eqn:Hex.
  { assert (authenticate c false s3 = (AuthenticateThrows (HTTPError 0), s3))
      as ->.
    { unfold authenticate. rewrite Hs3. simpl. by rewrite Hex. }
    simpl. split_and!; try (rewrite Hs3; done); try done.
    intros c' k t _. apply Hsl. }
  destruct (emptyCredentials c) eqn:Hem.
  { assert (authenticate c false s3 = (AuthenticateReturns, s3)) as ->.
    { unfold authenticate. rewrite Hs3. simpl. by rewrite Hex, Hem. }
    simpl. split_and!; try (rewrite Hs3; done); try done.
    - intros c' k t _. apply Hsl.
    - intros c' _ [= <-]. congruence. }
  destruct (authenticated s) as [p |] eqn:Ha.
  { assert (authenticate c false s3 = (AuthenticateAwaitsExisting p, s3)) as ->.
    { unfold authenticate. rewrite Hs3. simpl. rewrite Hex, Hem, Hc, Ha.
      unfold sameCredentials. by rewrite !String.eqb_refl. }
    simpl. split_and!; try (rewrite Hs3; done); try done.
    intros c' k t _. apply Hsl. }
  rewrite authenticate_connects;
    [| rewrite Hs3; simpl; congruence | done
     | right; rewrite Hs3; simpl; congruence ].
  rewrite getProxyAgent_eq, setStatus_not_open by done. simpl.
  split_and!; try done; try (rewrite Hs3; done).
  - intros c' k t _. apply Hsl.
  - intros c' _ [= <-] _ _. rewrite Hs3. done.
Qed.

(** X4.  A reconnect sleep that was cancelled, or that ends while an
    authenticated process is stored, starts nothing: it only forgets its
    controller.  In particular the sleep pending when [onRemoteExpiration]
    is called ends without a connection attempt. *)
Theorem reconnect_sleep_abandoned controller s :
  (forall aborted,
     aborted = true \/ is_Some (authenticated s) ->
     authenticate_reconnect_wake controller aborted s
     = if bool_decide (reconnectController s = Some controller)
       then set_reconnectController None s else s)
  /\ (forall t,
        reconnectController s = Some controller ->
        sleeps s !! controller = Some (Sleeping t) ->
        exists s',
          exec (SleepDone controller) (onRemoteExpiration s) = Some s'
          /\ procs s' = procs s
          /\ proxyWaiters s' = proxyWaiters s
          /\ authenticated s' = authenticated s
          /\ status s' = status s
          /\ reconnectController s' = None
          /\ sleeps s' = <[controller := SleepSettled]> (sleeps s)).
Proof.
  split.
  - intros aborted H. unfold authenticate_reconnect_wake.
    destruct aborted; [done |]. destruct H as [? | [p Hp]]; [done |].
    case_bool_decide; simpl; by rewrite Hp.
  - intros t Hk Hs. unfold onRemoteExpiration.
    rewrite abortReconnectController_eq. cbn [exec]. simpl.
    rewrite Hk, list_lookup_alter_eq, Hs. simpl. eexists. split; [done |].
    unfold authenticate_reconnect_wake. simpl.
    rewrite bool_decide_eq_true_2 by done. simpl.
    split_and!; try done.
    apply list_eq. intros i. destruct (decide (i = controller)) as [-> |].
    + rewrite !list_lookup_insert_eq; [done | |].
      * by eapply lookup_lt_Some.
      * rewrite length_alter. by eapply lookup_lt_Some.
    + rewrite !list_lookup_insert_ne, list_lookup_alter_ne by done. done.
Qed.

(** X5.  The rotation timer shuts its resource down; if its process is
    still the current unauthenticated one it drops it, clears the timer
    and asks for a fresh connection at once, unless the manager is
    remotely expired; if the process was superseded it does nothing more.
    It never touches the authenticated channel. *)
Theorem unauthenticatedExpirationTimer_rotates p s :
  let s' := unauthenticatedExpirationTimer_fired p s in
  procs s' = alter shutdownProcess p (procs s)
  /\ authenticated s' = authenticated s
  /\ status s' = status s
  /\ (unauthenticated s = Some p ->
      unauthenticated s' = None
      /\ unauthenticatedExpirationTimer s' = None
      /\ proxyWaiters s'
         = proxyWaiters s
           ++ (if isRemotelyExpired s then [] else [AwaitUnauthenticated]))
  /\ (unauthenticated s <> Some p -> s' = shutdown p s).
Proof.
  intros s'. subst s'. unfold unauthenticatedExpirationTimer_fired.
  cbn [unauthenticated shutdown set_procs].
  case_bool_decide as Hcur; simpl.
  - rewrite (dropUnauthenticated_eq p (shutdown p s)) by done.
    unfold getUnauthenticatedResource. simpl.
    destruct (isRemotelyExpired s); simpl.
    + rewrite app_nil_r. split_and!; done.
    + rewrite getProxyAgent_eq. simpl. split_and!; done.
  - split_and!; done.
Qed.

(** X6.  When the unauthenticated socket closes, its process and the
    rotation timer are dropped and nothing reconnects by itself: no sleep,
    no connection attempt.  The next [getUnauthenticatedResource] then
    starts a fresh connection, or throws on a remotely expired manager.  A
    close event of a superseded process changes nothing. *)
Theorem unauthenticated_onClose_reconnects_lazily p s :
  let s' := unauthenticated_onClose p s in
  (unauthenticated s <> Some p -> s' = s)
  /\ (unauthenticated s = Some p ->
      unauthenticated s' = None
      /\ unauthenticatedExpirationTimer s' = None
      /\ proxyWaiters s' = proxyWaiters s
      /\ sleeps s' = sleeps s
      /\ procs s' = procs s
      /\ (getUnauthenticatedResource s').1
         = if isRemotelyExpired s then UnauthenticatedThrows (HTTPError 0)
           else UnauthenticatedConnects).
Proof.
  intros s'. subst s'. unfold unauthenticated_onClose. split.
  - intros Hne. by rewrite bool_decide_eq_false_2.
  - intros Hcur. rewrite bool_decide_eq_true_2 by done. simpl.
    rewrite (dropUnauthenticated_eq p s) by done.
    unfold getUnauthenticatedResource. simpl.
    split_and!; try done. by destruct (isRemotelyExpired s).
Qed.

(** ** Tame segments *)

Lemma alternating_snoc bs b :
  alternating (bs ++ [b]) <-> alternating bs /\ last bs <> Some b.
Proof.
  induction bs as [| b1 [| b2 bs] IH].
  - simpl. split; [intros _; by split | done].
  - simpl. split; [intros [H _] | intros [_ H]]; split; try done;
      congruence.
  - change (b1 <> b2 /\ alternating ((b2 :: bs) ++ [b])
            <-> (b1 <> b2 /\ alternating (b2 :: bs))
                /\ last (b2 :: bs) <> Some b).
    rewrite IH. tauto.
Qed.

Lemma OnlineInv_frame s s' :
  emitted s' = emitted s -> privIsOnline s' = privIsOnline s ->
  status s' = status s -> OnlineInv s -> OnlineInv s'.
Proof. intros He Hp Hs [H1 H2 H3]. split; rewrite ?He, ?Hp, ?Hs; auto. Qed.

Lemma OnlineInv_emit e s :
  e <> online -> e <> offline -> OnlineInv s -> OnlineInv (emit e s).
Proof.
  intros Hon Hoff [H1 H2 H3]. unfold emit.
  assert (onlineEvents (emitted s ++ [e]) = onlineEvents (emitted s)) as E.
  { unfold onlineEvents. rewrite omap_app. simpl.
    destruct e; try done; by rewrite app_nil_r. }
  split; simpl; rewrite ?E; auto.
Qed.

Lemma onlineEvents_statusChange evs :
  onlineEvents (evs ++ [statusChange]) = onlineEvents evs.
Proof. unfold onlineEvents. rewrite omap_app. simpl. by rewrite app_nil_r. Qed.

Lemma OnlineInv_setStatus st s : OnlineInv s -> OnlineInv (setStatus st s).
Proof.
  intros [H1 H2 H3]. unfold setStatus. case_bool_decide as Heq; [done |].
  simpl. destruct st; simpl.
  - split; simpl; rewrite ?onlineEvents_statusChange; auto. done.
  - split; simpl; rewrite ?onlineEvents_statusChange; auto. done.
  - destruct (privIsOnline s) as [[] |] eqn:Hon; simpl.
    + split; simpl; rewrite ?onlineEvents_statusChange; auto; congruence.
    + split; simpl; [| | done].
      * unfold onlineEvents. rewrite omap_app. simpl. by rewrite last_snoc.
      * unfold onlineEvents. rewrite omap_app. simpl.
        apply alternating_snoc. fold (onlineEvents (emitted s ++ [statusChange])).
        rewrite onlineEvents_statusChange. split; [done |]. by rewrite <- H1.
    + split; simpl; [| | done].
      * unfold onlineEvents. rewrite omap_app. simpl. by rewrite last_snoc.
      * unfold onlineEvents. rewrite omap_app. simpl.
        apply alternating_snoc. fold (onlineEvents (emitted s ++ [statusChange])).
        rewrite onlineEvents_statusChange. split; [done |]. by rewrite <- H1.
Qed.

Lemma OnlineInv_offline s :
  status s <> OPEN -> privIsOnline s <> Some false ->
  OnlineInv s -> OnlineInv (emit offline (set_privIsOnline (Some false) s)).
Proof.
  intros Hst Hoff [H1 H2 H3]. split; simpl.
  - unfold onlineEvents. rewrite omap_app. simpl. by rewrite last_snoc.
  - unfold onlineEvents in *. rewrite omap_app. simpl.
    apply alternating_snoc. split; [done |]. by rewrite <- H1.
  - done.
Qed.

Lemma fmap_alter_same {A B} (h : A -> B) (g : A -> A) i (l : list A) :
  (forall x, h (g x) = h x) -> h <$> alter g i l = h <$> l.
Proof.
  intros Hg. revert i. induction l as [| x l IH]; intros [| i]; simpl;
    try done.
  - by rewrite Hg.
  - f_equal. apply IH.
Qed.

Lemma processKind_abort q (ps : list AbortableProcess) :
  processKind <$> alter abortProcess q ps = processKind <$> ps.
Proof.
  apply fmap_alter_same. intros pr. unfold abortProcess, processKind.
  by destruct (pstate pr).
Qed.

Lemma processKind_shutdown q (ps : list AbortableProcess) :
  processKind <$> alter shutdownProcess q ps = processKind <$> ps.
Proof.
  apply fmap_alter_same. intros pr. unfold shutdownProcess, processKind.
  by destruct (pstate pr).
Qed.

Lemma processKind_set_pstate q st (ps : list AbortableProcess) :
  processKind <$> alter (set_pstate st) q ps = processKind <$> ps.
Proof. by apply fmap_alter_same. Qed.

Lemma tame_refl s : tame s s.
Proof.
  split; auto. exists []. by rewrite app_nil_r.
Qed.

Lemma tame_trans s1 s2 s3 : tame s1 s2 -> tame s2 s3 -> tame s1 s3.
Proof.
  intros [E1 L1 (ws1 & W1 & C1) K1 H1 D1 Q1 O1]
         [E2 L2 (ws2 & W2 & C2) K2 H2 D2 Q2 O2].
  split; auto; try congruence.
  - exists (ws1 ++ ws2). split; [by rewrite W2, W1, app_assoc |].
    intros Hne. destruct ws2 as [| w ws2].
    + rewrite app_nil_r in Hne. destruct (C1 Hne) as [? ?]. auto.
    + destruct (C2 ltac:(done)) as [He ?]. split; [| done].
      destruct (isRemotelyExpired s1) eqn:E; [| done].
      rewrite E1 in He; done.
  - destruct Q2 as [-> | ->]; auto.
Qed.

Lemma tame_wide s s' : wide s' = wide s -> tame s s'.
Proof.
  unfold wide. intros [= He Hl Hw Hk Hh Hd Hq Hem Hp Hs].
  split; try congruence; auto.
  - exists []. by rewrite app_nil_r.
  - by apply OnlineInv_frame.
Qed.

Lemma tame_setStatus st s : tame s (setStatus st s).
Proof.
  destruct (setStatus_frame st s)
    as (_ & _ & Hp & He & Hq & _ & Hh & Hd & _ & _ & _ & Hw & _).
  split; try congruence; auto.
  - unfold setStatus. case_bool_decide; [done |]. by destruct (_ && _).
  - exists []. by rewrite app_nil_r.
  - apply OnlineInv_setStatus.
Qed.

Lemma tame_abort q s : tame s (abort q s).
Proof.
  apply tame_wide. unfold wide, abort. simpl.
  by rewrite processKind_abort.
Qed.

Lemma tame_shutdown q s : tame s (shutdown q s).
Proof.
  apply tame_wide. unfold wide, shutdown. simpl.
  by rewrite processKind_shutdown.
Qed.

Lemma tame_set_process_state q st s : tame s (set_process_state q st s).
Proof.
  apply tame_wide. unfold wide, set_process_state. simpl.
  by rewrite processKind_set_pstate.
Qed.

Lemma tame_dropAuthenticated p s : tame s (dropAuthenticated p s).
Proof.
  unfold dropAuthenticated. case_bool_decide; [| apply tame_refl].
  eapply tame_trans; [| apply tame_setStatus].
  split; simpl; auto.
  - exists []. by rewrite app_nil_r.
  - by apply OnlineInv_frame.
Qed.

Lemma tame_dropUnauthenticated p s : tame s (dropUnauthenticated p s).
Proof.
  apply tame_wide. unfold dropUnauthenticated. case_bool_decide; [| done].
  by destruct (unauthenticatedExpirationTimer _).
Qed.

Lemma tame_authenticate_reconnect s : tame s (authenticate_reconnect s).
Proof.
  apply tame_wide. unfold authenticate_reconnect.
  destruct (isRemotelyExpired s); [done |].
  by destruct (BackOff_getAndIncrement (backOff s)).
Qed.

Lemma tame_abortReconnectController s : tame s (abortReconnectController s).
Proof. apply tame_wide. by rewrite abortReconnectController_eq. Qed.

(** Enqueueing a call for the proxy agent, after [getProxyAgent]. *)
Lemma tame_enqueue w s :
  isRemotelyExpired s = false ->
  tame s (set_proxyWaiters (proxyWaiters (getProxyAgent s) ++ [w])
            (getProxyAgent s)).
Proof.
  intros He. rewrite getProxyAgent_eq. split; simpl; auto.
  - intros ->. done.
  - exists [w]. split; [done |]. intros _. split; [done |].
    intros ->. by rewrite orb_true_r.
  - by apply OnlineInv_frame.
Qed.

Lemma tame_authenticate c b s : tame s (authenticate c b s).2.
Proof.
  unfold authenticate.
  destruct (isRemotelyExpired s) eqn:He; [apply tame_refl |].
  destruct (emptyCredentials c); [apply tame_refl |].
  destruct (if sameCredentials _ _ then _ else _); [apply tame_refl |].
  cbn [snd].
  eapply tame_trans; [| apply tame_enqueue].
  - eapply tame_trans; [| apply tame_setStatus]. by apply tame_wide.
  - destruct (setStatus_frame CONNECTING (set_credentials (Some c) s))
      as (_ & _ & _ & E & _). by rewrite E.
Qed.

Lemma tame_getUnauthenticatedResource s :
  tame s (getUnauthenticatedResource s).2.
Proof.
  unfold getUnauthenticatedResource.
  destruct (unauthenticated s); [apply tame_refl |].
  destruct (isRemotelyExpired s) eqn:He; [apply tame_refl |].
  by apply tame_enqueue.
Qed.

Lemma tame_authenticate_failed p e s : tame s (authenticate_failed p e s).
Proof.
  unfold authenticate_failed.
  destruct (bool_decide (authenticated s = Some p)) eqn:Hcur;
    [| apply tame_refl]. apply bool_decide_eq_true in Hcur. simpl.
  pose proof (tame_dropAuthenticated p s) as HD.
  destruct (dropAuthenticated_current p s Hcur) as (_ & Hst & _).
  simpl in Hst.
  assert (forall ev, ev <> online -> ev <> offline ->
            tame (dropAuthenticated p s) (emit ev (dropAuthenticated p s)))
    as Hemit.
  { intros ev H1 H2. split; simpl; auto.
    - exists []. by rewrite app_nil_r.
    - by apply OnlineInv_emit. }
  destruct e as [code | msg];
    [| by eapply tame_trans; [| apply tame_authenticate_reconnect]].
  destruct (_ || _); [by eapply tame_trans; [exact HD | apply Hemit] |].
  destruct (_ && _); [done |].
  eapply tame_trans; [| apply tame_authenticate_reconnect].
  destruct ((code =? -1)%Z && _) eqn:Hoff; [| done].
  eapply tame_trans; [exact HD |].
  apply andb_true_iff in Hoff as [_ Hoff].
  apply negb_true_iff, bool_decide_eq_false in Hoff.
  split; simpl; auto.
  - exists []. by rewrite app_nil_r.
  - apply OnlineInv_offline; [congruence | done].
Qed.

Lemma tame_authenticated_onClose p code s :
  tame s (authenticated_onClose p code s).
Proof.
  unfold authenticated_onClose. destruct (negb _); [apply tame_refl |].
  pose proof (tame_dropAuthenticated p s) as HD.
  destruct (_ =? _)%Z; [done |]. destruct (_ =? _)%Z; [done |].
  by eapply tame_trans; [| apply tame_authenticate_reconnect].
Qed.

Lemma tame_authenticate_reconnect_wake c b s :
  tame s (authenticate_reconnect_wake c b s).
Proof.
  unfold authenticate_reconnect_wake.
  set (s1 := if bool_decide _ then _ else s).
  assert (tame s s1) as H1.
  { subst s1. case_bool_decide; [by apply tame_wide | apply tame_refl]. }
  destruct b; [done |].
  destruct (authenticated s1); [done |].
  destruct (credentials s1) as [cr |]; [| done].
  pose proof (tame_authenticate cr true s1) as HA.
  destruct (authenticate cr true s1) as [[] s2]; simpl in HA;
    try (by eapply tame_trans).
  eapply tame_trans; [| apply tame_authenticate_reconnect].
  by eapply tame_trans.
Qed.

Lemma tame_abort_drop p s : tame s (dropAuthenticated p (abort p s)).
Proof. eapply tame_trans; [apply tame_abort | apply tame_dropAuthenticated]. Qed.

Lemma tame_reconnect s : tame s (reconnect s).
Proof.
  unfold reconnect.
  set (s1 := match authenticated s with Some p => _ | None => s end).
  assert (tame s s1) as H1.
  { subst s1. destruct (authenticated s);
      [apply tame_abort_drop | apply tame_refl]. }
  set (s2 := match unauthenticated s with Some p => _ | None => s1 end).
  assert (tame s s2) as H2.
  { subst s2. destruct (unauthenticated s); [| done].
    eapply tame_trans; [exact H1 |].
    eapply tame_trans; [apply tame_abort | apply tame_dropUnauthenticated]. }
  destruct (credentials s2); [| done].
  eapply tame_trans; [exact H2 |].
  eapply tame_trans; [| apply tame_authenticate].
  eapply tame_trans; [| apply tame_abortReconnectController].
  by apply tame_wide.
Qed.

Lemma tame_onRejected pr p e s : tame s (onRejected pr p e s).
Proof.
  unfold onRejected. destruct (pname pr); [apply tame_authenticate_failed |].
  destruct (isLibsignal pr); [apply tame_refl |].
  apply tame_dropUnauthenticated.
Qed.

Lemma tame_authenticate_connected p s : tame s (authenticate_connected p s).
Proof.
  unfold authenticate_connected.
  eapply tame_trans; [apply tame_setStatus |]. by apply tame_wide.
Qed.

Lemma exec_tame l s s' :
  (forall b, l <> ProxyAgentSettled b) ->
  (forall h, l <> CallRegisterRequestHandler h) ->
  (forall h, l <> CallUnregisterRequestHandler h) ->
  (forall p r, l <> IncomingRequest p r) ->
  exec l s = Some s' -> tame s s'.
Proof.
  intros N1 N2 N3 N4 Hx. destruct l; cbn [exec] in Hx;
    try (by edestruct N1); try (by edestruct N2);
    try (by edestruct N3); try (by edestruct N4).
  - simplify_eq. apply tame_authenticate.
  - simplify_eq. unfold getAuthenticatedResource.
    destruct (authenticated s); [apply tame_refl |].
    destruct (credentials s); [apply tame_authenticate | apply tame_refl].
  - simplify_eq. apply tame_getUnauthenticatedResource.
  - simplify_eq. apply tame_reconnect.
  - simplify_eq. unfold onHasStoriesDisabledChange.
    destruct (Bool.eqb _ _); [apply tame_refl |].
    eapply tame_trans; [| apply tame_reconnect]. by apply tame_wide.
  - simplify_eq. unfold onNavigatorOnline.
    set (s2 := set_backOff _ _). assert (tame s s2) as H2 by (by apply tame_wide).
    destruct (credentials s2); [| done].
    eapply tame_trans; [exact H2 |].
    eapply tame_trans; [apply tame_abortReconnectController |].
    apply tame_authenticate.
  - simplify_eq. by apply tame_wide.
  - simplify_eq. unfold onRemoteExpiration.
    eapply tame_trans; [| apply tame_abortReconnectController].
    split; simpl; auto.
    + exists []. by rewrite app_nil_r.
    + by apply OnlineInv_frame.
  - simplify_eq. unfold logout.
    set (s1 := match authenticated s with Some p => _ | None => s end).
    assert (tame s s1) as H1.
    { subst s1. destruct (authenticated s);
        [apply tame_abort_drop | apply tame_refl]. }
    eapply tame_trans; [exact H1 |]. by apply tame_wide.
  - destruct (procs s !! p) as [pr |] eqn:Hp; [| done].
    destruct (pstate pr) eqn:Hst; try done. simplify_eq.
    apply tame_set_process_state.
  - destruct (procs s !! p) as [pr |] eqn:Hp; [| done].
    destruct (pname pr); [| done].
    destruct (pstate pr); try done; case_bool_decide; simplify_eq;
      apply tame_authenticate_connected.
  - destruct (procs s !! p) as [pr |] eqn:Hp; [| done].
    destruct (pstate pr) eqn:Hst; try done. simplify_eq.
    eapply tame_trans; [apply tame_set_process_state | apply tame_onRejected].
  - destruct (procs s !! p) as [pr |] eqn:Hp; [| done].
    destruct (pstate pr) eqn:Hst; try done. simplify_eq.
    eapply tame_trans; [apply tame_set_process_state | apply tame_onRejected].
  - destruct (procs s !! p) as [pr |] eqn:Hp; [| done].
    pose proof (tame_set_process_state p Closed s) as H1.
    destruct (pstate pr) eqn:Hst; try done; simplify_eq;
      (destruct (pname pr);
       [ case_bool_decide; [| done];
         eapply tame_trans; [exact H1 | apply tame_authenticated_onClose]
       | destruct (isLibsignal pr); [done |];
         unfold unauthenticated_onClose; destruct (negb _); [done |];
         eapply tame_trans; [exact H1 | apply tame_dropUnauthenticated] ]).
  - destruct (sleeps s !! controller) as [[] |]; try done; simplify_eq;
      (eapply tame_trans; [| apply tame_authenticate_reconnect_wake]);
      by apply tame_wide.
  - destruct (procs s !! p) as [pr |]; [| done].
    destruct (getResult p s) as [[] |]; try done.
    destruct (pname pr); [done |]. simplify_eq.
    unfold startUnauthenticatedExpirationTimer.
    destruct (unauthenticatedExpirationTimer s);
      [apply tame_refl | by apply tame_wide].
  - destruct (unauthenticatedExpirationTimer s) as [t |]; [| done].
    destruct (timerFired t); [done |]. simplify_eq.
    unfold unauthenticatedExpirationTimer_fired.
    set (s0 := set_unauthenticatedExpirationTimer _ s).
    assert (tame s (shutdown (timerProcess t) s0)) as H1.
    { eapply tame_trans; [| apply tame_shutdown]. by apply tame_wide. }
    destruct (negb _); [done |].
    eapply tame_trans; [exact H1 |].
    eapply tame_trans; [apply tame_dropUnauthenticated |].
    apply tame_getUnauthenticatedResource.
Qed.

Lemma queueOrHandleRequest_outer req s :
  outer (queueOrHandleRequest req s) = outer s.
Proof. unfold queueOrHandleRequest. by destruct (requestHandlers s). Qed.

Lemma receive_outer reqs s : outer (receive reqs s) = outer s.
Proof.
  unfold receive. revert s. induction reqs as [| r reqs IH]; intros s;
    simpl; [done |]. by rewrite IH, queueOrHandleRequest_outer.
Qed.

Lemma registerRequestHandler_outer h s :
  outer (registerRequestHandler h s) = outer s.
Proof.
  unfold registerRequestHandler. simpl.
  destruct (incomingRequestQueue s) as [| r q] eqn:E; [done |].
  change (outer (receive (r :: q)
                   (set_incomingRequestQueue []
                      (set_requestHandlers (Set_add h (requestHandlers s)) s)))
          = outer s).
  by rewrite receive_outer.
Qed.

Lemma exec_handlers_outer l s s' :
  (exists h, l = CallRegisterRequestHandler h)
  \/ (exists h, l = CallUnregisterRequestHandler h)
  \/ (exists p r, l = IncomingRequest p r) ->
  exec l s = Some s' -> outer s' = outer s.
Proof.
  intros [[h ->] | [[h ->] | (p & r & ->)]]; cbn [exec]; intros Hx.
  - simplify_eq. apply registerRequestHandler_outer.
  - by simplify_eq.
  - destruct (procs s !! p) as [pr |]; [| done].
    destruct (pname pr); [| done].
    destruct (pstate pr); try done; simplify_eq;
      apply queueOrHandleRequest_outer.
Qed.

Lemma exec_proxy resolved s s' :
  exec (ProxyAgentSettled resolved) s = Some s' ->
  exists w ws,
    proxyWaiters s = w :: ws
    /\ proxyWaiters s' = ws
    /\ inner s' = inner s
    /\ (resolved = false ->
        lazyProxyAgent s = true /\ procs s' = procs s)
    /\ (resolved = true ->
        exists pr,
          processKind <$> procs s' = (processKind <$> procs s) ++ [processKind pr]
          /\ match w with
             | AwaitAuthenticate _ _ =>
                 processKind pr = (AuthenticatedChannel, None, false)
             | AwaitUnauthenticated =>
                 exists t,
                   t = transportOption (resolvedProxyAgent s)
                   /\ processKind pr
                      = (UnauthenticatedChannel, Some t,
                         bool_decide (t = ShadowingHigh \/ t = ShadowingLow))
             end).
Proof.
  cbn [exec]. destruct (proxyWaiters s) as [| w ws] eqn:Hw; [done |].
  intros Hx. exists w, ws. split; [done |].
  destruct resolved.
  - simplify_eq. destruct w as [c b |].
    + unfold authenticate_connect, connectResource. simpl.
      destruct (authenticated s) as [q |]; simpl;
        (split_and!; [done | done | done |]); intros _;
        eexists; rewrite ?processKind_abort, fmap_app; simpl; done.
    + unfold getUnauthenticatedResource_connect.
      change (resolvedProxyAgent (set_proxyWaiters ws s))
        with (resolvedProxyAgent s).
      set (t := transportOption (resolvedProxyAgent s)).
      case_bool_decide as Ht; simpl;
        (split_and!; [done | done | done |]); intros _;
        eexists; rewrite fmap_app; simpl; (split; [done |]);
        exists t; (split; [done |]).
      * rewrite Ht. unfold processKind. simpl. f_equal.
      * unfold processKind. simpl. f_equal.
        destruct t; try done.
  - destruct (lazyProxyAgent s) eqn:Hl; [| done]. simplify_eq.
    destruct w as [c [] |]; simpl;
      try (split_and!; done).
    unfold authenticate_reconnect. simpl.
    destruct (isRemotelyExpired s); simpl; split_and!; done.
Qed.

(** ** Invariants of the reachable states, continued *)

(** Uses [exec_tame] on a step that is neither the proxy agent settling
    nor a segment of the request handlers. *)
Ltac tame_step Hx s s' k :=
  let H := fresh "Htame" in
  assert (tame s s') as H by (eapply exec_tame; [.. | exact Hx]; done);
  k H.



Lemma NoDup_Set_add h (hs : list IRequestHandler) :
  NoDup hs -> NoDup (Set_add h hs).
Proof.
  intros Hnd. unfold Set_add. case_bool_decide as Hin; [done |].
  apply NoDup_app. split_and!; [done | | apply NoDup_singleton].
  intros x Hx ->%list_elem_of_singleton. done.
Qed.

Lemma Set_add_nonempty h hs : Set_add h hs <> [].
Proof.
  unfold Set_add. case_bool_decide as Hin.
  - intros ->. by apply not_elem_of_nil in Hin.
  - by destruct hs.
Qed.

Lemma BufferInv_exec l s s' : BufferInv s -> exec l s = Some s' -> BufferInv s'.
Proof.
  intros [HB HN] Hx.
  destruct l;
    try (tame_step Hx s s' ltac:(fun H => destruct H as [_ _ _ _ Hh _ Hq _]);
         split; rewrite Hh; [| done];
         intros Hne; destruct Hq as [-> | ->]; auto; done).
  - cbn [exec] in Hx. simplify_eq. unfold registerRequestHandler.
    cbn [incomingRequestQueue set_requestHandlers].
    destruct (incomingRequestQueue s) as [| r q] eqn:Eq.
    + split; simpl; [by intros _ | by apply NoDup_Set_add].
    + destruct (Set_add h (requestHandlers s)) as [| h0 hs0] eqn:Eh;
        [by destruct (Set_add_nonempty h (requestHandlers s)) |].
      destruct (receive_dispatches (r :: q) h0 hs0
                  (set_incomingRequestQueue []
                     (set_requestHandlers (h0 :: hs0) s)))
        as (_ & E2 & E3); [done |].
      unfold receive in E2, E3. split.
      * intros _. by rewrite E2.
      * rewrite E3, <- Eh. by apply NoDup_Set_add.
  - cbn [exec] in Hx. simplify_eq. unfold unregisterRequestHandler.
    split; simpl.
    + intros Hne. apply HB. intros E. rewrite E in Hne. done.
    + unfold Set_delete. by apply NoDup_filter.
  - apply exec_proxy in Hx as (w & ws & _ & _ & [= ? ? Hh ? Hq ? ? ?] & _).
    split; rewrite Hh; [| done]. rewrite Hq. done.
  - cbn [exec] in Hx.
    destruct (procs s !! p) as [pr |]; [| done].
    destruct (pname pr); [| done].
    assert (s' = queueOrHandleRequest req s) as ->
      by (destruct (pstate pr); try done; by simplify_eq).
    unfold queueOrHandleRequest.
    destruct (requestHandlers s) as [| h0 hs0] eqn:Eh; split; simpl;
      rewrite ?Eh; done.
Qed.

(** X8.  In every reachable state requests wait in the buffer only while
    no handler is registered, and no handler is registered twice. *)
Theorem buffer_only_without_handlers s :
  reachable s ->
  (requestHandlers s <> [] -> incomingRequestQueue s = [])
  /\ NoDup (requestHandlers s).
Proof.
  intros Hr.
  assert (BufferInv s) as [H1 H2]; [| done].
  apply (rtc_ind_r (R := step) (fun z => BufferInv z) SocketManager_new);
    [split; [done | apply NoDup_nil_2] | | exact Hr].
  intros y z _ [l Hx] IH. by eapply BufferInv_exec.
Qed.

Lemma legacy_kinds (ps ps' : list AbortableProcess) :
  processKind <$> ps' = processKind <$> ps ->
  Forall legacyProcess ps -> Forall legacyProcess ps'.
Proof.
  revert ps'. induction ps as [| pr ps IH]; intros [| pr' ps'] E; try done.
  simpl in E. injection E as E1 E2 E3 E4.
  intros [Hl Hr]%Forall_cons. apply Forall_cons. split; [| by apply IH].
  unfold legacyProcess in *. by rewrite E2, E3.
Qed.

Lemma legacy_kinds_snoc (ps ps' : list AbortableProcess) pr :
  processKind <$> ps' = (processKind <$> ps) ++ [processKind pr] ->
  Forall legacyProcess ps -> legacyProcess pr -> Forall legacyProcess ps'.
Proof.
  intros E Hps Hpr.
  apply (legacy_kinds (ps ++ [pr])); [by rewrite fmap_app |].
  apply Forall_app. by split; [| apply Forall_singleton].
Qed.

Lemma transportOption_proxy : transportOption (Some proxyAgentObject) = Original.
Proof. done. Qed.

Lemma ProxyInv_exec l s s' :
  hasProxyUrl = true -> ProxyInv s -> exec l s = Some s' -> ProxyInv s'.
Proof.
  intros Hproxy [HW HL] Hx.
  destruct l;
    try (tame_step Hx s s'
           ltac:(fun H => destruct H as [_ Hl (ws & Hw & Hc) Hk _ _ _ _]);
         split; [| by eapply legacy_kinds];
         intros Hne; destruct ws as [| w ws];
         [ rewrite app_nil_r in Hw; rewrite Hw in Hne; auto
         | destruct Hc as [_ Hc]; auto ]).
  - apply exec_handlers_outer in Hx as [= ? Hl Hw Hp ? ? ? ?]; [| eauto].
    split; by rewrite ?Hl, ?Hw, ?Hp.
  - apply exec_handlers_outer in Hx as [= ? Hl Hw Hp ? ? ? ?]; [| eauto].
    split; by rewrite ?Hl, ?Hw, ?Hp.
  - apply exec_proxy in Hx
      as (w & ws & Hw & Hws & [= ? Hl ? ? ? ? ? ?] & Hf & Ht).
    assert (lazyProxyAgent s = true) as Hlazy by (apply HW; by rewrite Hw).
    split.
    + intros _. congruence.
    + destruct resolved.
      * destruct (Ht eq_refl) as (pr & Hk & Hpr).
        eapply legacy_kinds_snoc; [exact Hk | done |].
        destruct w as [c b |].
        -- injection Hpr as _ E2 E3. split; auto.
        -- destruct Hpr as (t & -> & Hpr).
           unfold resolvedProxyAgent in Hpr. rewrite Hlazy in Hpr.
           rewrite transportOption_proxy in Hpr.
           injection Hpr as _ E2 E3. split; auto.
      * destruct (Hf eq_refl) as [_ ->]. done.
  - apply exec_handlers_outer in Hx as [= ? Hl Hw Hp ? ? ? ?];
      [| right; right; eauto].
    split; by rewrite ?Hl, ?Hw, ?Hp.
Qed.

(** X9.  With a proxy URL configured, every process the manager ever
    creates is on the legacy transport and has no shadowing connection:
    the transport experiment is never run through a proxy. *)
Theorem proxy_forces_legacy_transport s :
  hasProxyUrl = true -> reachable s -> Forall legacyProcess (procs s).
Proof.
  intros Hproxy Hr.
  assert (ProxyInv s) as [_ H]; [| done].
  apply (rtc_ind_r (R := step) (fun z => ProxyInv z) SocketManager_new);
    [by split | | exact Hr].
  intros y z _ [l Hx] IH. by eapply ProxyInv_exec.
Qed.

(** X10.  Once the manager is remotely expired and no call waits for the
    proxy agent any more, no later step creates a process: whatever is
    called on the manager and whatever the network does, no connection of
    the authenticated or of the unauthenticated channel is attempted
    again.  (The provisioning and external sockets are not processes of
    the two channels.) *)
Theorem remotely_expired_never_connects s s' :
  rtc step s s' ->
  isRemotelyExpired s = true -> proxyWaiters s = [] ->
  isRemotelyExpired s' = true
  /\ proxyWaiters s' = []
  /\ length (procs s') = length (procs s)
  /\ processKind <$> procs s' = processKind <$> procs s.
Proof.
  intros Hsteps. induction Hsteps as [| x y z [l Hx] _ IH]; [done |].
  intros He Hw.
  assert (isRemotelyExpired y = true /\ proxyWaiters y = []
          /\ processKind <$> procs y = processKind <$> procs x)
    as (He' & Hw' & Hk).
  { destruct l;
      try (tame_step Hx x y
             ltac:(fun H => destruct H as [HE _ (ws & Hws & Hc) HK _ _ _ _]);
           split_and!; [by apply HE | | done];
           destruct ws as [| w ws]; [by rewrite Hws, Hw |];
           destruct Hc as [Hc _]; [done | congruence]).
    - apply exec_handlers_outer in Hx as [= E1 ? E3 E4 ? ? ? ?]; [| eauto].
      by rewrite E1, E3, E4.
    - apply exec_handlers_outer in Hx as [= E1 ? E3 E4 ? ? ? ?]; [| eauto].
      by rewrite E1, E3, E4.
    - apply exec_proxy in Hx as (w & ws & Hws & _). congruence.
    - apply exec_handlers_outer in Hx as [= E1 ? E3 E4 ? ? ? ?];
        [| right; right; eauto].
      by rewrite E1, E3, E4. }
  destruct (IH He' Hw') as (I1 & I2 & I3 & I4).
  split_and!; try done; try congruence.
  rewrite I3. apply (f_equal length) in Hk. by rewrite !length_fmap in Hk.
Qed.

(** X11.  In every reachable state the stored credentials, if any, have a
    user name or a password: [authenticate] never stores the empty pair. *)
Theorem stored_credentials_not_empty s c :
  reachable s -> credentials s = Some c ->
  ~ (username c = "" /\ password c = "").
Proof.
  intros Hr Hc [Hu Hp].
  pose proof (inv_credentials s (reachable_Inv s Hr) c Hc) as He.
  unfold emptyCredentials in He. by rewrite Hu, Hp in He.
Qed.

(** ** At most one live process on the authenticated channel *)

Lemma live_alter f q (ps : list AbortableProcess) p :
  (forall pr, pname (f pr) = pname pr) ->
  (forall pr, pstate (f pr) = Connecting \/ pstate (f pr) = Connected ->
              pstate pr = Connecting \/ pstate pr = Connected) ->
  liveAuthenticated (alter f q ps) p -> liveAuthenticated ps p.
Proof.
  intros Hn Hs (pr & Hl & Hname & Hst).
  rewrite list_lookup_alter in Hl. destruct (decide (q = p)) as [-> |].
  - destruct (ps !! p) as [pr0 |] eqn:E; simplify_eq/=.
    exists pr0. rewrite Hn in Hname. auto.
  - exists pr. auto.
Qed.

Lemma live_alter_eq f q (ps : list AbortableProcess) :
  (forall pr, pstate (f pr) <> Connecting /\ pstate (f pr) <> Connected) ->
  ~ liveAuthenticated (alter f q ps) q.
Proof.
  intros Hs (pr & Hl & _ & Hst).
  rewrite list_lookup_alter_eq in Hl.
  destruct (ps !! q) as [pr0 |]; simplify_eq/=.
  destruct (Hs pr0). by destruct Hst.
Qed.

Lemma abortProcess_live pr :
  pstate (abortProcess pr) <> Connecting
  /\ pstate (abortProcess pr) <> Connected.
Proof.
  unfold abortProcess. destruct (pstate pr) eqn:E; simpl; by rewrite ?E.
Qed.

Lemma shutdownProcess_live pr :
  pstate (shutdownProcess pr) = Connecting
  \/ pstate (shutdownProcess pr) = Connected ->
  pstate pr = Connecting \/ pstate pr = Connected.
Proof.
  unfold shutdownProcess. destruct (pstate pr) eqn:E; simpl;
    rewrite ?E; auto; intros [? | ?]; done.
Qed.

Lemma LiveInv_frame s s' :
  authenticated s' = authenticated s -> procs s' = procs s ->
  LiveInv s -> LiveInv s'.
Proof. unfold LiveInv. intros -> ->. done. Qed.

Lemma LiveInv_core s s' : core s' = core s -> LiveInv s -> LiveInv s'.
Proof. unfold core. intros [= _ Ha _ Hp _ _]. by apply LiveInv_frame. Qed.

Lemma LiveInv_alter f q s :
  (forall pr, pname (f pr) = pname pr) ->
  (forall pr, pstate (f pr) = Connecting \/ pstate (f pr) = Connected ->
              pstate pr = Connecting \/ pstate pr = Connected) ->
  LiveInv s -> LiveInv (set_procs (alter f q (procs s)) s).
Proof.
  intros Hn Hs HL p Hp. simpl in *. apply HL. by eapply live_alter.
Qed.

Lemma LiveInv_abort q s : LiveInv s -> LiveInv (abort q s).
Proof.
  apply LiveInv_alter; [apply abortProcess_name |].
  intros pr H. destruct (abortProcess_live pr). by destruct H.
Qed.

Lemma LiveInv_shutdown q s : LiveInv s -> LiveInv (shutdown q s).
Proof.
  apply LiveInv_alter; [apply shutdownProcess_name | apply shutdownProcess_live].
Qed.

Lemma LiveInv_set_process_state q st s :
  st <> Connecting -> st <> Connected ->
  LiveInv s -> LiveInv (set_process_state q st s).
Proof.
  intros H1 H2. apply LiveInv_alter; simpl; [done |].
  intros pr [? | ?]; done.
Qed.

Lemma not_live_abort q s : ~ liveAuthenticated (procs (abort q s)) q.
Proof. apply live_alter_eq, abortProcess_live. Qed.

Lemma not_live_set_process_state q st s :
  st <> Connecting -> st <> Connected ->
  ~ liveAuthenticated (procs (set_process_state q st s)) q.
Proof. intros H1 H2. apply live_alter_eq. simpl. done. Qed.

Lemma LiveInv_setStatus st s : LiveInv s -> LiveInv (setStatus st s).
Proof.
  destruct (setStatus_frame st s) as (Ha & _ & Hp & _).
  by apply LiveInv_frame.
Qed.

Lemma LiveInv_dropAuthenticated p s :
  ~ liveAuthenticated (procs s) p -> LiveInv s ->
  LiveInv (dropAuthenticated p s).
Proof.
  intros Hp HL. unfold dropAuthenticated. case_bool_decide as Hcur; [| done].
  apply LiveInv_setStatus. intros q Hq. simpl in *.
  apply HL in Hq as Hq'. rewrite Hcur in Hq'. by simplify_eq.
Qed.

Lemma LiveInv_authenticate c b s : LiveInv s -> LiveInv (authenticate c b s).2.
Proof.
  intros HL. unfold authenticate.
  destruct (isRemotelyExpired s); [done |].
  destruct (emptyCredentials c); [done |].
  destruct (if sameCredentials _ _ then _ else _); [done |]. simpl.
  eapply LiveInv_core; [apply getProxyAgent_core |].
  apply LiveInv_setStatus. by eapply LiveInv_frame; [| | exact HL].
Qed.

Lemma LiveInv_authenticate_reconnect s :
  LiveInv s -> LiveInv (authenticate_reconnect s).
Proof. apply LiveInv_core, authenticate_reconnect_core. Qed.

Lemma LiveInv_authenticate_connect s :
  Inv s -> LiveInv s -> LiveInv (authenticate_connect s).
Proof.
  intros HI HL. unfold authenticate_connect, connectResource. simpl.
  set (new := {| pname := AuthenticatedChannel; ptransport := None;
                 pshadowing := negb true; pstate := Connecting |}).
  assert (Hold : forall p, p < length (procs s) ->
            liveAuthenticated (procs s ++ [new]) p ->
            authenticated s = Some p).
  { intros p Hlt (pr & Hl & Hn & Hst). apply HL.
    rewrite lookup_app_l in Hl by done. by exists pr. }
  assert (Hrange : forall p, liveAuthenticated (procs s ++ [new]) p ->
            p < length (procs s) \/ p = length (procs s)).
  { intros p (pr & Hl & _). apply lookup_lt_Some in Hl.
    rewrite length_app in Hl. simpl in Hl. lia. }
  intros p Hp. destruct (authenticated s) as [q |] eqn:Ha; simpl in *.
  - destruct (decide (p = q)) as [-> | Hne].
    + by destruct (not_live_abort q (set_procs (procs s ++ [new]) s)).
    + assert (liveAuthenticated (procs s ++ [new]) p) as Hp'.
      { eapply live_alter; [apply abortProcess_name | | exact Hp].
        intros pr H. destruct (abortProcess_live pr). by destruct H. }
      destruct (Hrange p Hp') as [Hlt | ->]; [| done].
      apply Hold in Hp'; [| done]. by simplify_eq.
  - destruct (Hrange p Hp) as [Hlt | ->]; [| done].
    by apply Hold in Hp.
Qed.

Lemma LiveInv_authenticate_connected p s :
  LiveInv s -> LiveInv (authenticate_connected p s).
Proof.
  intros HL. unfold authenticate_connected.
  eapply LiveInv_frame; [done | done |]. by apply LiveInv_setStatus.
Qed.

(** An attempt that connects was live and stays so. *)
Lemma LiveInv_connected p pr s :
  procs s !! p = Some pr -> pstate pr = Connecting ->
  LiveInv s -> LiveInv (set_process_state p Connected s).
Proof.
  intros Hp Hst HL q (pr' & Hl & Hn' & Hst'). simpl in *.
  apply HL. rewrite list_lookup_alter in Hl.
  destruct (decide (p = q)) as [-> |].
  - rewrite Hp in Hl. simplify_eq/=. exists pr. auto.
  - exists pr'. auto.
Qed.

Lemma LiveInv_authenticate_failed p e s :
  ~ liveAuthenticated (procs s) p -> LiveInv s ->
  LiveInv (authenticate_failed p e s).
Proof.
  intros Hp HL. unfold authenticate_failed.
  destruct (negb _); [done |].
  pose proof (LiveInv_dropAuthenticated p s Hp HL) as HD.
  destruct e as [code | msg]; [| by apply LiveInv_authenticate_reconnect].
  destruct (_ || _); [by eapply LiveInv_frame; [| | exact HD] |].
  destruct (_ && _); [done |].
  apply LiveInv_authenticate_reconnect.
  destruct (_ && _); [| done]. by eapply LiveInv_frame; [| | exact HD].
Qed.

Lemma LiveInv_authenticated_onClose p code s :
  ~ liveAuthenticated (procs s) p -> LiveInv s ->
  LiveInv (authenticated_onClose p code s).
Proof.
  intros Hp HL. unfold authenticated_onClose.
  destruct (negb _); [done |].
  pose proof (LiveInv_dropAuthenticated p s Hp HL) as HD.
  destruct (_ =? _)%Z; [done |]. destruct (_ =? _)%Z; [done |].
  by apply LiveInv_authenticate_reconnect.
Qed.

Lemma LiveInv_authenticate_reconnect_wake c b s :
  LiveInv s -> LiveInv (authenticate_reconnect_wake c b s).
Proof.
  intros HL. unfold authenticate_reconnect_wake.
  set (s1 := if bool_decide _ then _ else s).
  assert (LiveInv s1) as HL1.
  { subst s1. case_bool_decide; [| done]. by eapply LiveInv_frame; [| | exact HL]. }
  destruct b; [done |].
  destruct (authenticated s1); [done |].
  destruct (credentials s1) as [cr |]; [| done].
  pose proof (LiveInv_authenticate cr true s1 HL1) as HA.
  destruct (authenticate cr true s1) as [[] s2]; simpl in HA; try done.
  by apply LiveInv_authenticate_reconnect.
Qed.

Lemma LiveInv_abort_drop p s :
  LiveInv s -> LiveInv (dropAuthenticated p (abort p s)).
Proof.
  intros HL. apply LiveInv_dropAuthenticated; [apply not_live_abort |].
  by apply LiveInv_abort.
Qed.

Lemma LiveInv_reconnect s : LiveInv s -> LiveInv (reconnect s).
Proof.
  intros HL. unfold reconnect.
  set (s1 := match authenticated s with Some p => _ | None => s end).
  assert (LiveInv s1) as HL1.
  { subst s1. destruct (authenticated s); [| done]. by apply LiveInv_abort_drop. }
  set (s2 := match unauthenticated s with Some p => _ | None => s1 end).
  assert (LiveInv s2) as HL2.
  { subst s2. destruct (unauthenticated s); [| done].
    eapply LiveInv_core; [apply dropUnauthenticated_core |].
    by apply LiveInv_abort. }
  destruct (credentials s2); [| done].
  apply LiveInv_authenticate.
  eapply LiveInv_core; [apply abortReconnectController_core |].
  by eapply LiveInv_frame; [| | exact HL2].
Qed.

Lemma LiveInv_new_unauthenticated pr s :
  pname pr = UnauthenticatedChannel ->
  LiveInv s ->
  LiveInv (set_unauthenticated (Some (length (procs s)))
             (set_procs (procs s ++ [pr]) s)).
Proof.
  intros Hn HL p (pr' & Hl & Hn' & Hst). simpl in *. apply HL.
  destruct (decide (p < length (procs s))) as [Hlt | Hge].
  - rewrite lookup_app_l in Hl by done. by exists pr'.
  - rewrite lookup_app_r in Hl by lia.
    destruct (p - length (procs s)) as [| k]; simplify_eq/=. congruence.
Qed.

Lemma LiveInv_getUnauthenticatedResource_connect s :
  LiveInv s -> LiveInv (getUnauthenticatedResource_connect s).
Proof.
  intros HL. unfold getUnauthenticatedResource_connect.
  case_bool_decide; simpl; by apply LiveInv_new_unauthenticated.
Qed.

Lemma LiveInv_onRejected pr p e s :
  ~ liveAuthenticated (procs s) p -> LiveInv s -> LiveInv (onRejected pr p e s).
Proof.
  intros Hp HL. unfold onRejected.
  destruct (pname pr); [by apply LiveInv_authenticate_failed |].
  destruct (isLibsignal pr); [done |].
  by eapply LiveInv_core; [apply dropUnauthenticated_core |].
Qed.

Lemma LiveInv_exec l s s' :
  Inv s -> LiveInv s -> exec l s = Some s' -> LiveInv s'.
Proof.
  intros HI HL Hx. destruct l; cbn [exec] in Hx.
  - simplify_eq. by apply LiveInv_authenticate.
  - simplify_eq. unfold getAuthenticatedResource.
    destruct (authenticated s); [done |].
    destruct (credentials s); [| done]. by apply LiveInv_authenticate.
  - simplify_eq.
    by eapply LiveInv_core; [apply getUnauthenticatedResource_core |].
  - simplify_eq. by eapply LiveInv_core; [apply registerRequestHandler_core |].
  - simplify_eq. by eapply LiveInv_frame; [| | exact HL].
  - simplify_eq. by apply LiveInv_reconnect.
  - simplify_eq. unfold onHasStoriesDisabledChange.
    destruct (Bool.eqb _ _); [done |]. apply LiveInv_reconnect.
    by eapply LiveInv_frame; [| | exact HL].
  - simplify_eq. unfold onNavigatorOnline. simpl.
    destruct (credentials s); [| by eapply LiveInv_frame; [| | exact HL]].
    apply LiveInv_authenticate.
    eapply LiveInv_core; [apply abortReconnectController_core |].
    by eapply LiveInv_frame; [| | exact HL].
  - simplify_eq. by eapply LiveInv_frame; [| | exact HL].
  - simplify_eq. unfold onRemoteExpiration.
    rewrite abortReconnectController_eq.
    by eapply LiveInv_frame; [| | exact HL].
  - simplify_eq. unfold logout.
    set (s1 := match authenticated s with Some p => _ | None => s end).
    assert (LiveInv s1) as HL1.
    { subst s1. destruct (authenticated s); [| done].
      by apply LiveInv_abort_drop. }
    intros p Hp. simpl in *. apply HL1 in Hp as Hp'.
    subst s1. destruct (authenticated s) as [q |] eqn:Ha.
    + rewrite (dropAuthenticated_eq q (abort q s)) in Hp' by done. done.
    + by rewrite Ha in Hp'.
  - destruct (proxyWaiters s) as [| w ws] eqn:Hw; [done |].
    assert (LiveInv (set_proxyWaiters ws s)) as HL1
      by (by eapply LiveInv_frame; [| | exact HL]).
    assert (Inv (set_proxyWaiters ws s)) as HI1
      by (by eapply Inv_core; [| exact HI]).
    destruct resolved.
    + simplify_eq. destruct w.
      * by apply LiveInv_authenticate_connect.
      * by apply LiveInv_getUnauthenticatedResource_connect.
    + destruct (lazyProxyAgent s); [| done]. simplify_eq.
      destruct w as [c [] |]; try done.
      by apply LiveInv_authenticate_reconnect.
  - destruct (procs s !! p) as [pr |] eqn:Hp; [| done].
    destruct (pstate pr) eqn:Hst; try done. simplify_eq.
    by eapply LiveInv_connected.
  - destruct (procs s !! p) as [pr |] eqn:Hp; [| done].
    destruct (pname pr); [| done].
    destruct (pstate pr); try done; case_bool_decide; simplify_eq;
      by apply LiveInv_authenticate_connected.
  - destruct (procs s !! p) as [pr |] eqn:Hp; [| done].
    destruct (pstate pr) eqn:Hst; try done. simplify_eq.
    apply LiveInv_onRejected; [by apply not_live_set_process_state |].
    by apply LiveInv_set_process_state.
  - destruct (procs s !! p) as [pr |] eqn:Hp; [| done].
    destruct (pstate pr) eqn:Hst; try done. simplify_eq.
    apply LiveInv_onRejected; [by apply not_live_set_process_state |].
    by apply LiveInv_set_process_state.
  - destruct (procs s !! p) as [pr |] eqn:Hp; [| done].
    assert (LiveInv (set_process_state p Closed s)) as HL1
      by (by apply LiveInv_set_process_state).
    assert (~ liveAuthenticated (procs (set_process_state p Closed s)) p)
      as Hnp by (by apply not_live_set_process_state).
    destruct (pstate pr) eqn:Hst; try done; simplify_eq;
      (destruct (pname pr);
       [ case_bool_decide; [| done];
         by apply LiveInv_authenticated_onClose
       | destruct (isLibsignal pr); [done |];
         unfold unauthenticated_onClose; destruct (negb _); [done |];
         by eapply LiveInv_core; [apply dropUnauthenticated_core |] ]).
  - destruct (sleeps s !! controller) as [[] |]; try done; simplify_eq;
      apply LiveInv_authenticate_reconnect_wake;
      by eapply LiveInv_frame; [| | exact HL].
  - destruct (procs s !! p) as [pr |]; [| done].
    destruct (getResult p s) as [[] |]; try done.
    destruct (pname pr); [done |]. simplify_eq.
    unfold startUnauthenticatedExpirationTimer.
    destruct (unauthenticatedExpirationTimer s); [done |].
    by eapply LiveInv_frame; [| | exact HL].
  - destruct (unauthenticatedExpirationTimer s) as [t |]; [| done].
    destruct (timerFired t); [done |]. simplify_eq.
    unfold unauthenticatedExpirationTimer_fired.
    set (s0 := set_unauthenticatedExpirationTimer _ s).
    assert (LiveInv (shutdown (timerProcess t) s0)) as H1.
    { apply LiveInv_shutdown. by eapply LiveInv_frame; [| | exact HL]. }
    destruct (negb _); [done |].
    eapply LiveInv_core; [apply getUnauthenticatedResource_core |].
    by eapply LiveInv_core; [apply dropUnauthenticated_core |].
  - destruct (procs s !! p) as [pr |]; [| done].
    destruct (pname pr); [| done].
    destruct (pstate pr); try done; simplify_eq;
      by eapply LiveInv_core; [apply queueOrHandleRequest_core |].
Qed.

(** X12.  In every reachable state an attempt or connection of the
    authenticated channel that is still live (connecting or connected, and
    not told to stop) is the stored process; so at most one is live at a
    time, and a superseded one has always been aborted. *)
Theorem single_live_authenticated_process s p q :
  reachable s ->
  liveAuthenticated (procs s) p -> liveAuthenticated (procs s) q ->
  authenticated s = Some p /\ p = q.
Proof.
  intros Hr Hp Hq.
  assert (Inv s /\ LiveInv s) as [_ HL].
  { apply (rtc_ind_r (R := step) (fun z => Inv z /\ LiveInv z)
             SocketManager_new); [| | exact Hr].
    - split; [apply Inv_new |]. intros x (pr & Hl & _). done.
    - intros y z _ [l Hx] [HI HL]. split; [by eapply Inv_exec |].
      by eapply LiveInv_exec. }
  pose proof (HL p Hp) as E1. pose proof (HL q Hq) as E2.
  split; [done |]. congruence.
Qed.

Lemma run_steps ls s s' : run ls s = Some s' -> rtc step s s'.
Proof.
  revert s. induction ls as [| l ls IH]; intros s; simpl.
  - by intros [= <-].
  - destruct (exec l s) as [s1 |] eqn:Hx; [| done].
    intros Hr. eapply rtc_l; [by exists l | by apply IH].
Qed.

End Manager.

(** ** The model run on concrete inputs *)

Abbreviation example_run :=
  (run example_options example_hostname example_false example_false
     example_false example_false example_timeouts example_timeouts).

Abbreviation example_reachable :=
  (reachable example_options example_hostname example_false example_false
     example_false example_false example_timeouts example_timeouts).

Abbreviation example_step :=
  (step example_options example_hostname example_false example_false
     example_false example_false example_timeouts example_timeouts).

Lemma example_new_eq :
  SocketManager_new example_options example_timeouts = example_new.
Proof. reflexivity. Qed.

Lemma example_runs_reachable ls s :
  example_run ls example_new = Some s -> example_reachable s.
Proof. apply run_reachable. apply rtc_refl. Qed.

Lemma example_connecting_run :
  example_run [CallAuthenticate alice; ProxyAgentSettled true] example_new
  = Some example_connecting.
Proof. vm_compute. reflexivity. Qed.

Lemma example_connected_run :
  example_run [CallAuthenticate alice; ProxyAgentSettled true;
               ProcessConnected 0; AuthenticateResumed 0] example_new
  = Some example_connected.
Proof. vm_compute. reflexivity. Qed.

Lemma example_unauthenticated_run :
  example_run [CallGetUnauthenticatedResource; ProxyAgentSettled true;
               ProcessConnected 0] example_new
  = Some example_unauthenticated.
Proof. vm_compute. reflexivity. Qed.

(** C1, counterexample.  The first connection attempt fails with 503
    while its process is the current one: a reconnect is scheduled, but the
    manager is not marked offline and no [offline] event is emitted. *)
Lemma authenticate_failed_503_not_offline :
  example_run [CallAuthenticate alice; ProxyAgentSettled true] example_new
  = Some example_connecting
  /\ authenticated example_connecting = Some 0
  /\ let s' := authenticate_failed 0 (HTTPError 503) example_connecting in
     privIsOnline s' <> Some false
     /\ emitted s' = [statusChange; statusChange]
     /\ sleeps s' = [Sleeping 1000].
Proof.
  split; [exact example_connecting_run |].
  split; [reflexivity |]. vm_compute. split; [discriminate | done].
Qed.

Lemma authenticate_failed_policy_witness :
  authenticated example_connecting = Some 0
  /\ authenticated (authenticate_failed 0 (HTTPError 401) example_connecting)
     = None.
Proof.
  split; [reflexivity |].
  exact (proj1 (authenticate_failed_policy 0 401 example_connecting eq_refl)).
Defined.

Lemma authenticated_onClose_policy_witness :
  authenticated example_connected = Some 0
  /\ isRemotelyExpired example_connected = false
  /\ length (sleeps (authenticated_onClose 0 1006 example_connected))
     = S (length (sleeps example_connected)).
Proof.
  split; [reflexivity |]. split; [reflexivity |].
  refine (proj2 (proj1 (proj2 (proj2
    (authenticated_onClose_policy 0 1006 example_connected eq_refl eq_refl)))
    _ _)); discriminate.
Defined.

(** C3, counterexample.  The authenticated socket is connected with
    alice's credentials and the manager has been told of its remote
    expiration: [authenticate(alice)] throws instead of awaiting the
    existing process and returning. *)
Lemma authenticate_unchanged_credentials_expired_throws :
  example_run [CallAuthenticate alice; ProxyAgentSettled true;
               ProcessConnected 0; AuthenticateResumed 0;
               CallOnRemoteExpiration] example_new
  = Some (onRemoteExpiration example_connected)
  /\ let s := onRemoteExpiration example_connected in
     sameCredentials (credentials s) alice = true
     /\ authenticated s = Some 0
     /\ authenticate example_options alice false s
        = (AuthenticateThrows (HTTPError 0), s).
Proof. vm_compute. done. Qed.

Lemma authenticate_unchanged_credentials_awaits_witness :
  example_reachable example_connected
  /\ isRemotelyExpired example_connected = false
  /\ sameCredentials (credentials example_connected) alice = true
  /\ authenticated example_connected = Some 0
  /\ authenticate example_options alice false example_connected
     = (AuthenticateAwaitsExisting 0, example_connected).
Proof.
  assert (example_reachable example_connected) as Hr.
  { eapply example_runs_reachable. exact example_connected_run. }
  split; [exact Hr |]. do 3 (split; [reflexivity |]).
  exact (proj1 (authenticate_unchanged_credentials_awaits
                  example_options example_hostname example_false
                  example_false example_false example_false
                  example_timeouts example_timeouts
                  alice false 0 example_connected Hr eq_refl eq_refl eq_refl)).
Defined.

(** C4, counterexample.  Two requests arrive on the authenticated socket
    while no handler is registered, the socket closes, and a handler is
    registered: it is handed neither of the two requests, the buffer was
    emptied when the closed process was dropped. *)
Lemma registerRequestHandler_after_close_replays_nothing :
  exists buffered s,
    example_run [CallAuthenticate alice; ProxyAgentSettled true;
                 ProcessConnected 0; AuthenticateResumed 0;
                 IncomingRequest 0 1; IncomingRequest 0 2] example_new
    = Some buffered
    /\ requestHandlers buffered = []
    /\ incomingRequestQueue buffered = [1; 2]
    /\ example_run [ResourceClosed 0 1006; CallRegisterRequestHandler 7]
         buffered = Some s
    /\ requestHandlers s = [7]
    /\ delivered s = []
    /\ incomingRequestQueue s = [].
Proof.
  eexists _, _. split; [vm_compute; reflexivity |].
  do 2 (split; [reflexivity |]). split; [vm_compute; reflexivity |]. done.
Qed.

Lemma registerRequestHandler_replays_queue_witness :
  requestHandlers example_connected = []
  /\ delivered (registerRequestHandler 7 (receive [1; 2; 3] example_connected))
     = [(7, 1); (7, 2); (7, 3)]
  /\ delivered
       (registerRequestHandler 7
          (dropAuthenticated 0 (receive [1; 2; 3] example_connected)))
     = [].
Proof.
  destruct (registerRequestHandler_replays_queue [1; 2; 3] [4] 7
              example_connected eq_refl)
    as (_ & _ & Hd & _ & _ & _ & Hdrop).
  split; [reflexivity |]. split; [exact Hd |].
  exact (proj1 (proj2 (Hdrop 0 eq_refl))).
Defined.


(** The other direction does not hold either: when the first attempt
    connects while a second [authenticate] awaits the proxy agent, the
    second call then replaces the connected process by one that is still
    connecting, and the status stays OPEN: an OPEN status does not tell
    that the stored process is connected. *)
Lemma status_open_with_connecting_process :
  exists s,
    example_run [CallAuthenticate alice; ProxyAgentSettled true;
                 CallAuthenticate alice'; ProcessConnected 0;
                 AuthenticateResumed 0;
                 ProxyAgentSettled true] example_new = Some s
    /\ status s = OPEN
    /\ authenticated s = Some 1
    /\ procs s !! 1
       = Some (example_process AuthenticatedChannel None Connecting).
Proof. eexists. split; [vm_compute; reflexivity |]. done. Qed.

(** Nor does an OPEN status tell that a process is stored: the attempt
    connects, [logout] is called before the awaiting [authenticate] has
    resumed, and the resumed call then opens the status of a manager that
    has dropped its process and forgotten its credentials. *)
Lemma status_open_without_process :
  exists s,
    example_run [CallAuthenticate alice; ProxyAgentSettled true;
                 ProcessConnected 0; CallLogout; AuthenticateResumed 0]
      example_new = Some s
    /\ status s = OPEN
    /\ authenticated s = None
    /\ credentials s = None
    /\ procs s
       = [example_process AuthenticatedChannel None ShuttingDown].
Proof. eexists. split; [vm_compute; reflexivity |]. done. Qed.


(** C6, counterexample.  The unauthenticated socket is connected and the
    manager is then told of its remote expiration:
    [getUnauthenticatedResource] does not fail, it returns the result of
    the existing process, a live resource. *)
Lemma getUnauthenticatedResource_expired_returns_resource :
  example_run [CallGetUnauthenticatedResource; ProxyAgentSettled true;
               ProcessConnected 0; CallOnRemoteExpiration] example_new
  = Some (onRemoteExpiration example_unauthenticated)
  /\ let s := onRemoteExpiration example_unauthenticated in
     isRemotelyExpired s = true
     /\ getUnauthenticatedResource example_options s
        = (UnauthenticatedReturnsResultOf 0, s)
     /\ getResult 0 s = Some (inr 0).
Proof. vm_compute. done. Qed.

Lemma remotely_expired_no_connection_witness :
  example_step (onRemoteExpiration example_connected)
    (onRemoteExpiration example_connected)
  /\ authenticate example_options alice' false
       (onRemoteExpiration example_connected)
     = (AuthenticateThrows (HTTPError 0),
        onRemoteExpiration example_connected).
Proof.
  assert (example_step (onRemoteExpiration example_connected)
            (onRemoteExpiration example_connected)) as Hs.
  { exists (CallAuthenticate alice). reflexivity. }
  split; [exact Hs |].
  exact (proj1 (remotely_expired_no_connection
                  example_options example_hostname example_false
                  example_false example_false example_false
                  example_timeouts example_timeouts
                  example_connected (onRemoteExpiration example_connected)
                  (rtc_once _ _ Hs))
           alice' false).
Defined.

Lemma transportOption_selection_witness :
  example_hostname (url example_options) = Some "chat.signal.org"
  /\ endsWith "chat.signal.org" "signal.org" = true
  /\ transportOption example_options example_hostname
       (fun _ => false) (fun _ => false) (fun _ => true) (fun _ => true) None
     = ShadowingHigh.
Proof.
  split; [reflexivity |]. split; [reflexivity |].
  refine (proj1 (proj2 (proj2
    (proj2 (transportOption_selection example_options example_hostname
              (fun _ => false) (fun _ => false) (fun _ => true)
              (fun _ => true) None)
       eq_refl _))) eq_refl eq_refl eq_refl).
  exists "chat.signal.org". split; reflexivity.
Defined.

(** C8, counterexample.  [fetch] is called on a fresh manager with an
    ArrayBuffer as body.  Nothing is raised in the segment that runs
    synchronously: it asks for the unauthenticated resource, which starts
    a connection.  When that connection fails with 503 the call is
    rejected with that error, not with the usage error; and with the
    resource obtained but a URL without a path it is rejected for the
    path. *)
Lemma fetch_unsupported_body_connects_first :
  let init :=
    {| init_method := None; init_headers := [];
       init_body := Some (BodyArrayBuffer []); init_timeout := None |} in
  ~ bodySupported (init_body init)
  /\ (let '(channel, s) :=
        fetch_acquire example_options (fun _ _ => None) (fun _ => ("", None))
          (fun h => h) (fun h => h) init example_new in
      channel = UnauthenticatedChannel
      /\ proxyWaiters s = [AwaitUnauthenticated])
  /\ fetch (fun _ => []) (fun _ => Some "/v1/config") (fun _ _ => inr 200)
       (fun h => h) (inl (HTTPError 503))
       "https://chat.signal.org/v1/config" init []
     = (inl (HTTPError 503), [])
  /\ fetch (fun _ => []) (fun _ => None) (fun _ _ => inr 200)
       (fun h => h) (inr 0) "https://chat.signal.org" init []
     = (inl (OtherError "Fetch can't have empty path"), []).
Proof. intros init. split; [by intros [] |]. vm_compute. done. Qed.

Lemma fetch_body_types_witness :
  let init :=
    {| init_method := None; init_headers := [("Accept", "*/*")];
       init_body := Some (BodyString "hi"); init_timeout := None |} in
  bodySupported (init_body init)
  /\ fetch (fun _ => ["h"%byte; "i"%byte]) (fun _ => Some "/v1/config")
       (fun _ _ => inr 200) (fun _ => [("accept", "*/*")]) (inr 0)
       "https://chat.signal.org/v1/config" init []
     = (inr 200,
        [(0, {| verb := "GET"; path := "/v1/config";
                body := Some ["h"%byte; "i"%byte];
                headers := [("accept", "*/*")]; timeout := None |})]).
Proof.
  intros init. split; [exact I |].
  destruct (fetch_body_types example_options
              (fun _ => ["h"%byte; "i"%byte])
              (fun _ => Some "/v1/config") (fun _ _ => inr 200)
              (fun _ => [("accept", "*/*")])
              "https://chat.signal.org/v1/config" init [])
    as (_ & _ & _ & H & _).
  refine (proj1 (H 0 "/v1/config" eq_refl _) I). discriminate.
Defined.

Lemma dropAuthenticated_discards_queue_witness :
  let s := receive [1; 2] example_connected in
  authenticated s = Some 0
  /\ incomingRequestQueue s = [1; 2]
  /\ delivered (registerRequestHandler 7 (authenticated_onClose 0 1006 s))
     = [].
Proof.
  intros s. split; [reflexivity |]. split; [reflexivity |].
  refine (proj1 (proj2 (dropAuthenticated_discards_queue 0 s eq_refl
                          (authenticated_onClose 0 1006 s) _) 7)).
  right. left. by exists 1006%Z.
Defined.

Lemma getUnauthenticatedResource_reuses_process_witness :
  let s := onRemoteExpiration example_unauthenticated in
  unauthenticated s = Some 0
  /\ getUnauthenticatedResource example_options s
     = (UnauthenticatedReturnsResultOf 0, s).
Proof.
  intros s. split; [reflexivity |].
  exact (proj1 (getUnauthenticatedResource_reuses_process example_options s)
           0 eq_refl).
Defined.

(** ** [isAuthenticated] *)

Lemma splitOn_cons_inv sep s x xs :
  splitOn sep s = x :: xs ->
  hasChar sep x = false
  /\ ((xs = [] /\ s = x)
      \/ exists s', s = x +:+ String sep s' /\ splitOn sep s' = xs).
Proof.
  revert x xs. induction s as [| c s IH]; intros x xs; simpl.
  - intros [= <- <-]. split; [done |]. by left.
  - destruct (Ascii.eqb c sep) eqn:Hc.
    + intros [= <- <-]. apply Ascii.eqb_eq in Hc as ->.
      split; [done |]. right. by exists s.
    + destruct (splitOn sep s) as [| piece pieces] eqn:Hs.
      * intros [= <- <-]. simpl. rewrite Hc.
        destruct s; simpl in Hs; [done |].
        destruct (Ascii.eqb _ _); [done |]. by destruct (splitOn sep s).
      * intros [= <- <-].
        destruct (IH piece pieces eq_refl) as [Hp [[-> ->] | (s' & -> & E)]].
        -- split; [simpl; by rewrite Hc, Hp |]. by left.
        -- split; [simpl; by rewrite Hc, Hp |]. right. by exists s'.
Qed.

Lemma splitOn_whole sep s : hasChar sep s = false -> splitOn sep s = [s].
Proof.
  induction s as [| c s IH]; simpl; [done |].
  intros [Hc Hs]%orb_false_iff. rewrite Hc, (IH Hs). done.
Qed.

Lemma splitOn_app sep u t :
  hasChar sep u = false ->
  splitOn sep (u +:+ String sep t) = u :: splitOn sep t.
Proof.
  induction u as [| c u IH]; simpl.
  - intros _. by rewrite Ascii.eqb_refl.
  - intros [Hc Hu]%orb_false_iff. rewrite Hc, (IH Hu). done.
Qed.

Lemma append_empty_r (s : string) : s +:+ "" = s.
Proof.
  induction s as [| c s IH]; [done |].
  change (String c (s +:+ "") = String c s). by rewrite IH.
Qed.

(** What [take 2 (splitOn sep s)] yields as a pair. *)
Lemma split2_pair sep s u p :
  take 2 (splitOn sep s) = [u; p]
  <-> hasChar sep u = false /\ hasChar sep p = false
      /\ exists rest,
           s = u +:+ String sep (p +:+ rest)
           /\ (rest = "" \/ exists junk, rest = String sep junk).
Proof.
  split.
  - destruct (splitOn sep s) as [| x [| y ys]] eqn:E; try done.
    intros [= -> ->].
    destruct (splitOn_cons_inv sep s u (p :: ys) E)
      as [Hu [[? _] | (s' & -> & E')]]; [done |].
    destruct (splitOn_cons_inv sep s' p ys E')
      as [Hp [[_ ->] | (s'' & -> & _)]].
    + split_and!; [done | done |]. exists "". split; [| by left].
      by rewrite append_empty_r.
    + split_and!; [done | done |]. exists (String sep s'').
      split; [done |]. right. by exists s''.
  - intros (Hu & Hp & rest & -> & Hrest).
    rewrite splitOn_app by done. destruct Hrest as [-> | [junk ->]].
    + rewrite append_empty_r, splitOn_whole by done. done.
    + rewrite splitOn_app by done. done.
Qed.

(** X13.  [isAuthenticated] holds exactly when credentials are stored, the
    Authorization header is present and not empty, its first piece is
    "basic" in any letter case, a second piece is present and not empty,
    and what it decodes to is the stored user name, a colon and the stored
    password, alone or followed by a colon and anything.  So credentials
    whose user name or password holds a colon are never recognised. *)
Theorem isAuthenticated_basic_credentials splitWhitespace toLowerCase
    decodeBase64 authorization s :
  (isAuthenticated splitWhitespace toLowerCase decodeBase64 authorization s
   = true
   <-> exists stored header basic encoded rest,
         credentials s = Some stored
         /\ authorization = Some header /\ header <> ""
         /\ splitWhitespace header = (basic, Some encoded) /\ encoded <> ""
         /\ toLowerCase basic = "basic"
         /\ decodeBase64 encoded
            = username stored +:+ String ":" (password stored +:+ rest)
         /\ (rest = "" \/ exists junk, rest = String ":" junk)
         /\ hasChar ":" (username stored) = false
         /\ hasChar ":" (password stored) = false)
  /\ (forall stored,
        credentials s = Some stored ->
        hasChar ":" (username stored) || hasChar ":" (password stored) = true ->
        isAuthenticated splitWhitespace toLowerCase decodeBase64
          authorization s = false).
Proof.
  assert (Hiff :
    isAuthenticated splitWhitespace toLowerCase decodeBase64 authorization s
    = true
    <-> exists stored header basic encoded rest,
          credentials s = Some stored
          /\ authorization = Some header /\ header <> ""
          /\ splitWhitespace header = (basic, Some encoded) /\ encoded <> ""
          /\ toLowerCase basic = "basic"
          /\ decodeBase64 encoded
             = username stored +:+ String ":" (password stored +:+ rest)
          /\ (rest = "" \/ exists junk, rest = String ":" junk)
          /\ hasChar ":" (username stored) = false
          /\ hasChar ":" (password stored) = false).
  { unfold isAuthenticated. split.
    - destruct (credentials s) as [stored |]; [| done].
      destruct authorization as [[| c header] |]; try done.
      destruct (splitWhitespace (String c header)) as [basic base64] eqn:Hsp.
      destruct base64 as [[| c' encoded] |]; try done.
      destruct (String.eqb (toLowerCase basic) "basic") eqn:Hb; [| done].
      simpl negb. cbv iota.
      destruct (take 2 (splitOn ":" (decodeBase64 (String c' encoded))))
        as [| user [| pass [| ? ?]]] eqn:Ht; try done.
      intros [Hu Hp]%andb_true_iff.
      apply String.eqb_eq in Hu as ->. apply String.eqb_eq in Hp as ->.
      apply String.eqb_eq in Hb.
      apply split2_pair in Ht as (Hu & Hp & rest & Hd & Hrest).
      exists stored, (String c header), basic, (String c' encoded), rest.
      split_and!; done.
    - intros (stored & header & basic & encoded & rest & -> & -> & Hh & Hsp
              & He & Hb & Hd & Hrest & Hu & Hp).
      destruct header as [| c header]; [done |]. rewrite Hsp.
      destruct encoded as [| c' encoded]; [done |].
      rewrite Hb. simpl negb. cbv iota.
      assert (take 2 (splitOn ":" (decodeBase64 (String c' encoded)))
              = [username stored; password stored]) as ->.
      { apply split2_pair. split_and!; [done | done |]. by exists rest. }
      by rewrite !String.eqb_refl. }
  split; [exact Hiff |].
  intros stored Hc Hcolon.
  destruct (isAuthenticated _ _ _ _ _) eqn:E; [| done].
  destruct (proj1 Hiff eq_refl)
    as (stored' & _ & _ & _ & _ & Hc' & _ & _ & _ & _ & _ & _ & _ & Hu & Hp).
  simplify_eq. by rewrite Hu, Hp in Hcolon.
Qed.

(** ** [#buildToken] *)

Lemma difference_nil (a b : list ServiceIdString) :
  difference a b = [] <-> forall x, x ∈ a -> x ∈ b.
Proof.
  unfold difference. induction a as [| y a IH]; simpl.
  - split; [intros _ x Hx; by apply elem_of_nil in Hx | done].
  - rewrite filter_cons. destruct (decide (y ∉ b)) as [Hy | Hy].
    + split; [done |]. intros H. destruct Hy. apply H. left.
    + rewrite IH. apply dec_stable in Hy. split.
      * intros H x [-> | Hx]%elem_of_cons; auto.
      * intros H x Hx. apply H. by right.
Qed.

Lemma elem_of_difference_list (a b : list ServiceIdString) x :
  x ∈ difference a b <-> x ∈ a /\ x ∉ b.
Proof. unfold difference. by rewrite list_elem_of_filter, (comm and). Qed.

Lemma elem_of_Set_remove (a : list ServiceIdString) x y :
  x ∈ Set_remove y a <-> x ∈ a /\ x <> y.
Proof. unfold Set_remove. by rewrite list_elem_of_filter, (comm and). Qed.

Lemma memberEndorsementsOf_all st ids :
  (forall x, x ∈ ids -> x ∈ memberEndorsementsAcis st) ->
  memberEndorsementsOf st ids = inr (MemberEndorsement <$> ids).
Proof.
  induction ids as [| y ids IH]; intros H; simpl; [done |].
  unfold getMemberEndorsement.
  rewrite bool_decide_eq_true_2 by (apply H; left).
  rewrite IH; [done |]. intros x Hx. apply H. by right.
Qed.

Lemma memberEndorsementsOf_missing st ids y :
  y ∈ ids -> y ∉ memberEndorsementsAcis st ->
  exists error, memberEndorsementsOf st ids = inl error.
Proof.
  intros Hy Hn. induction ids as [| z ids IH]; [by apply elem_of_nil in Hy |].
  simpl. unfold getMemberEndorsement. case_bool_decide as Hz; [| by eexists].
  apply elem_of_cons in Hy as [-> | Hy]; [done |].
  destruct (IH Hy) as [error ->]. by eexists.
Qed.

Lemma endorses_members st ids x :
  endorses st (Combine (MemberEndorsement <$> ids)) x <-> x ∈ ids.
Proof.
  simpl. induction ids as [| y ids IH]; simpl.
  - split; [done | intros H; by apply elem_of_nil in H].
  - rewrite IH, elem_of_cons. done.
Qed.

(** What [#getCombinedEndorsement] vouches for when it succeeds. *)
Lemma endorses_getCombinedEndorsement st includesOurs e x :
  getCombinedEndorsement st includesOurs = inr e ->
  endorses st e x
  <-> (x ∈ memberEndorsementsAcis st /\ x <> ourAci st)
      \/ (includesOurs = true /\ x = ourAci st
          /\ ourAci st ∈ memberEndorsementsAcis st).
Proof.
  unfold getCombinedEndorsement, getMemberEndorsement.
  destruct includesOurs; simpl.
  - case_bool_decide as Ho; [| done]. intros [= <-]. simpl.
    intuition (auto; congruence).
  - intros [= <-]. simpl. intuition (auto; congruence).
Qed.

(** X14.  Whichever strategy [#buildToken] takes, the single member
    endorsement, the combined endorsement, the combined endorsement less
    the members left out, or the members combined one by one, the
    endorsement it returns vouches for exactly the service ids asked for;
    and it fails whenever one of them has no stored endorsement. *)
Theorem buildToken_strategy_endorses_recipients st serviceIds :
  (forall e,
     buildToken_strategy st serviceIds = inr e ->
     forall x, endorses st e x <-> x ∈ serviceIds)
  /\ (forall y,
        y ∈ serviceIds -> y ∉ memberEndorsementsAcis st ->
        exists error, buildToken_strategy st serviceIds = inl error).
Proof.
  split.
  - intros e He x.
    assert (Hgen :
      match difference serviceIds (memberEndorsementsAcis st) with
      | _ :: _ =>
          inl (OtherError
                 "Attempted to build token with memberAcis we don't have")
      | [] =>
          let without := difference (memberEndorsementsAcis st) serviceIds in
          let includesOurs := negb (bool_decide (ourAci st ∈ without)) in
          let otherMembers := Set_remove (ourAci st) without in
          match otherMembers with
          | [] => getCombinedEndorsement st includesOurs
          | _ =>
              if 2 * length otherMembers <? length (memberEndorsementsAcis st)
              then subtractMemberEndorsements st otherMembers includesOurs
              else combineMemberEndorsements st serviceIds
          end
      end = inr e -> endorses st e x <-> x ∈ serviceIds).
    { clear He.
      destruct (difference serviceIds (memberEndorsementsAcis st)) eqn:Hmiss;
        [| done].
      pose proof (proj1 (difference_nil _ _) Hmiss) as Hsub.
      cbv zeta.
      remember (difference (memberEndorsementsAcis st) serviceIds)
        as without eqn:Ew.
      remember (Set_remove (ourAci st) without) as others eqn:Eo.
      assert (Hothers : forall z,
                z ∈ others
                <-> (z ∈ memberEndorsementsAcis st /\ (z ∉ serviceIds)
                     /\ z <> ourAci st)).
      { intros z. subst others without.
        rewrite elem_of_Set_remove, elem_of_difference_list. tauto. }
      assert (Hours : negb (bool_decide (ourAci st ∈ without)) = true ->
                ourAci st ∈ memberEndorsementsAcis st ->
                ourAci st ∈ serviceIds).
      { intros Hb Hin. apply negb_true_iff, bool_decide_eq_false in Hb.
        destruct (decide (ourAci st ∈ serviceIds)); [done |].
        destruct Hb. subst without. by apply elem_of_difference_list. }
      assert (Hnot : negb (bool_decide (ourAci st ∈ without)) = false ->
                ourAci st ∉ serviceIds).
      { intros Hb. apply negb_false_iff, bool_decide_eq_true in Hb.
        subst without. by apply elem_of_difference_list in Hb as [_ ?]. }
      assert (Hwhole : forall e0,
                getCombinedEndorsement st
                  (negb (bool_decide (ourAci st ∈ without))) = inr e0 ->
                (endorses st e0 x /\ x ∉ others) <-> x ∈ serviceIds).
      { intros e0 H0.
        rewrite (endorses_getCombinedEndorsement _ _ _ x H0), Hothers.
        destruct (negb (bool_decide (ourAci st ∈ without))) eqn:Hb.
        - specialize (Hours eq_refl).
          destruct (decide (x ∈ serviceIds)) as [Hx | Hx];
            destruct (decide (x = ourAci st)) as [-> | Hne];
            intuition (auto; congruence).
        - specialize (Hnot eq_refl).
          destruct (decide (x ∈ serviceIds)) as [Hx | Hx];
            destruct (decide (x = ourAci st)) as [-> | Hne];
            intuition (auto; congruence). }
      clear Eo. destruct others as [| o os].
      - intros H0. rewrite <- (Hwhole e H0).
        split; [intros ?; split; [done | apply not_elem_of_nil] | tauto].
      - destruct (_ <? _).
        + unfold subtractMemberEndorsements.
          destruct (bool_decide (ourAci st ∈ o :: os)); [done |].
          destruct (getCombinedEndorsement st _) as [| e0] eqn:H0; [done |].
          unfold combineMemberEndorsements.
          rewrite memberEndorsementsOf_all
            by (intros z Hz; by apply Hothers in Hz as [? _]).
          intros [= <-]. rewrite <- (Hwhole e0 eq_refl).
          change ((endorses st e0 x
                   /\ ~ endorses st
                          (Combine (MemberEndorsement <$> o :: os)) x)
                  <-> (endorses st e0 x /\ x ∉ o :: os)).
          by rewrite endorses_members.
        + unfold combineMemberEndorsements.
          rewrite memberEndorsementsOf_all by done.
          intros [= <-]. apply endorses_members. }
    revert He. unfold buildToken_strategy.
    destruct serviceIds as [| y [| y' ys]]; try exact Hgen.
    unfold getMemberEndorsement. case_bool_decide; [| done].
    intros [= <-]. simpl. by rewrite list_elem_of_singleton.
  - intros y Hy Hn.
    assert (Hmiss : exists z zs,
              difference serviceIds (memberEndorsementsAcis st) = z :: zs).
    { destruct (difference serviceIds (memberEndorsementsAcis st)) eqn:E;
        [| by eauto].
      destruct Hn. by apply (proj1 (difference_nil _ _) E). }
    destruct Hmiss as (z & zs & Hmiss).
    unfold buildToken_strategy.
    destruct serviceIds as [| y0 [| y1 ys]].
    + by apply elem_of_nil in Hy.
    + apply list_elem_of_singleton in Hy as ->.
      unfold getMemberEndorsement. rewrite bool_decide_eq_false_2 by done.
      by eexists.
    + rewrite Hmiss. by eexists.
Qed.

(** X15.  When every service id asked for has a stored endorsement and so
    has our own ACI, [#buildToken] succeeds: in particular the assertion of
    [#subtractMemberEndorsements] that our own ACI is not subtracted never
    fails. *)
Theorem buildToken_strategy_succeeds st serviceIds :
  (forall x, x ∈ serviceIds -> x ∈ memberEndorsementsAcis st) ->
  ourAci st ∈ memberEndorsementsAcis st ->
  exists e, buildToken_strategy st serviceIds = inr e.
Proof.
  intros Hsub Hours.
  assert (Hcomb : forall b, exists e, getCombinedEndorsement st b = inr e).
  { intros b. unfold getCombinedEndorsement, getMemberEndorsement.
    destruct b; simpl; [| by eexists].
    rewrite bool_decide_eq_true_2 by done. by eexists. }
  unfold buildToken_strategy.
  assert (Hgen : exists e,
    match difference serviceIds (memberEndorsementsAcis st) with
    | _ :: _ =>
        inl (OtherError
               "Attempted to build token with memberAcis we don't have")
    | [] =>
        let without := difference (memberEndorsementsAcis st) serviceIds in
        let includesOurs := negb (bool_decide (ourAci st ∈ without)) in
        let otherMembers := Set_remove (ourAci st) without in
        match otherMembers with
        | [] => getCombinedEndorsement st includesOurs
        | _ =>
            if 2 * length otherMembers <? length (memberEndorsementsAcis st)
            then subtractMemberEndorsements st otherMembers includesOurs
            else combineMemberEndorsements st serviceIds
        end
    end = inr e).
  { rewrite (proj2 (difference_nil _ _) Hsub). cbv zeta.
    remember (difference (memberEndorsementsAcis st) serviceIds)
      as without eqn:Ew.
    remember (Set_remove (ourAci st) without) as others eqn:Eo.
    assert (Hothers : forall z, z ∈ others ->
              z ∈ memberEndorsementsAcis st /\ z <> ourAci st).
    { intros z. subst others without.
      rewrite elem_of_Set_remove, elem_of_difference_list. tauto. }
    clear Eo. destruct others as [| o os]; [apply Hcomb |].
    destruct (_ <? _).
    - unfold subtractMemberEndorsements.
      rewrite bool_decide_eq_false_2
        by (intros Hin; by apply Hothers in Hin as [_ ?]).
      destruct (Hcomb (negb (bool_decide (ourAci st ∈ without)))) as [e0 ->].
      unfold combineMemberEndorsements.
      rewrite memberEndorsementsOf_all
        by (intros z Hz; by apply Hothers in Hz as [? _]).
      by eexists.
    - unfold combineMemberEndorsements.
      rewrite memberEndorsementsOf_all by done. by eexists. }
  destruct serviceIds as [| y [| y' ys]]; try exact Hgen.
  unfold getMemberEndorsement.
  rewrite bool_decide_eq_true_2 by (apply Hsub; left). by eexists.
Qed.

(** ** Request handlers *)

Lemma set_requestHandlers_same s :
  set_requestHandlers (requestHandlers s) s = s.
Proof. by destruct s. Qed.

Lemma Set_add_idempotent h hs : Set_add h (Set_add h hs) = Set_add h hs.
Proof.
  unfold Set_add. destruct (bool_decide (h ∈ hs)) eqn:E; simpl.
  - by rewrite E.
  - rewrite bool_decide_eq_true_2; [done |].
    apply elem_of_app. right. by apply list_elem_of_singleton.
Qed.

Lemma Set_delete_Set_add h hs : h ∉ hs -> Set_delete h (Set_add h hs) = hs.
Proof.
  intros Hin. unfold Set_add. rewrite bool_decide_eq_false_2 by done.
  unfold Set_delete. rewrite filter_app.
  rewrite (filter_cons_False _ h) by (intros H; by apply H).
  rewrite filter_nil, app_nil_r.
  induction hs as [| x hs IH]; [done |].
  apply not_elem_of_cons in Hin as [Hne Hin].
  rewrite filter_cons_True by done. by rewrite IH.
Qed.

Lemma registerRequestHandler_handlers h s :
  requestHandlers (registerRequestHandler h s) = Set_add h (requestHandlers s)
  /\ incomingRequestQueue (registerRequestHandler h s) = [].
Proof.
  unfold registerRequestHandler.
  cbn [incomingRequestQueue set_requestHandlers].
  destruct (incomingRequestQueue s) as [| r q] eqn:Eq; [done |].
  destruct (Set_add h (requestHandlers s)) as [| h0 hs0] eqn:Eh;
    [by destruct (Set_add_nonempty h (requestHandlers s)) |].
  destruct (receive_dispatches (r :: q) h0 hs0
              (set_incomingRequestQueue []
                 (set_requestHandlers (h0 :: hs0) s)))
    as (_ & E2 & E3); [done |].
  unfold receive in E2, E3. by rewrite E2, E3.
Qed.

(** X16.  Registering a handler a second time changes nothing: the handler
    set is a set and the buffer has already been replayed.  Unregistering
    a handler that was new, when nothing was buffered, undoes its
    registration; with requests buffered it does not, they have been
    delivered. *)
Theorem registerRequestHandler_idempotent handler s :
  registerRequestHandler handler (registerRequestHandler handler s)
  = registerRequestHandler handler s
  /\ (handler ∉ requestHandlers s ->
      incomingRequestQueue s = [] ->
      unregisterRequestHandler handler (registerRequestHandler handler s)
      = s)
  /\ (requestHandlers s = [] ->
      incomingRequestQueue s <> [] ->
      delivered
        (unregisterRequestHandler handler (registerRequestHandler handler s))
      = delivered s
        ++ map (fun req => (handler, req)) (incomingRequestQueue s)).
Proof.
  split_and!.
  - destruct (registerRequestHandler_handlers handler s) as [Hh Hq].
    unfold registerRequestHandler at 1.
    cbn [incomingRequestQueue set_requestHandlers].
    rewrite Hq, Hh, Set_add_idempotent, <- Hh.
    apply set_requestHandlers_same.
  - intros Hin Hq. unfold registerRequestHandler.
    cbn [incomingRequestQueue set_requestHandlers]. rewrite Hq.
    unfold unregisterRequestHandler.
    cbn [requestHandlers set_requestHandlers].
    rewrite Set_delete_Set_add by done. by destruct s.
  - intros Hh Hq. unfold unregisterRequestHandler. simpl.
    unfold registerRequestHandler.
    cbn [incomingRequestQueue set_requestHandlers].
    destruct (incomingRequestQueue s) as [| r q] eqn:Eq; [done |].
    rewrite Hh. unfold Set_add. rewrite bool_decide_eq_false_2
      by apply not_elem_of_nil.
    destruct (receive_dispatches (r :: q) handler []
                (set_incomingRequestQueue []
                   (set_requestHandlers [handler] s)))
      as (E1 & _ & _); [done |].
    unfold receive in E1. simpl app. rewrite E1. simpl. f_equal. f_equal.
    clear. induction q as [| x q IH]; [done |]. simpl. by rewrite IH.
Qed.

(** ** Group send endorsements: expiration and creation of the state *)

Lemma foldl_Set_insert l acc :
  NoDup acc ->
  NoDup (foldl (fun acis aci => Set_insert aci acis) acc l)
  /\ forall x,
       x ∈ foldl (fun acis aci => Set_insert aci acis) acc l
       <-> (x ∈ acc \/ x ∈ l).
Proof.
  revert acc. induction l as [| y l IH]; intros acc Hnd; simpl.
  - split; [done |]. intros x. rewrite elem_of_nil. tauto.
  - assert (NoDup (Set_insert y acc)) as Hnd'.
    { unfold Set_insert. case_bool_decide as Hin; [done |].
      apply NoDup_app. split_and!; [done | | apply NoDup_singleton].
      intros x Hx ->%list_elem_of_singleton. done. }
    destruct (IH _ Hnd') as [H1 H2]. split; [done |].
    intros x. rewrite H2, elem_of_cons. unfold Set_insert.
    case_bool_decide as Hin.
    + split; [tauto |]. intros [? | [-> | ?]]; tauto.
    + rewrite elem_of_app, list_elem_of_singleton. tauto.
Qed.

Lemma Math_trunc_window (x : QArith_base.Q) (h d : Z) :
  (0 <= h)%Z ->
  (QArith_base.Qlt (QArith_base.inject_Z 0) x
   /\ (h < Math_trunc x)%Z /\ (Math_trunc x < d)%Z)
  <-> (QArith_base.Qle (QArith_base.inject_Z (h + 1)) x
       /\ QArith_base.Qlt x (QArith_base.inject_Z d)).
Proof.
  intros Hh. destruct x as [n dn].
  unfold Math_trunc, QArith_base.Qlt, QArith_base.Qle. simpl.
  rewrite !Z.mul_1_r.
  assert (0 < Z.pos dn)%Z as Hd by lia.
  split.
  - intros (Hn & H1 & H2).
    rewrite Z.quot_div_nonneg in H1, H2 by lia.
    split.
    + assert (h + 1 <= n / Z.pos dn)%Z as H by lia.
      pose proof (Z.mul_div_le n (Z.pos dn) Hd). nia.
    + apply Z.nle_gt. intros Hle.
      assert (d <= n / Z.pos dn)%Z; [| lia].
      apply Z.div_le_lower_bound; lia.
  - intros [H1 H2].
    assert (0 < n)%Z as Hn by nia.
    rewrite Z.quot_div_nonneg by lia.
    split; [lia |]. split.
    + assert (h + 1 <= n / Z.pos dn)%Z; [| lia].
      apply Z.div_le_lower_bound; lia.
    + apply Z.div_lt_upper_bound; lia.
Qed.

Lemma Qle_bool_inject_Z a b :
  QArith_base.Qle_bool (QArith_base.inject_Z a) (QArith_base.inject_Z b)
  = (a <=? b)%Z.
Proof.
  unfold QArith_base.Qle_bool. simpl. by rewrite !Z.mul_1_r.
Qed.

(** X17.  With thresholds of whole seconds, the validation of an
    expiration accepts exactly the expirations at least one second more
    than the lower threshold and less than the upper threshold ahead of
    now, since the distance is truncated before it is compared; it gives
    a reason with every refusal.  [#toToken] hands the validation result
    itself to its assertion, so the assertion passes whatever the result:
    a token is built also from endorsements that have expired, and
    [buildToken] returns one whenever a strategy yields an endorsement. *)
Theorem toToken_ignores_expiration fromMillis (twoDays twoHours : Z) st now :
  (0 <= twoHours)%Z ->
  let TWO_DAYS := QArith_base.inject_Z twoDays in
  let TWO_HOURS := QArith_base.inject_Z twoHours in
  let ahead :=
    QArith_base.Qminus (fromMillis (getExpiration st)) (fromMillis now) in
  let result :=
    isValidGroupSendEndorsementsExpiration fromMillis TWO_DAYS TWO_HOURS
      now (getExpiration st) in
  (valid result = true
   <-> QArith_base.Qle (QArith_base.inject_Z (twoHours + 1)) ahead
       /\ QArith_base.Qlt ahead TWO_DAYS)
  /\ (valid result = false <-> is_Some (reason result))
  /\ (forall e,
        toToken fromMillis TWO_DAYS TWO_HOURS st now e
        = inr {| token_endorsement := e;
                 token_expiration := getExpiration st |})
  /\ (forall serviceIds e,
        buildToken_strategy st serviceIds = inr e ->
        buildToken fromMillis TWO_DAYS TWO_HOURS st now serviceIds
        = (Some {| token_endorsement := e;
                   token_expiration := getExpiration st |}, [])).
Proof.
  intros H0 TWO_DAYS TWO_HOURS ahead result.
  assert (forall e,
            toToken fromMillis TWO_DAYS TWO_HOURS st now e
            = inr {| token_endorsement := e;
                     token_expiration := getExpiration st |}) as Htoken.
  { intros e. reflexivity. }
  split_and!; [| | exact Htoken |].
  - subst TWO_DAYS TWO_HOURS.
    etransitivity; [| exact (Math_trunc_window ahead twoHours twoDays H0)].
    subst result. unfold isValidGroupSendEndorsementsExpiration.
    fold ahead. rewrite !Qle_bool_inject_Z.
    destruct (QArith_base.Qle_bool _ (fromMillis now)) eqn:E1.
    { split; [done |]. intros [Hlt _].
      apply QArith_base.Qle_bool_iff in E1.
      apply QArith_base.Qlt_not_le in Hlt. destruct Hlt.
      unfold ahead.
      apply QArith_base.Qle_minus_iff in E1.
      unfold QArith_base.Qle in *. simpl in *. lia. }
    assert (QArith_base.Qlt (QArith_base.inject_Z 0) ahead) as Hpos.
    { apply (proj1 (QArith_base.Qlt_minus_iff (fromMillis now)
                      (fromMillis (getExpiration st)))).
      apply QArith_base.Qnot_le_lt.
      intros Hle. apply QArith_base.Qle_bool_iff in Hle. congruence. }
    destruct (Math_trunc ahead <=? twoHours)%Z eqn:E2;
      [simpl; split; [done | lia] |].
    destruct (twoDays <=? Math_trunc ahead)%Z eqn:E3;
      [simpl; split; [done | lia] |].
    simpl. split; [| done]. intros _. split; [done | lia].
  - subst result. unfold isValidGroupSendEndorsementsExpiration.
    repeat case_match; simpl; split; try done; by intros [? ?].
  - intros serviceIds e He. unfold buildToken. by rewrite He, Htoken.
Qed.

(** X18.  [maybeCreateGroupSendEndorsementState] returns a state only for
    stored endorsements whose expiration is valid at that time, built from
    them with each member once; it refreshes the group at most once, never
    when the group was refreshed already, and then returns no state; it
    reports a failure only after such a refresh. *)
Theorem maybeCreateGroupSendEndorsementState_refreshes_once
    fromMillis TWO_DAYS TWO_HOURS now ours conversation data
    alreadyRefreshedGroupState result effects :
  maybeCreateGroupSendEndorsementState fromMillis TWO_DAYS TWO_HOURS now
    ours conversation data alreadyRefreshedGroupState
  = inr (result, effects) ->
  (didRefreshGroupState result = true <-> effects = [RefreshGroup])
  /\ (didRefreshGroupState result = true ->
      alreadyRefreshedGroupState = false /\ result_state result = None)
  /\ (effects <> [] /\ effects <> [RefreshGroup] ->
      effects = [FailedToSendWithEndorsements]
      /\ alreadyRefreshedGroupState = true
      /\ result_state result = None)
  /\ (forall st,
        result_state result = Some st ->
        effects = []
        /\ exists d,
             data = Some d
             /\ st = GroupSendEndorsementState_new d ours
             /\ valid (isValidGroupSendEndorsementsExpiration fromMillis
                         TWO_DAYS TWO_HOURS now (getExpiration st)) = true
             /\ NoDup (memberEndorsementsAcis st)
             /\ forall x,
                  x ∈ memberEndorsementsAcis st <-> x ∈ data_memberAcis d).
Proof.
  unfold maybeCreateGroupSendEndorsementState.
  destruct conversation as [conversation |]; [| done].
  destruct (strictAssert (AssertedBoolean _) _); [done |].
  destruct data as [d |].
  - destruct (strictAssert (AssertedString _) _); [done |].
    destruct (valid _) eqn:Hv; simpl.
    + intros [= <- <-]. simpl. split_and!; try done.
      * by intros [? _].
      * intros st [= <-]. split; [done |]. exists d.
        split_and!; try done.
        -- apply (foldl_Set_insert _ []), NoDup_nil_2.
        -- intros x. simpl.
           destruct (foldl_Set_insert (data_memberAcis d) [] (NoDup_nil_2))
             as [_ H]. rewrite H, elem_of_nil. tauto.
    + destruct alreadyRefreshedGroupState; intros [= <- <-]; simpl;
        split_and!; try done; by intros [? ?].
  - destruct (conversation_isMember conversation);
      [destruct alreadyRefreshedGroupState |];
      intros [= <- <-]; simpl; split_and!; try done; by intros [? ?].
Qed.

(** ** The further properties at concrete inputs *)

(** The state after a run from the fresh manager. *)
Abbreviation example_after ls := (default example_new (example_run ls example_new)).

(** The first attempt failed with 503: a reconnect sleep is pending. *)
Abbreviation example_sleeping :=
  (example_after [CallAuthenticate alice; ProxyAgentSettled true;
                  ProcessFailed 0 (HTTPError 503)]).

Lemma example_after_reachable ls :
  is_Some (example_run ls example_new) -> example_reachable (example_after ls).
Proof.
  intros [s Hs]. rewrite Hs. simpl.
  by apply (example_runs_reachable ls).
Qed.

Lemma logout_forgets_witness :
  authenticated example_connected = Some 0
  /\ status (logout example_connected) = CLOSED
  /\ credentials (logout example_connected) = None.
Proof.
  destruct (logout_forgets example_options example_connected)
    as (_ & Hc & _ & _ & _ & Hp & _).
  split; [reflexivity |]. split; [| exact Hc].
  exact (proj1 (proj2 (Hp 0 eq_refl))).
Defined.

Lemma reconnect_restarts_witness :
  credentials example_connected = Some alice
  /\ emptyCredentials alice = false
  /\ isRemotelyExpired example_connected = false
  /\ status (reconnect example_options example_connected) = CONNECTING
  /\ procs (reconnect example_options example_connected)
     = [example_process AuthenticatedChannel None ShuttingDown].
Proof.
  do 3 (split; [reflexivity |]).
  destruct (reconnect_restarts example_options example_connected)
    as (_ & _ & Hp & _ & H & _).
  split; [exact (proj1 (H alice eq_refl eq_refl eq_refl)) | exact Hp].
Defined.

Lemma onNavigatorOnline_reconnects_early_witness :
  authenticated example_sleeping = None
  /\ credentials example_sleeping = Some alice
  /\ reconnectController example_sleeping = Some 0
  /\ sleeps example_sleeping !! 0 = Some (Sleeping 1000)
  /\ sleeps (onNavigatorOnline example_options example_timeouts
               example_sleeping) !! 0 = Some SleepAborted
  /\ status (onNavigatorOnline example_options example_timeouts
               example_sleeping) = CONNECTING
  /\ isRemotelyExpired (onRemoteExpiration example_sleeping) = true
  /\ proxyWaiters (onNavigatorOnline example_options example_timeouts
                     (onRemoteExpiration example_sleeping))
     = proxyWaiters (onRemoteExpiration example_sleeping).
Proof.
  do 4 (split; [vm_compute; reflexivity |]).
  destruct (onNavigatorOnline_reconnects_early example_options
              example_timeouts example_sleeping)
    as (_ & _ & _ & _ & Hs & _ & Hc & _).
  destruct (onNavigatorOnline_reconnects_early example_options
              example_timeouts (onRemoteExpiration example_sleeping))
    as (_ & _ & _ & _ & _ & _ & _ & He).
  split_and!.
  - apply (Hs alice 0 1000%Z); vm_compute; reflexivity.
  - apply (Hc alice); vm_compute; reflexivity.
  - vm_compute; reflexivity.
  - apply He. vm_compute; reflexivity.
Defined.

Lemma reconnect_sleep_abandoned_witness :
  reconnectController example_sleeping = Some 0
  /\ sleeps example_sleeping !! 0 = Some (Sleeping 1000)
  /\ exists s',
       exec example_options example_hostname example_false example_false
         example_false example_false example_timeouts example_timeouts
         (SleepDone 0) (onRemoteExpiration example_sleeping) = Some s'
       /\ procs s' = procs example_sleeping
       /\ proxyWaiters s' = proxyWaiters example_sleeping.
Proof.
  do 2 (split; [vm_compute; reflexivity |]).
  destruct (proj2 (reconnect_sleep_abandoned example_options
                     example_hostname example_false example_false
                     example_false example_false example_timeouts
                     example_timeouts 0 example_sleeping) 1000%Z)
    as (s' & Hx & Hp & Hw & _);
    [vm_compute; reflexivity | vm_compute; reflexivity |].
  exists s'. split_and!; assumption.
Defined.

Lemma unauthenticatedExpirationTimer_rotates_witness :
  unauthenticated example_unauthenticated = Some 0
  /\ unauthenticated
       (unauthenticatedExpirationTimer_fired example_options 0
          example_unauthenticated) = None
  /\ proxyWaiters
       (unauthenticatedExpirationTimer_fired example_options 0
          example_unauthenticated) = [AwaitUnauthenticated].
Proof.
  split; [reflexivity |].
  destruct (unauthenticatedExpirationTimer_rotates example_options 0
              example_unauthenticated) as (_ & _ & _ & H & _).
  destruct (H eq_refl) as (H1 & _ & H3). split; [exact H1 | exact H3].
Defined.

Lemma unauthenticated_onClose_reconnects_lazily_witness :
  unauthenticated example_unauthenticated = Some 0
  /\ proxyWaiters (unauthenticated_onClose 0 example_unauthenticated) = []
  /\ (getUnauthenticatedResource example_options
        (unauthenticated_onClose 0 example_unauthenticated)).1
     = UnauthenticatedConnects.
Proof.
  split; [reflexivity |].
  destruct (proj2 (unauthenticated_onClose_reconnects_lazily example_options
                     0 example_unauthenticated) eq_refl)
    as (_ & _ & Hw & _ & _ & Hg).
  split; [exact Hw | exact Hg].
Defined.


Lemma buffer_only_without_handlers_witness :
  let s := example_after [CallAuthenticate alice; ProxyAgentSettled true;
                          ProcessConnected 0; AuthenticateResumed 0;
                          IncomingRequest 0 1;
                          CallRegisterRequestHandler 7;
                          IncomingRequest 0 2] in
  example_reachable s
  /\ requestHandlers s = [7]
  /\ delivered s = [(7, 1); (7, 2)]
  /\ incomingRequestQueue s = [].
Proof.
  intros s.
  assert (example_reachable s) as Hr.
  { apply example_after_reachable. vm_compute. by eexists. }
  split; [exact Hr |]. split; [vm_compute; reflexivity |].
  split; [vm_compute; reflexivity |].
  refine (proj1 (buffer_only_without_handlers example_options
                   example_hostname example_false example_false
                   example_false example_false example_timeouts
                   example_timeouts s Hr) _).
  vm_compute. discriminate.
Defined.

Lemma proxy_forces_legacy_transport_witness :
  let s := default example_new
             (run example_proxy_options example_hostname example_false
                example_false (fun _ => true) (fun _ => true)
                example_timeouts example_timeouts
                [CallAuthenticate alice; ProxyAgentSettled true;
                 CallGetUnauthenticatedResource; ProxyAgentSettled true]
                example_new) in
  hasProxyUrl example_proxy_options = true
  /\ length (procs s) = 2
  /\ Forall legacyProcess (procs s).
Proof.
  intros s. split; [reflexivity |]. split; [vm_compute; reflexivity |].
  apply (proxy_forces_legacy_transport example_proxy_options
           example_hostname example_false example_false (fun _ => true)
           (fun _ => true) example_timeouts example_timeouts s eq_refl).
  apply (run_reachable _ _ _ _ _ _ _ _
           [CallAuthenticate alice; ProxyAgentSettled true;
            CallGetUnauthenticatedResource; ProxyAgentSettled true]
           example_new); [apply rtc_refl | vm_compute; reflexivity].
Defined.

Lemma remotely_expired_never_connects_witness :
  let s := onRemoteExpiration example_connected in
  let s' := default s
              (example_run [CallReconnect; CallGetUnauthenticatedResource;
                            CallOnNavigatorOnline; CallAuthenticate alice']
                 s) in
  isRemotelyExpired s = true
  /\ proxyWaiters s = []
  /\ authenticated s' = None
  /\ length (procs s') = 1.
Proof.
  intros s s'. do 2 (split; [reflexivity |]).
  split; [vm_compute; reflexivity |].
  refine (proj1 (proj2 (proj2
    (remotely_expired_never_connects example_options example_hostname
       example_false example_false example_false example_false
       example_timeouts example_timeouts s s' _ eq_refl eq_refl)))).
  apply (run_steps _ _ _ _ _ _ _ _
           [CallReconnect; CallGetUnauthenticatedResource;
            CallOnNavigatorOnline; CallAuthenticate alice']).
  vm_compute. reflexivity.
Defined.

Lemma stored_credentials_not_empty_witness :
  example_reachable example_connected
  /\ credentials example_connected = Some alice
  /\ ~ (username alice = "" /\ password alice = "").
Proof.
  assert (example_reachable example_connected) as Hr.
  { eapply example_runs_reachable. exact example_connected_run. }
  split; [exact Hr |]. split; [reflexivity |].
  exact (stored_credentials_not_empty example_options example_hostname
           example_false example_false example_false example_false
           example_timeouts example_timeouts example_connected alice Hr
           eq_refl).
Defined.

Lemma single_live_authenticated_process_witness :
  example_reachable example_connected
  /\ liveAuthenticated (procs example_connected) 0
  /\ authenticated example_connected = Some 0.
Proof.
  assert (example_reachable example_connected) as Hr.
  { eapply example_runs_reachable. exact example_connected_run. }
  assert (liveAuthenticated (procs example_connected) 0) as Hl.
  { eexists. split; [reflexivity |]. split; [reflexivity | by right]. }
  split; [exact Hr |]. split; [exact Hl |].
  exact (proj1 (single_live_authenticated_process example_options
                  example_hostname example_false example_false
                  example_false example_false example_timeouts
                  example_timeouts example_connected 0 0 Hr Hl Hl)).
Defined.

Lemma isAuthenticated_basic_credentials_witness :
  credentials example_connected = Some alice
  /\ isAuthenticated (fun _ => ("Basic", Some "YWxpY2U6cHc="))
       (fun _ => "basic") (fun _ => "alice:pw")
       (Some "Basic YWxpY2U6cHc=") example_connected = true.
Proof.
  split; [reflexivity |].
  apply (isAuthenticated_basic_credentials
           (fun _ => ("Basic", Some "YWxpY2U6cHc=")) (fun _ => "basic")
           (fun _ => "alice:pw") (Some "Basic YWxpY2U6cHc=")
           example_connected).
  exists alice, "Basic YWxpY2U6cHc=", "Basic", "YWxpY2U6cHc=", "".
  split_and!; try reflexivity; try discriminate. by left.
Defined.

Lemma buildToken_strategy_endorses_recipients_witness :
  buildToken_strategy example_endorsements ["a"; "b"; "c"]
  = inr (ByRemoving CombinedEndorsement (Combine [MemberEndorsement "d"]))
  /\ endorses example_endorsements
       (ByRemoving CombinedEndorsement (Combine [MemberEndorsement "d"])) "a"
  /\ exists error,
       buildToken_strategy example_endorsements ["a"; "z"] = inl error.
Proof.
  split; [vm_compute; reflexivity |]. split.
  - apply (proj1 (buildToken_strategy_endorses_recipients
                    example_endorsements ["a"; "b"; "c"]) _ eq_refl "a").
    repeat constructor.
  - apply (proj2 (buildToken_strategy_endorses_recipients
                    example_endorsements ["a"; "z"]) "z");
      [repeat constructor |].
    change (memberEndorsementsAcis example_endorsements)
      with ["a"; "b"; "c"; "d"; "me"].
    intros H.
    repeat (apply elem_of_cons in H as [H | H]; [discriminate |]).
    by apply elem_of_nil in H.
Defined.

Lemma buildToken_strategy_succeeds_witness :
  (forall x, x ∈ ["a"; "b"] -> x ∈ memberEndorsementsAcis example_endorsements)
  /\ (ourAci example_endorsements
      ∈ memberEndorsementsAcis example_endorsements)
  /\ exists e, buildToken_strategy example_endorsements ["a"; "b"] = inr e.
Proof.
  assert (memberEndorsementsAcis example_endorsements
          = ["a"; "b"; "c"; "d"; "me"]) as Hm by (vm_compute; reflexivity).
  assert (forall x, x ∈ ["a"; "b"] ->
                    x ∈ memberEndorsementsAcis example_endorsements) as H1.
  { rewrite Hm.
    intros x [-> | [-> | []%elem_of_nil]%elem_of_cons]%elem_of_cons;
      repeat constructor. }
  assert (ourAci example_endorsements
          ∈ memberEndorsementsAcis example_endorsements) as H2.
  { rewrite Hm. change (ourAci example_endorsements) with "me".
    repeat constructor. }
  split; [exact H1 |]. split; [exact H2 |].
  exact (buildToken_strategy_succeeds example_endorsements ["a"; "b"] H1 H2).
Defined.

Lemma registerRequestHandler_idempotent_witness :
  (7 ∉ requestHandlers example_connected)
  /\ incomingRequestQueue example_connected = []
  /\ unregisterRequestHandler 7 (registerRequestHandler 7 example_connected)
     = example_connected.
Proof.
  assert (7 ∉ requestHandlers example_connected) as Hin
    by apply not_elem_of_nil.
  split; [exact Hin |]. split; [reflexivity |].
  exact (proj1 (proj2 (registerRequestHandler_idempotent 7
                         example_connected)) Hin eq_refl).
Defined.

Lemma toToken_ignores_expiration_witness :
  (0 <= 7200)%Z
  /\ valid (isValidGroupSendEndorsementsExpiration example_fromMillis
              (QArith_base.inject_Z 172800) (QArith_base.inject_Z 7200)
              90000000 (getExpiration example_endorsements))
     = true
  /\ valid (isValidGroupSendEndorsementsExpiration example_fromMillis
              (QArith_base.inject_Z 172800) (QArith_base.inject_Z 7200)
              92799500 (getExpiration example_endorsements))
     = false
  /\ toToken example_fromMillis (QArith_base.inject_Z 172800)
       (QArith_base.inject_Z 7200) example_endorsements 200000000
       CombinedEndorsement
     = inr {| token_endorsement := CombinedEndorsement;
              token_expiration := 100000000 |}.
Proof.
  split; [lia |]. split_and!.
  - apply (proj1 (toToken_ignores_expiration example_fromMillis 172800 7200
                    example_endorsements 90000000 ltac:(lia))).
    split; vm_compute; [discriminate | reflexivity].
  - vm_compute. reflexivity.
  - exact (proj1 (proj2 (proj2
      (toToken_ignores_expiration example_fromMillis 172800 7200
         example_endorsements 200000000 ltac:(lia)))) CombinedEndorsement).
Defined.

Lemma maybeCreateGroupSendEndorsementState_refreshes_once_witness :
  maybeCreateGroupSendEndorsementState example_fromMillis
    (QArith_base.inject_Z 172800) (QArith_base.inject_Z 7200)
    90000000 "me" (Some example_conversation) (Some example_data) false
  = inr ({| result_state := Some example_endorsements;
            didRefreshGroupState := false |}, [])
  /\ valid (isValidGroupSendEndorsementsExpiration example_fromMillis
              (QArith_base.inject_Z 172800) (QArith_base.inject_Z 7200)
              90000000 (getExpiration example_endorsements))
     = true.
Proof.
  assert (maybeCreateGroupSendEndorsementState example_fromMillis
            (QArith_base.inject_Z 172800) (QArith_base.inject_Z 7200)
            90000000 "me" (Some example_conversation)
            (Some example_data) false
          = inr ({| result_state := Some example_endorsements;
                    didRefreshGroupState := false |}, [])) as Hrun
    by (vm_compute; reflexivity).
  split; [exact Hrun |].
  destruct (proj2 (proj2 (proj2
    (maybeCreateGroupSendEndorsementState_refreshes_once
       example_fromMillis (QArith_base.inject_Z 172800)
       (QArith_base.inject_Z 7200) 90000000 "me"
       (Some example_conversation) (Some example_data) false _ _ Hrun)))
    example_endorsements eq_refl) as (_ & d & _ & _ & Hv & _).
  exact Hv.
Defined.
